(** * llm-chat-app-template: the relay worker, its stream decoder and its
      per-session message log

    A shallow embedding of
    - [consumeSseEvents] and the three copies of its loop in
      [handleChatRequest] and [handleRealtime] (src/public/chat.js),
    - the delta extraction done on every decoded payload,
    - [ConversationDO.fetch] (src/src/conversation_do.ts),
    - [handleChatRequest] and the [message] listener of [handleRealtime].

    JavaScript strings are sequences of UTF-16 code units; the built-ins
    [JSON.parse], [JSON.stringify], [Number::toString] and the inference
    binding [env.AI] are parameters of the development. *)

From Stdlib Require Import NArith ZArith Ascii String List DecimalString.
From Stdlib Require Import Floats.SpecFloat.
From stdpp Require Import base list gmap strings.
From Equations Require Import Equations.
From Equations.Prop Require Import Logic.

Set Default Proof Using "Type".
Set Warnings "-register-all".

(** * JavaScript strings *)

Module JS.

(** A string value: its UTF-16 code units. *)
Abbreviation jsstring := (list N).

(** A string literal of the source (ASCII only). *)
Definition lit (s : string) : jsstring :=
  map N_of_ascii (list_ascii_of_string s).

(** A JSON text, written here with single quotes for its double quotes. *)
Definition json_text (s : string) : jsstring :=
  map (λ c, if (c =? 39)%N then 34%N else c) (lit s).

Definition LF : N := 10.
Definition CR : N := 13.

(** [s.startsWith(searchString)] *)
Fixpoint startsWith (searchString s : jsstring) : bool :=
  match searchString, s with
  | [], _ => true
  | p :: ps, c :: cs => (p =? c)%N && startsWith ps cs
  | _ :: _, [] => false
  end.

(** [s.indexOf(searchString)]; [None] is the source's [-1]. *)
Fixpoint indexOfFrom (searchString s : jsstring) (position : nat)
  {struct s} : option nat :=
  if startsWith searchString s then Some position
  else match s with
       | [] => None
       | _ :: s' => indexOfFrom searchString s' (S position)
       end.

Definition indexOf (searchString s : jsstring) : option nat :=
  indexOfFrom searchString s 0.

(** [s.slice(start)] and [s.slice(0, end)] for indices within the string. *)
Definition slice_from (start : nat) (s : jsstring) : jsstring := drop start s.
Definition slice_to (stop : nat) (s : jsstring) : jsstring := take stop s.

(** [s.split(separator)] for a separator of one code unit. *)
Fixpoint split (separator : N) (s : jsstring) : list jsstring :=
  match s with
  | [] => [[]]
  | c :: s' =>
      if (c =? separator)%N then [] :: split separator s'
      else match split separator s' with
           | [] => [[c]]
           | piece :: pieces => (c :: piece) :: pieces
           end
  end.

(** [pieces.join(separator)] *)
Fixpoint join (separator : jsstring) (pieces : list jsstring) : jsstring :=
  match pieces with
  | [] => []
  | [piece] => piece
  | piece :: rest => piece ++ separator ++ join separator rest
  end.

(** White space and line terminators, the code units [trimStart] removes. *)
Definition isWhiteSpace (c : N) : bool :=
  ((c =? 9) || (c =? 10) || (c =? 11) || (c =? 12) || (c =? 13)
   || (c =? 32) || (c =? 160) || (c =? 0x1680)
   || ((0x2000 <=? c) && (c <=? 0x200A))
   || (c =? 0x2028) || (c =? 0x2029) || (c =? 0x202F) || (c =? 0x205F)
   || (c =? 0x3000) || (c =? 0xFEFF))%N.

(** [s.trimStart()] *)
Fixpoint trimStart (s : jsstring) : jsstring :=
  match s with
  | c :: s' => if isWhiteSpace c then trimStart s' else s
  | [] => []
  end.

(** [s.replace] of every [\r] by the empty string *)
Definition remove_CR (s : jsstring) : jsstring :=
  filter (λ c, c ≠ CR) s.

(** Decimal digits of a non-negative integer below 10^21, as template
    literals and string concatenation print it. *)
Definition digits (n : N) : jsstring :=
  lit (NilEmpty.string_of_uint (N.to_uint n)).

End JS.

(** * The stream decoder: records separated by a blank line *)

Module SSE.
Import JS.

(** ["\n\n"] *)
Definition separator : jsstring := [LF; LF].

(** ["data:"] *)
Definition marker : jsstring := lit "data:".

(** chat.js l.284-289:
    [for (const line of lines)
       if (line.startsWith("data:"))
         dataLines.push(line.slice("data:".length).trimStart());] *)
Fixpoint dataLines_of (lines : list jsstring) : list jsstring :=
  match lines with
  | [] => []
  | line :: rest =>
      if startsWith marker line
      then trimStart (slice_from (length marker) line) :: dataLines_of rest
      else dataLines_of rest
  end.

(** chat.js l.283-291, what one raw record contributes: [None] when
    [dataLines.length === 0] (the [continue]), else
    [dataLines.join("\n")]. *)
Definition payload_of (rawEvent : jsstring) : option jsstring :=
  let lines := split LF rawEvent in
  let dataLines := dataLines_of lines in
  match dataLines with
  | [] => None
  | _ => Some (join [LF] dataLines)
  end.

(** The [while ((eventEndIndex = normalized.indexOf("\n\n")) !== -1)] loop
    of [consumeSseEvents] (l.279-292).  [consumeBuffer] (l.458-479),
    [flushBuffer] (l.585-608) and [flushBuffer2] (l.682-705) repeat it
    with another action on each payload: the action is [on_event], the
    loop returns the state it built and the unmatched rest. *)
Section loop.
Context {A : Type} (on_event : A → jsstring → A).

Equations? loop (normalized : jsstring) (acc : A) : A * jsstring
    by wf (length normalized) lt :=
  loop normalized acc with inspect (indexOf separator normalized) := {
    | exist _ None _ => (acc, normalized)
    | exist _ (Some eventEndIndex) _ =>
        let rawEvent := slice_to eventEndIndex normalized in
        loop (slice_from (eventEndIndex + 2) normalized)
          (match payload_of rawEvent with
           | None => acc
           | Some payload => on_event acc payload
           end) }.
Proof.
  unfold slice_from. rewrite length_drop.
  destruct normalized; [discriminate | simpl; lia].
Qed.

End loop.

Record decoded := { events : list jsstring; buffer : jsstring }.

(** chat.js l.275-294 *)
Definition consumeSseEvents (buffer : jsstring) : decoded :=
  let normalized := remove_CR buffer in
  let '(events, normalized) :=
    loop (λ events payload, events ++ [payload]) normalized [] in
  {| events := events; buffer := normalized |}.

(** The payloads of a normalised text, in order, and the text left over. *)
Definition payloads (normalized : jsstring) : list jsstring :=
  fst (loop (λ events payload, events ++ [payload]) normalized []).

Definition residual (normalized : jsstring) : jsstring :=
  snd (loop (λ events payload, events ++ [payload]) normalized []).

End SSE.

(** * [TextDecoder]: streaming UTF-8 decoding

    [new TextDecoder()] and [decoder.decode(value, { stream: true })], after
    the UTF-8 decoder of the WHATWG Encoding Standard: one handler call per
    byte, malformed sequences replaced by U+FFFD, an incomplete sequence at
    the end of a chunk kept in the decoder for the next call, one leading
    byte order mark dropped. *)

Module TextDecoder.
Import JS.
Local Open Scope N_scope.

Record t := {
  code_point : N;
  bytes_seen : N;
  bytes_needed : N;
  lower_boundary : N;
  upper_boundary : N;
  BOM_seen : bool;
}.

(** [new TextDecoder()] *)
Definition new : t :=
  {| code_point := 0; bytes_seen := 0; bytes_needed := 0;
     lower_boundary := 0x80; upper_boundary := 0xBF; BOM_seen := false |}.

Definition REPLACEMENT : N := 0xFFFD.

Definition expect (d : t) (needed cp lower upper : N) : t :=
  {| code_point := cp; bytes_seen := 0; bytes_needed := needed;
     lower_boundary := lower; upper_boundary := upper;
     BOM_seen := BOM_seen d |}.

Definition reset (d : t) : t := expect d 0 0 0x80 0xBF.

(** The handler when no continuation byte is awaited: the code points it
    returns (U+FFFD for an error) and the next state. *)
Definition lead (d : t) (byte : N) : t * list N :=
  if byte <=? 0x7F then (d, [byte])
  else if (0xC2 <=? byte) && (byte <=? 0xDF)
  then (expect d 1 (N.land byte 0x1F) 0x80 0xBF, [])
  else if (0xE0 <=? byte) && (byte <=? 0xEF)
  then (expect d 2 (N.land byte 0xF)
          (if byte =? 0xE0 then 0xA0 else 0x80)
          (if byte =? 0xED then 0x9F else 0xBF), [])
  else if (0xF0 <=? byte) && (byte <=? 0xF4)
  then (expect d 3 (N.land byte 0x7)
          (if byte =? 0xF0 then 0x90 else 0x80)
          (if byte =? 0xF4 then 0x8F else 0xBF), [])
  else (d, [REPLACEMENT]).

(** The UTF-8 decoder's handler on one byte. *)
Definition handler (d : t) (byte : N) : t * list N :=
  if bytes_needed d =? 0 then lead d byte
  else if (byte <? lower_boundary d) || (upper_boundary d <? byte)
  then (* error, and the byte is read again by the reset decoder *)
    let '(d', out) := lead (reset d) byte in (d', REPLACEMENT :: out)
  else
    let cp := N.lor (N.shiftl (code_point d) 6) (N.land byte 0x3F) in
    let seen := bytes_seen d + 1 in
    if seen =? bytes_needed d then (reset d, [cp])
    else ({| code_point := cp; bytes_seen := seen;
             bytes_needed := bytes_needed d;
             lower_boundary := 0x80; upper_boundary := 0xBF;
             BOM_seen := BOM_seen d |}, []).

(** A scalar value as UTF-16 code units. *)
Definition code_units (cp : N) : jsstring :=
  if cp <? 0x10000 then [cp]
  else [0xD800 + (cp - 0x10000) / 0x400; 0xDC00 + (cp - 0x10000) mod 0x400].

(** Serialising decoded code points: the first one is dropped when it is
    the byte order mark. *)
Fixpoint serialize (seen : bool) (cps : list N) : bool * jsstring :=
  match cps with
  | [] => (seen, [])
  | cp :: rest =>
      let '(seen', out) := serialize true rest in
      (seen', (if negb seen && (cp =? 0xFEFF) then [] else code_units cp) ++ out)
  end.

Definition push (d : t) (byte : Byte.byte) : t * jsstring :=
  let '(d', cps) := handler d (Byte.to_N byte) in
  let '(seen, out) := serialize (BOM_seen d') cps in
  ({| code_point := code_point d'; bytes_seen := bytes_seen d';
      bytes_needed := bytes_needed d';
      lower_boundary := lower_boundary d';
      upper_boundary := upper_boundary d'; BOM_seen := seen |}, out).

(** [decoder.decode(value, { stream: true })] *)
Fixpoint decode (d : t) (value : list Byte.byte) : t * jsstring :=
  match value with
  | [] => (d, [])
  | byte :: rest =>
      let '(d1, out1) := push d byte in
      let '(d2, out2) := decode d1 rest in
      (d2, out1 ++ out2)
  end.

End TextDecoder.

(** * The read loop around the decoder *)

Module Reader.
Import JS.

(** One chunk of a byte stream, a [Uint8Array]. *)
Abbreviation chunk := (list Byte.byte).

(** The body of [consumeBuffer] / [flushBuffer]: normalise, run the loop,
    keep the rest as the new buffer. *)
Definition consume {A} (on_event : A → jsstring → A)
    (buffer : jsstring) (acc : A) : A * jsstring :=
  SSE.loop on_event (remove_CR buffer) acc.

(** chat.js l.483-492 (and l.612-621, l.709-718):
    [while (true) { const { done, value } = await reader.read();
       if (done) { buffer += "\n\n"; consumeBuffer(); break; }
       buffer += decoder.decode(value, { stream: true }); consumeBuffer(); }]
    over the chunks the reader still holds. *)
Fixpoint pump {A} (on_event : A → jsstring → A) (reader : list chunk)
    (decoder : TextDecoder.t) (buffer : jsstring) (acc : A) : A :=
  match reader with
  | [] => fst (consume on_event (buffer ++ SSE.separator) acc)
  | value :: reader' =>
      let '(decoder', text) := TextDecoder.decode decoder value in
      let '(acc', buffer') := consume on_event (buffer ++ text) acc in
      pump on_event reader' decoder' buffer' acc'
  end.

(** The Frame Decoder: the payloads of a byte stream, in order. *)
Definition frame_decoder (stream : list chunk) : list jsstring :=
  pump (λ events payload, events ++ [payload]) stream TextDecoder.new [] [].

(** The text a decoder makes of a whole stream. *)
Definition text_of (d : TextDecoder.t) (stream : list chunk) : jsstring :=
  (TextDecoder.decode d (concat stream)).2.

End Reader.

(** * JSON values and the operations the source applies to them *)

Module Json.
Import JS.

(** A value produced by [JSON.parse].  A number is an IEEE 754 binary64
    datum; an object lists its own properties, each key once. *)
Inductive jsval :=
| JNull
| JBool (b : bool)
| JNumber (n : spec_float)
| JString (s : jsstring)
| JArray (elements : list jsval)
| JObject (properties : list (jsstring * jsval)).

Inductive exn :=
| SyntaxError (text : jsstring)      (* JSON.parse on [text] *)
| TypeError                          (* property access on null, call of a non-function *)
| ReferenceError (name : string)     (* an identifier that is not bound *)
| Rejected (reason : jsstring).      (* a rejected promise of the inference binding *)

(** The outcome of an expression that may throw. *)
Inductive completion (A : Type) :=
| Normal (a : A)
| Throw (e : exn).
Arguments Normal {A} a.
Arguments Throw {A} e.

Definition bind {A B} (c : completion A) (k : A → completion B) : completion B :=
  match c with
  | Normal a => k a
  | Throw e => Throw e
  end.

Fixpoint assoc (name : jsstring) (properties : list (jsstring * jsval)) : option jsval :=
  match properties with
  | [] => None
  | (key, v) :: rest => if decide (key = name) then Some v else assoc name rest
  end.

(** [v.name] for a value [v] that is neither null nor undefined and a
    name that is neither an index nor [length]; [None] is [undefined]. *)
Definition get (v : jsval) (name : jsstring) : option jsval :=
  match v with
  | JObject properties => assoc name properties
  | _ => None
  end.

(** [v[0]] for a value [v] that is neither null nor undefined. *)
Definition get0 (v : jsval) : option jsval :=
  match v with
  | JArray elements => head elements
  | JObject properties => assoc (lit "0") properties
  | JString s => (λ c, JString [c]) <$> head s
  | _ => None
  end.

(** [v?.p]: undefined when [v] is null or undefined. *)
Definition optional (v : option jsval) (access : jsval → option jsval) : option jsval :=
  match v with
  | None | Some JNull => None
  | Some x => access x
  end.

Definition is_zero_or_NaN (n : spec_float) : bool :=
  match n with
  | S754_zero _ | S754_nan => true
  | _ => false
  end.

(** The truth value of [v] in [if (v)]. *)
Definition ToBoolean (v : jsval) : bool :=
  match v with
  | JNull => false
  | JBool b => b
  | JNumber n => negb (is_zero_or_NaN n)
  | JString s => match s with [] => false | _ => true end
  | JArray _ | JObject _ => true
  end.

Definition truthy (v : option jsval) : bool :=
  match v with
  | None => false
  | Some x => ToBoolean x
  end.

End Json.

(** * The built-ins the source calls *)

Import JS Json.

Class Platform := {
  (** [String(n)] for a number [n] *)
  Number_toString : spec_float → jsstring;
  (** [JSON.parse(text)]; [None] when it throws a SyntaxError *)
  JSON_parse : jsstring → option jsval;
  (** [JSON.stringify(value)] *)
  JSON_stringify : jsval → jsstring;
}.

(** [env.AI.run(MODEL_ID, { messages, max_tokens: 1024, stream: true })]: the
    byte stream of the reply, chunk by chunk, or a rejection. *)
Class Inference := {
  AI_run : list jsval → completion (list (list Byte.byte));
}.

Module Conversion.
Import JS.
Section conversion.
Context `{Platform}.

(** [text += v] and [`${v}`] throw a TypeError on some values [v] that
    [JSON.parse] builds: an object with an own property [toString] (the
    property is no function, and the conversion does not go on to
    [Object.prototype.toString]), and an array in which [join] meets such
    an object. *)
Fixpoint throws (v : jsval) : bool :=
  match v with
  | JArray elements => existsb throws elements
  | JObject properties =>
      match assoc (lit "toString") properties with Some _ => true | None => false end
  | _ => false
  end.

(** The string [text += v] appends for a value [v] on which the
    conversion does not throw. *)
Fixpoint ToString (v : jsval) : jsstring :=
  match v with
  | JNull => lit "null"
  | JBool true => lit "true"
  | JBool false => lit "false"
  | JNumber n => Number_toString n
  | JString s => s
  | JArray elements =>
      join (lit ",")
        (map (λ x, match x with JNull => [] | _ => ToString x end) elements)
  | JObject _ => lit "[object Object]"
  end.

End conversion.
End Conversion.

(** * Delta extraction: from a decoded payload to a content fragment *)

Module Delta.
Section delta.
Context `{Platform}.
Import Conversion.

(** The terminal sentinel ["[DONE]"]. *)
Definition DONE : jsstring := lit "[DONE]".

(** [json.choices?.[0]?.delta?.content] *)
Definition choices_delta_content (json : jsval) : option jsval :=
  optional
    (optional (optional (get json (lit "choices")) get0)
       (λ choice, get choice (lit "delta")))
    (λ delta, get delta (lit "content")).

(** [typeof json.response === "string" && json.response.length > 0]
    holds exactly when this is some string, which is [json.response]. *)
Definition response_of (json : jsval) : option jsstring :=
  match get json (lit "response") with
  | Some (JString (c :: s)) => Some (c :: s)
  | _ => None
  end.

(** chat.js l.598-600 (and l.695-697), the value of [content] after
    [let content = '';
     if (typeof json.response === "string" && json.response.length > 0)
       content = json.response;
     else if (json.choices?.[0]?.delta?.content)
       content = json.choices[0].delta.content;]
    [json.response] throws when [json] is null. *)
Definition content_of (json : jsval) : completion jsval :=
  match json with
  | JNull => Throw TypeError
  | _ =>
      match response_of json with
      | Some response => Normal (JString response)
      | None =>
          match choices_delta_content json with
          | Some v => Normal (if ToBoolean v then v else JString [])
          | None => Normal (JString [])
          end
      end
  end.

(** A frame the worker sends on the socket,
    [socket.send(JSON.stringify({ type: ..., ... }))]. *)
Inductive frame :=
| Delta (content : jsval)
| Done
| Transcript (content : jsstring)
| Error (e : exn).

(** chat.js l.594-607 (and l.691-704), the action of [flushBuffer] on
    one payload: the reply so far and the frames sent so far.  What is
    thrown ([JSON.parse], [json.response] on null, [assistantText +=
    content]) is caught at l.605, before anything was appended or sent. *)
Definition deliver (st : jsstring * list frame) (payload : jsstring)
  : jsstring * list frame :=
  let '(assistantText, sent) := st in
  if decide (payload = DONE) then st
  else
    match JSON_parse payload with
    | None => st
    | Some json =>
        match content_of json with
        | Throw _ => st
        | Normal content =>
            if ToBoolean content
            then
              if throws content then st
              else (assistantText ++ ToString content, sent ++ [Delta content])
            else st
        end
    end.

(** The fragment a payload yields, if any: the [content] of l.598-600
    when the payload is not the sentinel, parses, [if (content)] holds and
    [assistantText += content] does not throw. *)
Definition fragment_of (payload : jsstring) : option jsval :=
  if decide (payload = DONE) then None
  else
    match JSON_parse payload with
    | None => None
    | Some json =>
        match content_of json with
        | Throw _ => None
        | Normal content =>
            if ToBoolean content && negb (throws content) then Some content else None
        end
    end.

(** chat.js l.467-478, the action of [consumeBuffer] on one payload. *)
Definition accumulate (assistantText : jsstring) (data : jsstring) : jsstring :=
  if decide (data = DONE) then assistantText
  else
    match JSON_parse data with
    | None | Some JNull => assistantText
    | Some json =>
        match response_of json with
        | Some response => assistantText ++ response
        | None =>
            match choices_delta_content json with
            | Some v =>
                if ToBoolean v && negb (throws v) then assistantText ++ ToString v
                else assistantText
            | None => assistantText
            end
        end
    end.

(** [flushBuffer] on a buffer: the new reply, the frames sent, the rest. *)
Definition flushBuffer (buffer assistantText : jsstring)
  : (jsstring * list frame) * jsstring :=
  Reader.consume deliver buffer (assistantText, []).

(** [consumeBuffer] on a buffer: the new reply and the rest. *)
Definition consumeBuffer (buffer assistantText : jsstring) : jsstring * jsstring :=
  Reader.consume accumulate buffer assistantText.

End delta.
End Delta.

(** * The per-session message log: [ConversationDO] *)

Module ConversationDO.

(** [this.state.storage]: the arrays stored under each key. *)
Abbreviation storage := (gmap string (list jsval)).

Section durable_object.
Context `{Platform}.

Record Request := {
  method : string;
  pathname : string;
  body : jsstring;
}.

(** A response: its status and its body text, [None] for a null body. *)
Record Response := {
  status : N;
  text : option jsstring;
}.

(** [res.ok] *)
Definition ok (res : Response) : bool :=
  ((200 <=? status res) && (status res <=? 299))%N.

(** The requests the worker sends. *)
Definition POST_append (body : jsstring) : Request :=
  {| method := "POST"; pathname := "/append"; body := body |}.

Definition GET_messages : Request :=
  {| method := "GET"; pathname := "/messages"; body := [] |}.

Definition DELETE_clear : Request :=
  {| method := "DELETE"; pathname := "/clear"; body := [] |}.

(** [(await this.state.storage.get("messages")) || []] *)
Definition stored_messages (st : storage) : list jsval :=
  default [] (st !! "messages"%string).

(** conversation_do.ts l.12-45.  The storage calls do not fail here, so
    the outer [catch] (status 500) is never entered. *)
Definition fetch (st : storage) (request : Request) : storage * Response :=
  if bool_decide (method request = "GET"%string)
     && bool_decide (pathname request = "/messages"%string)
  then
    let msgs := stored_messages st in
    (st, {| status := 200; text := Some (JSON_stringify (JArray msgs)) |})
  else if bool_decide (method request = "POST"%string)
          && bool_decide (pathname request = "/append"%string)
  then
    match body request with
    | [] => (st, {| status := 400; text := Some (lit "Missing body") |})
    | _ =>
        match JSON_parse (body request) with
        | None => (st, {| status := 400; text := Some (lit "Invalid JSON") |})
        | Some msg =>
            let msgs := stored_messages st in
            (<["messages"%string := msgs ++ [msg]]> st,
             {| status := 204; text := None |})
        end
    end
  else if bool_decide (method request = "DELETE"%string)
          && bool_decide (pathname request = "/clear"%string)
  then (delete "messages"%string st, {| status := 204; text := None |})
  else (st, {| status := 404; text := Some (lit "Not found") |}).

End durable_object.
End ConversationDO.

(** * The worker: [handleChatRequest] and [handleRealtime] *)

Module Worker.
Import Conversion Delta ConversationDO.
Section worker.
Context `{Platform} `{Inference}.

Definition SYSTEM_PROMPT : jsstring :=
  lit "You are a helpful, friendly assistant. Provide concise and accurate responses.".

(** The object [{ role, content }] as [JSON.stringify] sees it: a
    [content] that is [undefined] is left out. *)
Definition message (role : jsstring) (content : option jsval) : jsval :=
  JObject ((lit "role", JString role)
           :: match content with
              | Some c => [(lit "content", c)]
              | None => []
              end).

Definition system_message : jsval :=
  message (lit "system") (Some (JString SYSTEM_PROMPT)).

(** [m.role === role]; it throws on a null element. *)
Definition has_role (role : jsstring) (m : jsval) : completion bool :=
  match m with
  | JNull => Throw TypeError
  | _ =>
      Normal match get m (lit "role") with
             | Some (JString r) => bool_decide (r = role)
             | _ => false
             end
  end.

(** [messages.some((msg) => msg.role === "system")] *)
Fixpoint some_system (messages : list jsval) : completion bool :=
  match messages with
  | [] => Normal false
  | msg :: rest =>
      bind (has_role (lit "system") msg)
        (λ found, if found then Normal true else some_system rest)
  end.

(** chat.js l.427-429 (and l.397-399, l.571-573, l.669-671):
    [if (!messages.some(...)) messages.unshift({ role: "system", ... })] *)
Definition ensure_system_prompt (messages : list jsval)
  : completion (list jsval) :=
  bind (some_system messages)
    (λ found, Normal (if found then messages else system_message :: messages)).

(** [messages.filter((m) => m.role === "user")] *)
Fixpoint filter_user (messages : list jsval) : completion (list jsval) :=
  match messages with
  | [] => Normal []
  | m :: rest =>
      bind (has_role (lit "user") m)
        (λ keep, bind (filter_user rest)
           (λ kept, Normal (if keep then m :: kept else kept)))
  end.

(** A value used as an array: [.some] and [.filter] exist on arrays only. *)
Definition as_array (v : jsval) : completion (list jsval) :=
  match v with
  | JArray elements => Normal elements
  | _ => Throw TypeError
  end.

(** [await res.json()] *)
Definition json_of (res : Response) : completion jsval :=
  match JSON_parse (default [] (text res)) with
  | Some v => Normal v
  | None => Throw (SyntaxError (default [] (text res)))
  end.

(** chat.js l.420-429 (and l.568-573, l.666-671): the canonical
    history read back from the response of [GET /messages]. *)
Definition canonical_messages (messagesRes : Response)
  : completion (list jsval) :=
  bind (if ok messagesRes then bind (json_of messagesRes) as_array
        else Normal [])
    ensure_system_prompt.

(** [doStub.fetch("https://do/append", { method: "POST", body: JSON.stringify(msg) })];
    the response is not looked at. *)
Definition append_to (st : storage) (msg : jsval) : storage :=
  fst (fetch st (POST_append (JSON_stringify msg))).

(** [doStub.fetch("https://do/messages")] *)
Definition messages_of (st : storage) : Response :=
  snd (fetch st GET_messages).

(** A value that survives the way to and from the Durable Object: its
    JSON text is not empty and parses back to it. *)
Definition round_trips (v : jsval) : Prop :=
  JSON_stringify v ≠ [] ∧ JSON_parse (JSON_stringify v) = Some v.

(** What a handler does that the outside sees: a frame sent on the
    socket, a call of the inference binding with its [messages], a message
    posted to the Durable Object's [/append]. *)
Inductive event :=
| Sent (f : frame)
| AiRun (messages : list jsval)
| Appended (msg : jsval).

(** The session a handler works on: its Durable Object, and what the
    worker has done so far, oldest first. *)
Record session := {
  DO : storage;
  trace : list event;
}.

Definition record (w : session) (events : list event) : session :=
  {| DO := DO w; trace := trace w ++ events |}.

(** [socket.send(JSON.stringify(f))] *)
Definition send (w : session) (f : frame) : session := record w [Sent f].

(** [await doStub.fetch("https://do/append", ...)] with [msg] as body. *)
Definition append (w : session) (msg : jsval) : session :=
  {| DO := append_to (DO w) msg; trace := trace w ++ [Appended msg] |}.

(** The messages with role [system] in a history. *)
Definition is_system (m : jsval) : bool :=
  match get m (lit "role") with
  | Some (JString r) => bool_decide (r = lit "system")
  | _ => false
  end.

Definition system_count (messages : list jsval) : nat :=
  length (List.filter is_system messages).

(** ** The pull transport, [POST /api/chat] *)

(** chat.js l.392-394: [const { messages = [] } = await request.json()] *)
Definition request_messages (requestBody : jsstring) : completion jsval :=
  match JSON_parse requestBody with
  | None => Throw (SyntaxError requestBody)
  | Some JNull => Throw TypeError
  | Some v => Normal (default (JArray []) (get v (lit "messages")))
  end.

(** chat.js l.447-505, the background task on the second branch of the
    tee. *)
Definition accumulateAndPersist (w : session)
    (backgroundStream : list Reader.chunk) : session :=
  let assistantText :=
    Reader.pump accumulate backgroundStream TextDecoder.new [] [] in
  match assistantText with
  | [] => w
  | _ => append w (message (lit "assistant") (Some (JString assistantText)))
  end.

(** The response of the [catch] block, l.516-524. *)
Definition failure : Response :=
  {| status := 500;
     text := Some (JSON_stringify
                     (JObject [(lit "error",
                                JString (lit "Failed to process request"))])) |}.

(** chat.js l.392-417, up to the append of the latest user message:
    [lastUser = messages.filter((m) => m.role === "user").slice(-1)[0]]. *)
Definition append_last_user (w : session) (requestBody : jsstring)
  : completion session :=
  bind (request_messages requestBody)
    (λ v, bind (as_array v)
       (λ messages, bind (ensure_system_prompt messages)
          (λ messages, bind (filter_user messages)
             (λ users,
                Normal match last users with
                       | Some lastUser =>
                           if ToBoolean lastUser then append w lastUser else w
                       | None => w
                       end)))).

(** chat.js l.507, [ctx.waitUntil(accumulateAndPersist())].  The handler
    is declared as [handleChatRequest(request, env)] and no [ctx] is bound
    in its scope or in the module's: evaluating the callee throws a
    ReferenceError, before the argument, the call of the background task,
    is evaluated. *)
Definition ctx_waitUntil (task : session → session)
  : completion (session → session) :=
  Throw (ReferenceError "ctx").

(** chat.js l.509-515, the response that carries the client branch of
    the tee as its body. *)
Definition streamed (clientStream : list Reader.chunk) : Response :=
  {| status := 200;
     text := Some (Reader.text_of TextDecoder.new clientStream) |}.

(** chat.js l.386-526.  Whatever is thrown is caught by the [catch] block
    of l.516-525, which answers with [failure]. *)
Definition handleChatRequest (w : session) (requestBody : jsstring)
  : session * Response :=
  match append_last_user w requestBody with
  | Throw _ => (w, failure)
  | Normal w =>
      let messagesRes := messages_of (DO w) in
      match canonical_messages messagesRes with
      | Throw _ => (w, failure)
      | Normal canonicalMessages =>
          let w := record w [AiRun canonicalMessages] in
          match AI_run canonicalMessages with
          | Throw _ => (w, failure)
          | Normal aiStream =>
              (* [const [clientStream, backgroundStream] = aiStream.tee()] *)
              match ctx_waitUntil (λ w, accumulateAndPersist w aiStream) with
              | Throw _ => (w, failure)
              | Normal background => (background w, streamed aiStream)
              end
          end
      end
  end.

(** ** The duplex transport, [handleRealtime] *)

(** [ev.data] of a [message] event: an [ArrayBuffer] or a string. *)
Inductive data :=
| Binary (buf : list Byte.byte)
| Text (s : jsstring).

(** chat.js l.637-644: [totalLen] and [combined]; the source computes
    [combined] and does not use it (l.646). *)
Definition totalLen_of (audioBuffers : list (list Byte.byte)) : N :=
  foldl (λ totalLen b, totalLen + N.of_nat (length b))%N 0%N audioBuffers.

Definition combined_of (audioBuffers : list (list Byte.byte)) : list Byte.byte :=
  foldl (λ combined b, combined ++ b) [] audioBuffers.

(** chat.js l.648 *)
Definition placeholder_of (totalLen : N) : jsstring :=
  lit "[Audio received " ++ digits totalLen
    ++ lit " bytes] (transcription not configured)".

(** chat.js l.623-630 (and l.720-727) *)
Definition persist (w : session) (assistantText : jsstring) : session :=
  match assistantText with
  | [] => w
  | _ => append w (message (lit "assistant") (Some (JString assistantText)))
  end.

(** chat.js l.577-632 (and l.674-730), when no other listener runs in
    between: read the stream to its end, then persist and send [done]. *)
Definition stream_reply (w : session) (aiStream : list Reader.chunk) : session :=
  let '(assistantText, sent) :=
    Reader.pump deliver aiStream TextDecoder.new [] ([], []) in
  send (persist (record w (map Sent sent)) assistantText) Done.

(** chat.js l.568-632 (and l.666-736): one run of the Turn Pipeline.
    Whatever is thrown is answered by an [error] frame (l.738-743,
    l.731-736). *)
Definition turn (w : session) : session :=
  match canonical_messages (messages_of (DO w)) with
  | Throw e => send w (Error e)
  | Normal canonicalMessages =>
      let w := record w [AiRun canonicalMessages] in
      match AI_run canonicalMessages with
      | Throw e => send w (Error e)
      | Normal aiStream => stream_reply w aiStream
      end
  end.

(** What the listener invocations of one connection share: the session
    and the [audioBuffers] of l.541. *)
Record world := {
  session_of : session;
  audioBuffers : list (list Byte.byte);
}.

(** chat.js l.543-744: the listener on one frame, run to its end before
    the next frame is looked at. *)
Definition handle (w : world) (d : data) : world :=
  match d with
  | Binary buf =>
      {| session_of := session_of w; audioBuffers := audioBuffers w ++ [buf] |}
  | Text s =>
      match JSON_parse s with
      | None =>
          {| session_of := send (session_of w) (Error (SyntaxError s));
             audioBuffers := audioBuffers w |}
      | Some data =>
          if negb (ToBoolean data) then w
          else
            match get data (lit "type") with
            | Some (JString type) =>
                if decide (type = lit "user_message") then
                  {| session_of :=
                       turn (append (session_of w)
                               (message (lit "user") (get data (lit "content"))));
                     audioBuffers := audioBuffers w |}
                else if decide (type = lit "audio_end") then
                  let totalLen := totalLen_of (audioBuffers w) in
                  let placeholder := placeholder_of totalLen in
                  let s := append (session_of w)
                             (message (lit "user") (Some (JString placeholder))) in
                  let s := send s (Transcript placeholder) in
                  {| session_of := turn s; audioBuffers := [] |}
                else w
            | _ => w
            end
      end
  end.

(** The frames of a connection, handled one after the other. *)
Definition handle_all (w : world) (frames : list data) : world :=
  foldl handle w frames.

(** ** The listener as it is scheduled

    The listener is an [async] function: it runs until its next [await],
    and other [message] events are dispatched while it is suspended.  A
    [task] is a suspended invocation, named after the [await] it stopped
    at; a request to the Durable Object or to the inference binding takes
    effect when it is issued. *)
Inductive task :=
| AwaitAppend                                          (* l.561 *)
| AwaitTranscriptAppend (placeholder : jsstring)       (* l.651 *)
| AwaitMessages (messagesRes : Response)               (* l.568, l.666 *)
| AwaitRun (aiStream : completion (list Reader.chunk)) (* l.576, l.673 *)
| AwaitRead (reader : list Reader.chunk) (decoder : TextDecoder.t)
    (buffer assistantText : jsstring)                  (* l.613, l.710 *)
| AwaitPersist.                                        (* l.625, l.722 *)

(** From the arrival of a frame to the first [await]. *)
Definition on_message (w : world) (d : data) : world * option task :=
  match d with
  | Binary buf =>
      ({| session_of := session_of w; audioBuffers := audioBuffers w ++ [buf] |},
       None)
  | Text s =>
      match JSON_parse s with
      | None =>
          ({| session_of := send (session_of w) (Error (SyntaxError s));
              audioBuffers := audioBuffers w |}, None)
      | Some data =>
          if negb (ToBoolean data) then (w, None)
          else
            match get data (lit "type") with
            | Some (JString type) =>
                if decide (type = lit "user_message") then
                  ({| session_of :=
                        append (session_of w)
                          (message (lit "user") (get data (lit "content")));
                      audioBuffers := audioBuffers w |},
                   Some AwaitAppend)
                else if decide (type = lit "audio_end") then
                  let totalLen := totalLen_of (audioBuffers w) in
                  let placeholder := placeholder_of totalLen in
                  ({| session_of :=
                        append (session_of w)
                          (message (lit "user") (Some (JString placeholder)));
                      audioBuffers := audioBuffers w |},
                   Some (AwaitTranscriptAppend placeholder))
                else (w, None)
            | _ => (w, None)
            end
      end
  end.

(** From one [await] of the Turn Pipeline to the next; [None] when the
    invocation returns. *)
Definition continue (w : session) (t : task) : session * option task :=
  match t with
  | AwaitAppend => (w, Some (AwaitMessages (messages_of (DO w))))
  | AwaitTranscriptAppend placeholder =>
      let w := send w (Transcript placeholder) in
      (w, Some (AwaitMessages (messages_of (DO w))))
  | AwaitMessages messagesRes =>
      match canonical_messages messagesRes with
      | Throw e => (send w (Error e), None)
      | Normal canonicalMessages =>
          (record w [AiRun canonicalMessages],
           Some (AwaitRun (AI_run canonicalMessages)))
      end
  | AwaitRun (Throw e) => (send w (Error e), None)
  | AwaitRun (Normal aiStream) =>
      (w, Some (AwaitRead aiStream TextDecoder.new [] []))
  | AwaitRead (value :: reader) decoder buffer assistantText =>
      let '(decoder, text) := TextDecoder.decode decoder value in
      let '((assistantText, sent), buffer) :=
        flushBuffer (buffer ++ text) assistantText in
      (record w (map Sent sent),
       Some (AwaitRead reader decoder buffer assistantText))
  | AwaitRead [] decoder buffer assistantText =>
      let '((assistantText, sent), buffer) :=
        flushBuffer (buffer ++ SSE.separator) assistantText in
      let w := record w (map Sent sent) in
      match assistantText with
      | [] => (send w Done, None)
      | _ => (persist w assistantText, Some AwaitPersist)
      end
  | AwaitPersist => (send w Done, None)
  end.

(** The same on the state of the connection: l.661, [audioBuffers.length = 0],
    runs when the append of the transcript has settled. *)
Definition resume (w : world) (t : task) : world * option task :=
  let '(s, t') := continue (session_of w) t in
  ({| session_of := s;
      audioBuffers := match t with
                      | AwaitTranscriptAppend _ => []
                      | _ => audioBuffers w
                      end |}, t').

(** A connection: the shared state and the suspended invocations. *)
Record conn := {
  shared : world;
  tasks : list task;
}.

Inductive label :=
| Arrive (d : data)      (* a [message] event is dispatched *)
| Resume (i : nat).      (* the awaited promise of task [i] settles *)

Definition step (c : conn) (l : label) : conn :=
  match l with
  | Arrive d =>
      let '(w, t) := on_message (shared c) d in
      {| shared := w; tasks := tasks c ++ option_list t |}
  | Resume i =>
      match tasks c !! i with
      | None => c
      | Some t =>
          let '(w, t') := resume (shared c) t in
          {| shared := w;
             tasks := match t' with
                      | Some t' => <[i := t']> (tasks c)
                      | None => delete i (tasks c)
                      end |}
      end
  end.

Definition run (c : conn) (schedule : list label) : conn :=
  foldl step c schedule.

Definition is_AiRun (e : event) : bool :=
  match e with AiRun _ => true | _ => false end.

(** A turn ends with a [done] frame, or with an [error] frame. *)
Definition is_end (e : event) : bool :=
  match e with Sent Done | Sent (Error _) => true | _ => false end.

(** The number of inference calls started and of turns ended. *)
Definition started (tr : list event) : nat := length (List.filter is_AiRun tr).
Definition ended (tr : list event) : nat := length (List.filter is_end tr).

End worker.
End Worker.



(** * An instance of the built-ins, to run the model on concrete inputs

    [JSON.parse] and [JSON.stringify] on the JSON texts whose numbers are
    integers written without fraction and exponent, and an inference
    binding that answers with a given stream.  The theorems below hold for
    every instance; this one evaluates them. *)

Module Example.
Local Open Scope N_scope.

Fixpoint skip_ws (s : jsstring) : jsstring :=
  match s with
  | c :: s' =>
      if (c =? 32) || (c =? 9) || (c =? 10) || (c =? 13) then skip_ws s' else s
  | [] => []
  end.

Definition hex (c : N) : option N :=
  if (48 <=? c) && (c <=? 57) then Some (c - 48)
  else if (97 <=? c) && (c <=? 102) then Some (c - 87)
  else if (65 <=? c) && (c <=? 70) then Some (c - 55)
  else None.

Definition unescape (c : N) : option N :=
  if c =? 34 then Some 34 else if c =? 92 then Some 92
  else if c =? 47 then Some 47 else if c =? 98 then Some 8
  else if c =? 102 then Some 12 else if c =? 110 then Some 10
  else if c =? 114 then Some 13 else if c =? 116 then Some 9
  else None.

(** The characters of a string after its opening quote, and what follows
    the closing quote. *)
Fixpoint parse_chars (s : jsstring) : option (jsstring * jsstring) :=
  match s with
  | [] => None
  | c :: rest =>
      if c =? 34 then Some ([], rest)
      else if c <? 32 then None
      else if c =? 92 then
        match rest with
        | e :: rest' =>
            match unescape e with
            | Some u =>
                '(cs, after) ← parse_chars rest'; Some (u :: cs, after)
            | None =>
                if e =? 117 then
                  match rest' with
                  | h1 :: h2 :: h3 :: h4 :: rest'' =>
                      a ← hex h1; b ← hex h2; c ← hex h3; d ← hex h4;
                      '(cs, after) ← parse_chars rest'';
                      Some (((a * 16 + b) * 16 + c) * 16 + d :: cs, after)
                  | _ => None
                  end
                else None
            end
        | [] => None
        end
      else '(cs, after) ← parse_chars rest; Some (c :: cs, after)
  end.

Fixpoint take_digits (s : jsstring) : list N * jsstring :=
  match s with
  | c :: s' =>
      if (48 <=? c) && (c <=? 57)
      then let '(ds, rest) := take_digits s' in (c - 48 :: ds, rest)
      else ([], s)
  | [] => ([], [])
  end.

Definition number_of (negative : bool) (magnitude : N) : spec_float :=
  match magnitude with
  | 0 => S754_zero negative
  | _ => binary_normalize 53 1024
           (if negative then - Z.of_N magnitude else Z.of_N magnitude)%Z 0 false
  end.

Definition parse_number (s : jsstring) : option (jsval * jsstring) :=
  let '(negative, s) := match s with 45 :: s' => (true, s') | _ => (false, s) end in
  let '(ds, rest) := take_digits s in
  match ds, rest with
  | [], _ => None
  | 0 :: _ :: _, _ => None
  | _, c :: _ =>
      if (c =? 46) || (c =? 101) || (c =? 69) then None
      else Some (JNumber (number_of negative (foldl (λ n d, n * 10 + d) 0 ds)), rest)
  | _, [] => Some (JNumber (number_of negative (foldl (λ n d, n * 10 + d) 0 ds)), rest)
  end.

(** [object[key] = v] while an object literal is read: a repeated key
    keeps its place and takes the later value. *)
Fixpoint set_property (key : jsstring) (v : jsval)
    (properties : list (jsstring * jsval)) : list (jsstring * jsval) :=
  match properties with
  | [] => [(key, v)]
  | (k, w) :: rest =>
      if decide (k = key) then (k, v) :: rest
      else (k, w) :: set_property key v rest
  end.

Fixpoint parse_value (fuel : nat) (s : jsstring) : option (jsval * jsstring) :=
  match fuel with
  | O => None
  | S fuel =>
      match skip_ws s with
      | [] => None
      | c :: rest =>
          if c =? 123 then
            match skip_ws rest with
            | 125 :: after => Some (JObject [], after)
            | _ => parse_members fuel rest []
            end
          else if c =? 91 then
            match skip_ws rest with
            | 93 :: after => Some (JArray [], after)
            | _ => parse_elements fuel rest []
            end
          else if c =? 34 then
            '(cs, after) ← parse_chars rest; Some (JString cs, after)
          else if startsWith (lit "true") (c :: rest)
          then Some (JBool true, drop 4 (c :: rest))
          else if startsWith (lit "false") (c :: rest)
          then Some (JBool false, drop 5 (c :: rest))
          else if startsWith (lit "null") (c :: rest)
          then Some (JNull, drop 4 (c :: rest))
          else parse_number (c :: rest)
      end
  end
with parse_elements (fuel : nat) (s : jsstring) (elements : list jsval)
  : option (jsval * jsstring) :=
  match fuel with
  | O => None
  | S fuel =>
      '(v, rest) ← parse_value fuel s;
      match skip_ws rest with
      | 44 :: rest' => parse_elements fuel rest' (elements ++ [v])
      | 93 :: after => Some (JArray (elements ++ [v]), after)
      | _ => None
      end
  end
with parse_members (fuel : nat) (s : jsstring) (properties : list (jsstring * jsval))
  : option (jsval * jsstring) :=
  match fuel with
  | O => None
  | S fuel =>
      match skip_ws s with
      | 34 :: rest =>
          '(key, rest) ← parse_chars rest;
          match skip_ws rest with
          | 58 :: rest =>
              '(v, rest) ← parse_value fuel rest;
              match skip_ws rest with
              | 44 :: rest' => parse_members fuel rest' (set_property key v properties)
              | 125 :: after => Some (JObject (set_property key v properties), after)
              | _ => None
              end
          | _ => None
          end
      | _ => None
      end
  end.

Definition parse (text : jsstring) : option jsval :=
  '(v, rest) ← parse_value (2 * length text + 2) text;
  match skip_ws rest with
  | [] => Some v
  | _ => None
  end.

(** The integer a number is, when it is one. *)
Definition integer_of (n : spec_float) : option Z :=
  match n with
  | S754_zero _ => Some 0%Z
  | S754_finite s m e =>
      let z := (if s then Z.neg m else Z.pos m) in
      if (0 <=? e)%Z then Some (z * 2 ^ e)%Z
      else if (Z.pos m mod 2 ^ (- e) =? 0)%Z then Some (z / 2 ^ (- e))%Z
      else None
  | _ => None
  end.

Definition number_text (n : spec_float) : jsstring :=
  match integer_of n with
  | Some z => (if (z <? 0)%Z then lit "-" else []) ++ digits (Z.abs_N z)
  | None => lit "NaN"
  end.

Definition hex_digit (n : N) : N := if n <? 10 then 48 + n else 87 + n.

Fixpoint quote_chars (s : jsstring) : jsstring :=
  match s with
  | [] => []
  | c :: rest =>
      (if c =? 34 then [92; 34] else if c =? 92 then [92; 92]
       else if c =? 8 then [92; 98] else if c =? 12 then [92; 102]
       else if c =? 10 then [92; 110] else if c =? 13 then [92; 114]
       else if c =? 9 then [92; 116]
       else if c <? 32 then [92; 117; 48; 48; hex_digit (c / 16); hex_digit (c mod 16)]
       else [c]) ++ quote_chars rest
  end.

Definition quote (s : jsstring) : jsstring := [34] ++ quote_chars s ++ [34].

Fixpoint stringify (v : jsval) : jsstring :=
  match v with
  | JNull => lit "null"
  | JBool true => lit "true"
  | JBool false => lit "false"
  | JNumber n => match integer_of n with Some _ => number_text n | None => lit "null" end
  | JString s => quote s
  | JArray elements => [91] ++ join [44] (map stringify elements) ++ [93]
  | JObject properties =>
      [123]
      ++ join [44] (map (λ p, match p with
                              | (key, w) => quote key ++ [58] ++ stringify w
                              end) properties)
      ++ [125]
  end.

Definition platform : Platform :=
  {| Number_toString := number_text;
     JSON_parse := parse;
     JSON_stringify := stringify |}.

(** An inference binding that answers every call with [stream]. *)
Definition answering (stream : list (list Byte.byte)) : Inference :=
  {| AI_run := λ _, Normal stream |}.

(** The bytes with the given values (below 256). *)
Definition bytes_of (s : list N) : list Byte.byte := omap Byte.of_N s.

(** The inputs of the scenarios. *)
Definition user (content : string) : jsval :=
  Worker.message (lit "user") (Some (JString (lit content))).

Definition system (content : string) : jsval :=
  Worker.message (lit "system") (Some (JString (lit content))).

Definition assistant (content : string) : jsval :=
  Worker.message (lit "assistant") (Some (JString (lit content))).

(** [{"type":"user_message","content":"Hi"}] *)
Definition user_message_Hi : jsstring :=
  json_text "{'type':'user_message','content':'Hi'}".

Definition audio_end : jsstring := json_text "{'type':'audio_end'}".

(** A reply in two chunks, the second event cut inside its [data:] line. *)
Definition hello_stream : list (list Byte.byte) :=
  [bytes_of (json_text "data: {'response':'Hel'}" ++ [LF; LF] ++ json_text "data: {'resp");
   bytes_of (json_text "onse':'lo'}" ++ [LF; LF] ++ lit "data: [DONE]" ++ [LF; LF])].

(** A session whose log holds [messages]. *)
Definition session_with (messages : list jsval) : Worker.session :=
  {| Worker.DO := {["messages"%string := messages]}; Worker.trace := [] |}.

Definition fresh_session : Worker.session :=
  {| Worker.DO := ∅; Worker.trace := [] |}.

Definition connection (w : Worker.session) : Worker.world :=
  {| Worker.session_of := w; Worker.audioBuffers := [] |}.

End Example.

(** * The behaviour the specification words differently *)

Module Spec.

(** The contribution of a data line as the specification words it: the
    marker removed, and at most one space after it. *)
Definition data_line_payload (line : jsstring) : jsstring :=
  match slice_from (length SSE.marker) line with
  | 32%N :: rest => rest
  | rest => rest
  end.

(** The Delta Extractor as the specification words it: the fragment, if
    any, and whether the end of the stream is signalled. *)
Definition delta_extractor `{Platform} (payload : jsstring) : option jsval * bool :=
  if decide (payload = Delta.DONE) then (None, true)
  else
    match JSON_parse payload with
    | None => (None, false)
    | Some json =>
        match Delta.response_of json with
        | Some response => (Some (JString response), false)
        | None => (Delta.choices_delta_content json, false)
        end
    end.

(** The fragments it gives on a sequence of payloads, up to the end of the
    stream. *)
Fixpoint fragments `{Platform} (payloads : list jsstring) : list jsval :=
  match payloads with
  | [] => []
  | payload :: rest =>
      match delta_extractor payload with
      | (_, true) => []
      | (Some fragment, false) => fragment :: fragments rest
      | (None, false) => fragments rest
      end
  end.

End Spec.

(** * The pull transport: the message of the request that is persisted *)

Module Pull.

(** A message with role [user]: what the filter of l.410,
    [messages.filter((m) => m.role === "user")], keeps. *)
Definition is_user (m : jsval) : bool :=
  match get m (lit "role") with
  | Some (JString r) => bool_decide (r = lit "user")
  | _ => false
  end.

(** [messages.filter(...).slice(-1)[0]] on an array without null. *)
Definition lastUser_of (messages : list jsval) : option jsval :=
  last (List.filter is_user messages).

End Pull.

(** * The worker's entry point: [fetch] (chat.js l.320-380) *)

Module Router.

(** [env.CONVERSATION_DO]: the storage of the Durable Object of each
    session name ([idFromName]); an object that was never used has an empty
    storage. *)
Abbreviation namespace := (gmap jsstring ConversationDO.storage).

(** What [fetch] reads of a request. *)
Record Request := {
  method : jsstring;                  (* [request.method] *)
  pathname : jsstring;                (* [url.pathname] *)
  sessionId_param : option jsstring;  (* [url.searchParams.get("sessionId")] *)
  x_session_id : option jsstring;     (* [request.headers.get("x-session-id")] *)
  upgrade : option jsstring;          (* [request.headers.get("upgrade")] *)
  body : jsstring;                    (* the text of the body *)
}.

(** What [fetch] answers. *)
Inductive outcome :=
| FromAssets                          (* what [env.ASSETS.fetch(request)] answers *)
| Respond (res : ConversationDO.Response)
| Upgraded (sessionId : jsstring)     (* status 101; [handleRealtime] listens on the session *)
| Uncaught (e : exn).                 (* an exception leaves the handler *)

Record result := {
  sessions : namespace;               (* the Durable Objects afterwards *)
  answer : outcome;
  calls : list Worker.event;          (* the appends and inference calls made *)
}.

(** [a || b] for [a] a string or null: [b] when [a] is null or empty. *)
Definition or_else (a : option jsstring) (b : jsstring) : jsstring :=
  match a with
  | Some (c :: s) => c :: s
  | _ => b
  end.

(** l.336 and l.366:
    [url.searchParams.get("sessionId") || request.headers.get("x-session-id") || "anonymous"] *)
Definition sessionId_of (request : Request) : jsstring :=
  or_else (sessionId_param request) (or_else (x_session_id request) (lit "anonymous")).

(** l.403: [request.headers.get("x-session-id") || "anonymous"] *)
Definition chat_sessionId_of (request : Request) : jsstring :=
  or_else (x_session_id request) (lit "anonymous").

(** [env.CONVERSATION_DO.get(env.CONVERSATION_DO.idFromName(sessionId))] *)
Definition stub (env : namespace) (sessionId : jsstring) : ConversationDO.storage :=
  default ∅ (env !! sessionId).

Definition plain (env : namespace) (status : N) (text : string) : result :=
  {| sessions := env;
     answer := Respond {| ConversationDO.status := status;
                          ConversationDO.text := Some (lit text) |};
     calls := [] |}.

Section router.
Context `{Platform} `{Inference}.

(** chat.js l.320-380 *)
Definition fetch (env : namespace) (request : Request) : result :=
  if bool_decide (pathname request = lit "/")
     || negb (startsWith (lit "/api/") (pathname request))
  then {| sessions := env; answer := FromAssets; calls := [] |}
  else if bool_decide (pathname request = lit "/api/messages") then
    if bool_decide (method request = lit "GET") then
      let sessionId := sessionId_of request in
      let doStub := stub env sessionId in
      let messagesRes := Worker.messages_of doStub in
      if negb (ConversationDO.ok messagesRes)
      then plain env 500 "Failed to fetch messages"
      else
        match Worker.json_of messagesRes with
        | Throw e => {| sessions := env; answer := Uncaught e; calls := [] |}
        | Normal messages =>
            {| sessions := env;
               answer := Respond {| ConversationDO.status := 200;
                                    ConversationDO.text := Some (JSON_stringify messages) |};
               calls := [] |}
        end
    else plain env 405 "Method not allowed"
  else if bool_decide (pathname request = lit "/api/chat") then
    if bool_decide (method request = lit "POST") then
      let sessionId := chat_sessionId_of request in
      let doStub := stub env sessionId in
      let '(w, res) :=
        Worker.handleChatRequest {| Worker.DO := doStub; Worker.trace := [] |}
          (body request) in
      {| sessions := <[sessionId := Worker.DO w]> env;
         answer := Respond res;
         calls := Worker.trace w |}
    else plain env 405 "Method not allowed"
  else if bool_decide (pathname request = lit "/api/realtime") then
    if negb (bool_decide (upgrade request = Some (lit "websocket")))
    then plain env 400 "Expected websocket"
    else {| sessions := env; answer := Upgraded (sessionId_of request); calls := [] |}
  else plain env 404 "Not found".

(** chat.js l.531-541: the connection [handleRealtime] sets up on the
    Durable Object of a session, with no audio chunk buffered. *)
Definition handleRealtime (env : namespace) (sessionId : jsstring) : Worker.world :=
  {| Worker.session_of := {| Worker.DO := stub env sessionId; Worker.trace := [] |};
     Worker.audioBuffers := [] |}.

(** The Durable Objects once the listener has worked on the connection. *)
Definition settle (env : namespace) (sessionId : jsstring) (w : Worker.world)
  : namespace :=
  <[sessionId := Worker.DO (Worker.session_of w)]> env.

End router.
End Router.

(** * The frames on the wire *)

Module Wire.
Import Delta.

Section wire.
(** [String(e)] for what was thrown: the text depends on the engine. *)
Context (String_of_error : exn → jsstring).

(** chat.js l.603 (l.700), l.632 (l.730), l.658, l.734 and l.741: the
    object the worker passes to [JSON.stringify] for each frame. *)
Definition object_of (f : frame) : jsval :=
  match f with
  | Delta content =>
      JObject [(lit "type", JString (lit "delta")); (lit "content", content)]
  | Done => JObject [(lit "type", JString (lit "done"))]
  | Transcript content =>
      JObject [(lit "type", JString (lit "transcript"));
               (lit "content", JString content)]
  | Error e =>
      JObject [(lit "type", JString (lit "error"));
               (lit "message", JString (String_of_error e))]
  end.

End wire.

(** The frames a trace holds, in the order they were sent. *)
Definition frames_of (tr : list Worker.event) : list frame :=
  omap (λ e, match e with Worker.Sent f => Some f | _ => None end) tr.

(** chat.js l.246: [{ type: "user_message", content: message }] *)
Definition user_message (message : jsstring) : jsval :=
  JObject [(lit "type", JString (lit "user_message"));
           (lit "content", JString message)].

(** chat.js l.184: [{ type: "audio_end" }] *)
Definition audio_end : jsval := JObject [(lit "type", JString (lit "audio_end"))].

End Wire.

(** * The page: the chat state and the handlers of chat.js l.1-273

    The document is reduced to what the script reads and writes: the
    children of [#chat-messages] with their class and the text of their
    first [p], the input and the two controls, the typing indicator.
    Scrolling, focus, the height of the input, the alerts and the console
    are left out, and so is the label of the voice button, which is set
    together with [isRecording] (l.164-165, l.190-191).  Of the recorder
    the page keeps [isRecording], the variable its handler branches on;
    the recorder itself and its stream belong to the browser, which
    dispatches their events. *)

(** The [textContent] of the first [p] of the fragment the HTML parser
    builds from [`<p>${content}</p>`], for each [content]. *)
Class Browser := {
  parsed_textContent : jsstring → jsstring;
}.

Module Client.

(** The first [p] of a message element. *)
Inductive paragraph :=
| Markup (content : jsstring)     (* parsed from [`<p>${content}</p>`] *)
| PlainText (text : jsstring).    (* its [textContent] was assigned *)

(** A child of [#chat-messages]: [querySelector_p] is [None] when the
    element holds no [p] (no element the script builds is so). *)
Record element := {
  className : jsstring;
  querySelector_p : option paragraph;
}.

(** The variable [socket] and the [readyState] of the socket it holds. *)
Inductive socket_state := Unset | CONNECTING | OPEN | CLOSED.

Record page := {
  chatMessages : list element;       (* the children of [#chat-messages] *)
  userInput_value : jsstring;
  userInput_disabled : bool;
  sendButton_disabled : bool;
  typingIndicator_visible : bool;    (* the class [visible] *)
  chatHistory : list jsval;
  isProcessing : bool;
  isRecording : bool;
  transcriptTimeout : bool;          (* the variable holds a timer, which is pending *)
  socket : socket_state;
  sent : list Worker.data;           (* what an open socket was given to send *)
}.

(** [chatMessages.appendChild(el)] *)
Definition appendChild (el : element) (p : page) : page :=
  {| chatMessages := chatMessages p ++ [el];
     userInput_value := userInput_value p;
     userInput_disabled := userInput_disabled p;
     sendButton_disabled := sendButton_disabled p;
     typingIndicator_visible := typingIndicator_visible p;
     chatHistory := chatHistory p; isProcessing := isProcessing p;
     isRecording := isRecording p;
     transcriptTimeout := transcriptTimeout p; socket := socket p; sent := sent p |}.

(** The children of [#chat-messages] replaced. *)
Definition with_children (children : list element) (p : page) : page :=
  {| chatMessages := children;
     userInput_value := userInput_value p;
     userInput_disabled := userInput_disabled p;
     sendButton_disabled := sendButton_disabled p;
     typingIndicator_visible := typingIndicator_visible p;
     chatHistory := chatHistory p; isProcessing := isProcessing p;
     isRecording := isRecording p;
     transcriptTimeout := transcriptTimeout p; socket := socket p; sent := sent p |}.

(** [chatHistory = history] *)
Definition with_history (history : list jsval) (p : page) : page :=
  {| chatMessages := chatMessages p;
     userInput_value := userInput_value p;
     userInput_disabled := userInput_disabled p;
     sendButton_disabled := sendButton_disabled p;
     typingIndicator_visible := typingIndicator_visible p;
     chatHistory := history; isProcessing := isProcessing p;
     isRecording := isRecording p;
     transcriptTimeout := transcriptTimeout p; socket := socket p; sent := sent p |}.

(** [userInput.value = value] *)
Definition with_input (value : jsstring) (p : page) : page :=
  {| chatMessages := chatMessages p;
     userInput_value := value;
     userInput_disabled := userInput_disabled p;
     sendButton_disabled := sendButton_disabled p;
     typingIndicator_visible := typingIndicator_visible p;
     chatHistory := chatHistory p; isProcessing := isProcessing p;
     isRecording := isRecording p;
     transcriptTimeout := transcriptTimeout p; socket := socket p; sent := sent p |}.

(** [isProcessing = b; userInput.disabled = b; sendButton.disabled = b]
    and the class [visible] of the typing indicator added ([b]) or
    removed: l.103-106 and l.218-220, 230 with [true], l.87-90, l.112-115,
    l.122-125 and l.254-257 with [false]. *)
Definition processing (b : bool) (p : page) : page :=
  {| chatMessages := chatMessages p;
     userInput_value := userInput_value p;
     userInput_disabled := b;
     sendButton_disabled := b;
     typingIndicator_visible := b;
     chatHistory := chatHistory p; isProcessing := b;
     isRecording := isRecording p;
     transcriptTimeout := transcriptTimeout p; socket := socket p; sent := sent p |}.

(** [transcriptTimeout = setTimeout(...)] with [true] (the timer it held
    cleared before), [clearTimeout(transcriptTimeout); transcriptTimeout =
    null] with [false]. *)
Definition with_timer (pending : bool) (p : page) : page :=
  {| chatMessages := chatMessages p;
     userInput_value := userInput_value p;
     userInput_disabled := userInput_disabled p;
     sendButton_disabled := sendButton_disabled p;
     typingIndicator_visible := typingIndicator_visible p;
     chatHistory := chatHistory p; isProcessing := isProcessing p;
     isRecording := isRecording p;
     transcriptTimeout := pending; socket := socket p; sent := sent p |}.

(** [isRecording = b] *)
Definition recording (b : bool) (p : page) : page :=
  {| chatMessages := chatMessages p;
     userInput_value := userInput_value p;
     userInput_disabled := userInput_disabled p;
     sendButton_disabled := sendButton_disabled p;
     typingIndicator_visible := typingIndicator_visible p;
     chatHistory := chatHistory p; isProcessing := isProcessing p;
     isRecording := b;
     transcriptTimeout := transcriptTimeout p; socket := socket p; sent := sent p |}.

(** [socket = new WebSocket(...)], and the [readyState] of the socket
    changed by the browser. *)
Definition with_socket (state : socket_state) (p : page) : page :=
  {| chatMessages := chatMessages p;
     userInput_value := userInput_value p;
     userInput_disabled := userInput_disabled p;
     sendButton_disabled := sendButton_disabled p;
     typingIndicator_visible := typingIndicator_visible p;
     chatHistory := chatHistory p; isProcessing := isProcessing p;
     isRecording := isRecording p;
     transcriptTimeout := transcriptTimeout p; socket := state; sent := sent p |}.

(** White space in a [class] attribute. *)
Definition isAsciiWhitespace (c : N) : bool :=
  ((c =? 9) || (c =? 10) || (c =? 12) || (c =? 13) || (c =? 32))%N.

(** The tokens of a [class] attribute, [current] being the token read so
    far. *)
Fixpoint tokens_from (current : jsstring) (s : jsstring) : list jsstring :=
  match s with
  | [] => match current with [] => [] | _ => [current] end
  | c :: s' =>
      if isAsciiWhitespace c
      then match current with [] => [] | _ => [current] end ++ tokens_from [] s'
      else tokens_from (current ++ [c]) s'
  end.

(** [el.classList.contains(token)] *)
Definition contains (token : jsstring) (el : element) : bool :=
  bool_decide (token ∈ tokens_from [] (className el)).

(** [s.trim()] *)
Definition trim (s : jsstring) : jsstring :=
  rev (trimStart (rev (trimStart s))).

(** The element of l.99-101 and l.237-239:
    [className = "message assistant-message"; innerHTML = "<p></p>"]. *)
Definition placeholder : element :=
  {| className := lit "message assistant-message";
     querySelector_p := Some (PlainText []) |}.

Definition GREETING : jsstring :=
  lit "Hello! I'm an LLM chat app powered by Cloudflare Workers AI. How can I help you today?".

(** [socket.send(frame)]: [None] when it throws, on a variable that holds
    no socket yet and on a socket that is still connecting; a socket that
    is closing or closed discards the frame. *)
Definition socket_send (frame : Worker.data) (p : page) : option page :=
  match socket p with
  | Unset | CONNECTING => None
  | CLOSED => Some p
  | OPEN =>
      Some {| chatMessages := chatMessages p;
              userInput_value := userInput_value p;
              userInput_disabled := userInput_disabled p;
              sendButton_disabled := sendButton_disabled p;
              typingIndicator_visible := typingIndicator_visible p;
              chatHistory := chatHistory p; isProcessing := isProcessing p;
              isRecording := isRecording p;
              transcriptTimeout := transcriptTimeout p; socket := socket p;
              sent := sent p ++ [frame] |}
  end.

Section client.
Context `{Platform} `{Browser}.
Import Conversion.

(** [`${v}`] and ["..." + v] for a property [v] of a JSON value, [None]
    being [undefined]: whether the conversion throws, and the string it
    gives when it does not. *)
Definition String_throws (v : option jsval) : bool :=
  match v with
  | None => false
  | Some x => throws x
  end.

Definition String (v : option jsval) : jsstring :=
  match v with
  | None => lit "undefined"
  | Some x => ToString x
  end.

(** [p.textContent] *)
Definition textContent (para : paragraph) : jsstring :=
  match para with
  | Markup content => parsed_textContent content
  | PlainText text => text
  end.

(** chat.js l.265-273, for a role and a content whose conversions do not
    throw; when one throws, it does so before the element is appended. *)
Definition addMessageToChat (role content : option jsval) (p : page) : page :=
  appendChild {| className := lit "message " ++ String role ++ lit "-message";
                 querySelector_p := Some (Markup (String content)) |} p.

(** [{ role, content }] as the script pushes it on [chatHistory]. *)
Definition entry (role : string) (content : option jsval) : jsval :=
  Worker.message (lit role) content.

(** l.68-72 and l.82-86: the first [p] of the last child when that child
    has the class [assistant-message]; [None] when there is no such child,
    [Some None] when it holds no [p]. *)
Definition last_assistant (p : page) : option (option paragraph) :=
  match last (chatMessages p) with
  | Some el =>
      if contains (lit "assistant-message") el then Some (querySelector_p el)
      else None
  | None => None
  end.

(** [p.textContent = text] on the first [p] of the last child. *)
Definition set_last_text (text : jsstring) (p : page) : page :=
  match last (chatMessages p) with
  | Some el =>
      with_children
        (removelast (chatMessages p)
         ++ [{| className := className el; querySelector_p := Some (PlainText text) |}])
        p
  | None => p
  end.

(** l.66-79, the branch of a [delta] frame; [None] when it throws, which
    it does before it has changed anything. *)
Definition on_delta (content : option jsval) (p : page) : option page :=
  match last_assistant p with
  | Some None => None
  | Some (Some para) =>
      if String_throws content then None
      else Some (with_timer false (set_last_text (textContent para ++ String content) p))
  | None => Some (with_timer false p)
  end.

(** l.80-92, the branch of a [done] frame. *)
Definition on_done (p : page) : option page :=
  match last_assistant p with
  | Some None => None
  | Some (Some para) =>
      Some (processing false
              (with_history
                 (chatHistory p ++ [entry "assistant" (Some (JString (textContent para)))])
                 p))
  | None => Some (processing false p)
  end.

(** l.93-118, the branch of a [transcript] frame; [None] when it throws,
    which it does before it has changed anything. *)
Definition on_transcript (content : option jsval) (p : page) : option page :=
  if String_throws content then None
  else
    let p := addMessageToChat (Some (JString (lit "user"))) content p in
    let p := with_history (chatHistory p ++ [entry "user" content]) p in
    let p := appendChild placeholder p in
    Some (with_timer true (processing true p)).

(** l.119-130, the branch of an [error] frame; [None] when it throws,
    which it does before it has changed anything. *)
Definition on_error (message : option jsval) (p : page) : option page :=
  if String_throws message then None
  else
    let p := addMessageToChat (Some (JString (lit "assistant")))
               (Some (JString (lit "Error: " ++ String message))) p in
    Some (with_timer false (processing false p)).

(** [if (data.type === name) { branch }] *)
Definition when (type : option jsval) (name : string)
    (branch : page → option page) (p : page) : option page :=
  match type with
  | Some (JString t) => if decide (t = lit name) then branch p else Some p
  | _ => Some p
  end.

(** l.66-130: the four [if (data.type === ...)] statements, one after
    the other. *)
Definition dispatch (data : jsval) (p : page) : option page :=
  let type := get data (lit "type") in
  p ← when type "delta" (on_delta (get data (lit "content"))) p;
  p ← when type "done" on_done p;
  p ← when type "transcript" (on_transcript (get data (lit "content"))) p;
  when type "error" (on_error (get data (lit "message"))) p.

(** chat.js l.63-134, the listener of the socket's [message] event on
    [ev.data].  Whatever is thrown ([JSON.parse] on text that is not JSON,
    [data.type] on null, [p.textContent] on a missing [p], the conversion
    of a content to a string) is caught and logged (l.131-133); a branch
    throws only before it has changed anything, so the page is then as it
    was. *)
Definition on_socket_message (ev_data : jsstring) (p : page) : page :=
  match JSON_parse ev_data with
  | None => p
  | Some data =>
      match data with
      | JNull => p
      | _ => default p (dispatch data p)
      end
  end.

(** l.110-117, the callback of the timer, which runs only while the timer
    is pending. *)
Definition on_timeout (p : page) : page :=
  if transcriptTimeout p then
    with_timer false
      (processing false
         (addMessageToChat (Some (JString (lit "assistant")))
            (Some (JString (lit "Error: response timed out. Please try again."))) p))
  else p.

(** chat.js l.211-260 *)
Definition sendMessage (p : page) : page :=
  let message := trim (userInput_value p) in
  if bool_decide (message = []) || isProcessing p then p
  else
    let p := processing true p in
    let p := addMessageToChat (Some (JString (lit "user"))) (Some (JString message)) p in
    let p := with_input [] p in
    let p := with_history (chatHistory p ++ [entry "user" (Some (JString message))]) p in
    let p := appendChild placeholder p in
    match socket_send (Worker.Text (JSON_stringify (Wire.user_message message))) p with
    | Some p => p
    | None =>
        processing false
          (addMessageToChat (Some (JString (lit "assistant")))
             (Some (JString (lit "Sorry, there was an error processing your request."))) p)
    end.

(** l.41-43: [for (const m of chatHistory) addMessageToChat(m.role, m.content)];
    a null element throws, and so does a role or a content whose
    conversion throws; what was rendered before it stays. *)
Fixpoint render (msgs : list jsval) (p : page) : page :=
  match msgs with
  | [] => p
  | JNull :: _ => p
  | m :: rest =>
      if String_throws (get m (lit "role")) || String_throws (get m (lit "content"))
      then p
      else render rest (addMessageToChat (get m (lit "role")) (get m (lit "content")) p)
  end.

(** The entries the loop of l.41-43 renders: those before the first one
    on which it throws. *)
Fixpoint rendered (msgs : list jsval) : list jsval :=
  match msgs with
  | [] => []
  | JNull :: _ => []
  | m :: rest =>
      if String_throws (get m (lit "role")) || String_throws (get m (lit "content"))
      then []
      else m :: rendered rest
  end.

(** chat.js l.32-54 on the response of [/api/messages], [None] when the
    request failed. *)
Definition loadSessionMessages (res : option ConversationDO.Response) (p : page) : page :=
  match res with
  | None => p
  | Some res =>
      if negb (ConversationDO.ok res) then p
      else
        match JSON_parse (default [] (ConversationDO.text res)) with
        | None => p
        | Some (JArray (m :: rest)) =>
            render (m :: rest) (with_children [] (with_history (m :: rest) p))
        | Some _ =>
            let p := addMessageToChat (Some (JString (lit "assistant")))
                       (Some (JString GREETING)) (with_children [] p) in
            with_history
              [entry "assistant" (Some (JString (parsed_textContent GREETING)))] p
        end
  end.

(** A frame that ends the wait for a reply: its [type] is [done] or
    [error]. *)
Definition closes (ev_data : jsstring) : bool :=
  match JSON_parse ev_data with
  | Some data =>
      match get data (lit "type") with
      | Some (JString t) => bool_decide (t = lit "done") || bool_decide (t = lit "error")
      | _ => false
      end
  | None => false
  end.

(** The controls follow [isProcessing]: the input and the button are
    disabled and the typing indicator shows exactly while it is set. *)
Definition coherent (p : page) : Prop :=
  userInput_disabled p = isProcessing p
  ∧ sendButton_disabled p = isProcessing p
  ∧ typingIndicator_visible p = isProcessing p.

(** The element [addMessageToChat(m.role, m.content)] builds for an entry
    of the history. *)
Definition element_of (m : jsval) : element :=
  {| className := lit "message " ++ String (get m (lit "role")) ++ lit "-message";
     querySelector_p := Some (Markup (String (get m (lit "content")))) |}.

(** chat.js l.146-169, the click on the voice button up to its [await];
    [getUserMedia] tells whether the browser has
    [navigator.mediaDevices.getUserMedia].  Without it, and without an
    open socket, the handler alerts and returns.  While recording it stops
    the recorder, on which the browser dispatches a last [dataavailable]
    event and then [stop], and clears [isRecording]; else it asks for the
    microphone and waits.  It does not look at [isProcessing].
    [mediaRecorder.stop()] is taken to return, as it does on a recorder
    that is recording. *)
Definition on_voice_click (getUserMedia : bool) (p : page) : page :=
  if negb getUserMedia then p
  else
    match socket p with
    | OPEN => if isRecording p then recording false p else p
    | _ => p
    end.

(** l.170-195, the handler resumed when the promise of [getUserMedia]
    has settled; [started] tells whether the microphone was granted and
    the recorder built on it was started.  What is thrown else is caught
    and alerted. *)
Definition on_microphone (started : bool) (p : page) : page :=
  if started then recording true p else p.

(** l.172-181, [mediaRecorder.ondataavailable] on a blob of the given
    bytes, once its [arrayBuffer()] was read: an empty blob is dropped;
    what [socket.send] throws is caught and logged. *)
Definition ondataavailable (ev_data : list Byte.byte) (p : page) : page :=
  match ev_data with
  | [] => p
  | _ => default p (socket_send (Worker.Binary ev_data) p)
  end.

(** l.182-188, [mediaRecorder.onstop]; what [socket.send] throws is
    caught and logged. *)
Definition onstop (p : page) : page :=
  default p (socket_send (Worker.Text (JSON_stringify Wire.audio_end)) p).

(** What happens to the page.  The browser dispatches [Microphone] after
    a click that asked for the microphone, and [DataAvailable] and
    [RecorderStops] on a recorder the script has started. *)
Inductive occurrence :=
| Input (value : jsstring)        (* the user edits the input *)
| Send                            (* click on the button, Enter in the input *)
| Message (ev_data : jsstring)    (* a frame arrives *)
| TimerFires                         (* the timer fires *)
| Fetched (res : option ConversationDO.Response)
| VoiceClick (getUserMedia : bool)       (* click on the voice button *)
| Microphone (started : bool)            (* the promise of [getUserMedia] settles *)
| DataAvailable (ev_data : list Byte.byte)  (* a chunk of the recording was read *)
| RecorderStops                          (* the recorder has stopped *)
| OpenSocket                             (* [openSocket()] has built its socket, l.59 *)
| SocketOpens                            (* the connection is established *)
| SocketCloses.                          (* the connection is closed, or has failed *)

(** [socket.readyState] after an occurrence: the socket the script builds
    is connecting; the browser opens it, and closes it when it likes.  The
    script reacts to neither (l.60-62 logs). *)
Definition readyState_after (state : socket_state) (e : occurrence) : socket_state :=
  match e, state with
  | OpenSocket, _ => CONNECTING
  | SocketOpens, CONNECTING => OPEN
  | SocketCloses, (CONNECTING | OPEN) => CLOSED
  | _, _ => state
  end.

Definition react (p : page) (e : occurrence) : page :=
  match e with
  | Input value => with_input value p
  | Send => sendMessage p
  | Message ev_data => on_socket_message ev_data p
  | TimerFires => on_timeout p
  | Fetched res => loadSessionMessages res p
  | VoiceClick getUserMedia => on_voice_click getUserMedia p
  | Microphone started => on_microphone started p
  | DataAvailable ev_data => ondataavailable ev_data p
  | RecorderStops => onstop p
  | OpenSocket | SocketOpens | SocketCloses =>
      with_socket (readyState_after (socket p) e) p
  end.

(** The frame a callback of the recorder hands to the socket. *)
Definition recorded (e : occurrence) : option Worker.data :=
  match e with
  | DataAvailable (b :: ev_data) => Some (Worker.Binary (b :: ev_data))
  | RecorderStops => Some (Worker.Text (JSON_stringify Wire.audio_end))
  | _ => None
  end.

(** The frames the callbacks of the recorder hand to the socket along the
    events, [state] being the [readyState] before them: a socket that is
    not open sends none. *)
Fixpoint handed (state : socket_state) (events : list occurrence) : list Worker.data :=
  match events with
  | [] => []
  | e :: events =>
      match state with OPEN => option_list (recorded e) | _ => [] end
      ++ handed (readyState_after state e) events
  end.

Definition play (p : page) (events : list occurrence) : page := foldl react p events.

End client.
End Client.

(** * Further inputs of the scenarios *)

Module Scenario.

(** An inference binding that rejects every call. *)
Definition rejecting (reason : jsstring) : Inference :=
  {| AI_run := λ _, Throw (Rejected reason) |}.

(** [{"type":"ping"}] and [null]: frames the listener has no branch for. *)
Definition ping : jsstring := json_text "{'type':'ping'}".

(** A browser, on contents that hold no markup: the text of the paragraph
    is the content. *)
Definition text_browser : Browser := {| parsed_textContent := λ content, content |}.

(** The errors as text; the scenarios do not look at it. *)
Definition String_of_error (e : exn) : jsstring :=
  match e with
  | SyntaxError _ => lit "SyntaxError"
  | TypeError => lit "TypeError"
  | ReferenceError _ => lit "ReferenceError"
  | Rejected reason => reason
  end.

(** The page after the greeting was rendered, with [value] typed into
    the input and the socket in the given state. *)
Definition page_on (state : Client.socket_state) (value : string) : Client.page :=
  {| Client.chatMessages :=
       [{| Client.className := lit "message assistant-message";
           Client.querySelector_p := Some (Client.Markup Client.GREETING) |}];
     Client.userInput_value := lit value;
     Client.userInput_disabled := false;
     Client.sendButton_disabled := false;
     Client.typingIndicator_visible := false;
     Client.chatHistory :=
       [Worker.message (lit "assistant") (Some (JString Client.GREETING))];
     Client.isProcessing := false;
     Client.isRecording := false;
     Client.transcriptTimeout := false;
     Client.socket := state;
     Client.sent := [] |}.

Definition page_with (value : string) : Client.page := page_on Client.OPEN value.

End Scenario.

(** * Facts on the string operations *)

Module JSFacts.

Lemma startsWith_app searchString s t :
  startsWith searchString s = true → startsWith searchString (s ++ t) = true.
Proof.
  revert s. induction searchString as [|p ps IH]; intros [|c cs]; simpl; try done.
  intros [Hpc%N.eqb_eq Hps]%andb_true_iff. subst. rewrite N.eqb_refl. simpl. auto.
Qed.

Lemma startsWith_app_false searchString s t :
  (length searchString ≤ length s)%nat →
  startsWith searchString s = false →
  startsWith searchString (s ++ t) = false.
Proof.
  revert s. induction searchString as [|p ps IH]; intros [|c cs]; simpl; try done; try lia.
  intros Hlen. destruct (p =? c)%N; simpl; [|done]. apply IH. lia.
Qed.

Lemma startsWith_length searchString s :
  startsWith searchString s = true → (length searchString ≤ length s)%nat.
Proof.
  revert s. induction searchString as [|p ps IH]; intros [|c cs]; simpl; try done; try lia.
  intros [_ Hps]%andb_true_iff. apply IH in Hps. lia.
Qed.

Lemma indexOfFrom_bounds searchString s k i :
  indexOfFrom searchString s k = Some i →
  (k ≤ i ∧ i - k + length searchString ≤ length s)%nat.
Proof.
  revert k. induction s as [|c s IH]; intros k; simpl.
  - destruct (startsWith searchString []) eqn:E; [|done].
    intros [= <-]. apply startsWith_length in E. simpl in E. lia.
  - destruct (startsWith searchString (c :: s)) eqn:E.
    + intros [= <-]. apply startsWith_length in E. simpl in E. lia.
    + intros Hi%IH. lia.
Qed.

Lemma indexOfFrom_app searchString s t k i :
  indexOfFrom searchString s k = Some i →
  indexOfFrom searchString (s ++ t) k = Some i.
Proof.
  revert k. induction s as [|c s IH]; intros k.
  - simpl. destruct (startsWith searchString []) eqn:E; [|done].
    intros [= <-]. destruct searchString; [|done]. by destruct t.
  - simpl. destruct (startsWith searchString (c :: s)) eqn:E.
    + intros [= <-]. pose proof (startsWith_app _ (c :: s) t E) as E'.
      simpl in E'. by rewrite E'.
    + intros Hi. pose proof (indexOfFrom_bounds _ _ _ _ Hi) as [_ Hlen].
      pose proof (startsWith_app_false searchString (c :: s) t) as E'. simpl in E'.
      rewrite E'; [by apply IH | lia | done].
Qed.

Lemma indexOf_app searchString s t i :
  indexOf searchString s = Some i → indexOf searchString (s ++ t) = Some i.
Proof. apply indexOfFrom_app. Qed.

Lemma indexOf_bound searchString s i :
  indexOf searchString s = Some i → (i + length searchString ≤ length s)%nat.
Proof. intros Hi%indexOfFrom_bounds. lia. Qed.

Lemma remove_CR_app s t : remove_CR (s ++ t) = remove_CR s ++ remove_CR t.
Proof. apply filter_app. Qed.

Lemma remove_CR_clean s : CR ∉ s → remove_CR s = s.
Proof.
  intros Hs. unfold remove_CR. induction s as [|c s IH]; [done|].
  rewrite filter_cons. apply not_elem_of_cons in Hs as [Hc Hs].
  rewrite decide_True by done. f_equal. auto.
Qed.

Lemma remove_CR_spec s : CR ∉ remove_CR s.
Proof. unfold remove_CR. rewrite list_elem_of_filter. tauto. Qed.

Lemma trimStart_suffix s : trimStart s `suffix_of` s.
Proof.
  induction s as [|c s IH]; simpl; [done|].
  destruct (isWhiteSpace c); [by apply suffix_cons_r | done].
Qed.

Lemma elem_of_split separator s piece c :
  piece ∈ split separator s → c ∈ piece → c ∈ s.
Proof.
  revert piece. induction s as [|x s IH]; intros piece; simpl.
  - intros ->%list_elem_of_singleton. by intros ?%elem_of_nil.
  - destruct (x =? separator)%N.
    + intros [->|Hp]%elem_of_cons; [by intros ?%elem_of_nil|].
      intros Hc. right. eauto.
    + destruct (split separator s) as [|p ps] eqn:E.
      * intros ->%list_elem_of_singleton. intros ->%list_elem_of_singleton. by left.
      * intros [->|Hp]%elem_of_cons.
        -- intros [->|Hc]%elem_of_cons; [by left|]. right. apply (IH p); [by left|done].
        -- intros Hc. right. apply (IH piece); [by right|done].
Qed.

Lemma elem_of_join separator pieces c :
  c ∈ join separator pieces → c ∈ separator ∨ ∃ piece, piece ∈ pieces ∧ c ∈ piece.
Proof.
  induction pieces as [|p ps IH]; simpl; [by intros ?%elem_of_nil|].
  destruct ps as [|q ps].
  - intros Hc. right. exists p. split; [by left|done].
  - rewrite !elem_of_app. intros [Hc|[Hc|Hc]].
    + right. exists p. split; [by left|done].
    + by left.
    + destruct (IH Hc) as [?|(piece & Hp & Hcp)]; [by left|].
      right. exists piece. split; [by right|done].
Qed.

End JSFacts.

(** * Facts on the decoder loop *)

Module SSEFacts.
Import SSE JSFacts.

Section loop_facts.
Context {A : Type} (f : A → jsstring → A).

Lemma loop_unfold s acc :
  loop f s acc =
  match indexOf separator s with
  | None => (acc, s)
  | Some i =>
      loop f (slice_from (i + 2) s)
        (match payload_of (slice_to i s) with
         | None => acc
         | Some payload => f acc payload
         end)
  end.
Proof.
  rewrite loop_equation_1. unfold loop_unfold_clause_1. simpl.
  destruct (indexOf separator s); reflexivity.
Qed.

(** Text that arrives later does not change what was decoded before. *)
Lemma loop_app s t acc :
  loop f (s ++ t) acc = let '(acc', r) := loop f s acc in loop f (r ++ t) acc'.
Proof.
  remember (length s) as n eqn:Hn. revert s acc Hn.
  induction n as [n IH] using lt_wf_ind. intros s acc ->.
  rewrite (loop_unfold s).
  destruct (indexOf separator s) as [i|] eqn:Hi; [|done].
  pose proof (indexOf_bound _ _ _ Hi) as Hlen. simpl in Hlen.
  rewrite (loop_unfold (s ++ t)), (indexOf_app _ _ t _ Hi).
  unfold slice_from, slice_to.
  rewrite take_app_le, drop_app_le by lia.
  eapply IH; [|done]. rewrite length_drop. lia.
Qed.

(** The rest is a suffix of the text. *)
Lemma loop_suffix s acc : (loop f s acc).2 `suffix_of` s.
Proof.
  remember (length s) as n eqn:Hn. revert s acc Hn.
  induction n as [n IH] using lt_wf_ind. intros s acc ->.
  rewrite loop_unfold.
  destruct (indexOf separator s) as [i|] eqn:Hi; [|done].
  pose proof (indexOf_bound _ _ _ Hi) as Hlen. simpl in Hlen.
  etrans; [eapply IH; [|done]|apply suffix_drop].
  unfold slice_from. rewrite length_drop. lia.
Qed.

(** The loop stops only when no separator is left. *)
Lemma loop_exhausts s acc : indexOf separator (loop f s acc).2 = None.
Proof.
  remember (length s) as n eqn:Hn. revert s acc Hn.
  induction n as [n IH] using lt_wf_ind. intros s acc ->.
  rewrite loop_unfold.
  destruct (indexOf separator s) as [i|] eqn:Hi; [|done].
  pose proof (indexOf_bound _ _ _ Hi) as Hlen. simpl in Hlen.
  eapply IH; [|done]. unfold slice_from. rewrite length_drop. lia.
Qed.

End loop_facts.

Abbreviation snoc := (λ (events : list jsstring) (payload : jsstring), events ++ [payload]).

Lemma loop_snoc s evs : loop snoc s evs = (evs ++ payloads s, residual s).
Proof.
  unfold payloads, residual.
  remember (length s) as n eqn:Hn. revert s evs Hn.
  induction n as [n IH] using lt_wf_ind. intros s evs ->.
  rewrite (loop_unfold _ s evs), (loop_unfold _ s []).
  destruct (indexOf separator s) as [i|] eqn:Hi; simpl; [|by rewrite app_nil_r].
  pose proof (indexOf_bound _ _ _ Hi) as Hlen. simpl in Hlen.
  assert (length (slice_from (i + 2) s) < length s)%nat as Hlt
    by (unfold slice_from; rewrite length_drop; lia).
  rewrite (IH _ Hlt _ _ eq_refl).
  destruct (payload_of (slice_to i s)) as [p|]; simpl; [|done].
  rewrite (IH _ Hlt _ [p] eq_refl). simpl. by rewrite <- app_assoc.
Qed.

Lemma payloads_unfold s :
  payloads s =
  match indexOf separator s with
  | None => []
  | Some i => option_list (payload_of (slice_to i s)) ++ payloads (slice_from (i + 2) s)
  end.
Proof.
  unfold payloads at 1. rewrite loop_unfold.
  destruct (indexOf separator s) as [i|]; [|done].
  rewrite loop_snoc. simpl. by destruct (payload_of _).
Qed.

Lemma residual_unfold s :
  residual s =
  match indexOf separator s with
  | None => s
  | Some i => residual (slice_from (i + 2) s)
  end.
Proof.
  unfold residual at 1. rewrite loop_unfold.
  destruct (indexOf separator s) as [i|]; [|done].
  by rewrite loop_snoc.
Qed.

(** The loop is a fold of its action over the payloads. *)
Lemma loop_fold {A} (f : A → jsstring → A) s acc :
  loop f s acc = (foldl f acc (payloads s), residual s).
Proof.
  remember (length s) as n eqn:Hn. revert s acc Hn.
  induction n as [n IH] using lt_wf_ind. intros s acc ->.
  rewrite loop_unfold, payloads_unfold, residual_unfold.
  destruct (indexOf separator s) as [i|] eqn:Hi; [|done].
  pose proof (indexOf_bound _ _ _ Hi) as Hlen. simpl in Hlen.
  assert (length (slice_from (i + 2) s) < length s)%nat as Hlt
    by (unfold slice_from; rewrite length_drop; lia).
  rewrite foldl_app, (IH _ Hlt _ _ eq_refl).
  by destruct (payload_of _).
Qed.

Lemma payloads_app s t :
  payloads (s ++ t) = payloads s ++ payloads (residual s ++ t).
Proof.
  unfold payloads at 1. rewrite loop_app, (loop_snoc s). by rewrite loop_snoc.
Qed.

Lemma residual_app s t : residual (s ++ t) = residual (residual s ++ t).
Proof.
  unfold residual at 1. rewrite loop_app, (loop_snoc s). by rewrite loop_snoc.
Qed.

Lemma residual_suffix s : residual s `suffix_of` s.
Proof. apply (loop_suffix snoc). Qed.

Lemma residual_clean s : CR ∉ s → CR ∉ residual s.
Proof.
  intros Hs Hr. apply Hs. destruct (residual_suffix s) as [k ->].
  apply elem_of_app. by right.
Qed.

End SSEFacts.

(** * Facts on the read loop *)

Module ReaderFacts.
Import SSE JSFacts SSEFacts Reader.

Lemma decode_app d a b :
  TextDecoder.decode d (a ++ b) =
  let '(d1, out1) := TextDecoder.decode d a in
  let '(d2, out2) := TextDecoder.decode d1 b in
  (d2, out1 ++ out2).
Proof.
  revert d. induction a as [|byte a IH]; intros d; simpl.
  - by destruct (TextDecoder.decode d b).
  - destruct (TextDecoder.push d byte) as [d1 out1]. rewrite IH.
    destruct (TextDecoder.decode d1 a) as [d2 out2].
    destruct (TextDecoder.decode d2 b) as [d3 out3].
    by rewrite app_assoc.
Qed.

Lemma text_of_cons d value stream :
  text_of d (value :: stream) =
  (TextDecoder.decode d value).2 ++ text_of (TextDecoder.decode d value).1 stream.
Proof.
  unfold text_of. simpl. rewrite decode_app.
  destruct (TextDecoder.decode d value) as [d1 out1]. simpl.
  by destruct (TextDecoder.decode d1 (concat stream)).
Qed.

Lemma separator_clean : remove_CR separator = separator.
Proof. reflexivity. Qed.

(** The read loop decodes the stream as if it had come in one piece. *)
Lemma pump_whole {A} (f : A → jsstring → A) stream d b acc :
  CR ∉ b →
  pump f stream d b acc =
  (loop f (b ++ remove_CR (text_of d stream) ++ separator) acc).1.
Proof.
  revert d b acc. induction stream as [|value stream IH]; intros d b acc Hb; simpl.
  - unfold consume. by rewrite remove_CR_app, (remove_CR_clean b Hb), separator_clean.
  - rewrite text_of_cons.
    destruct (TextDecoder.decode d value) as [d1 text]. simpl.
    unfold consume. rewrite remove_CR_app, (remove_CR_clean b Hb).
    rewrite (remove_CR_app text), <- (app_assoc (remove_CR text)), (app_assoc b).
    rewrite (loop_app f (b ++ remove_CR text)).
    destruct (loop f (b ++ remove_CR text) acc) as [acc' b'] eqn:E.
    apply IH.
    replace b' with (loop f (b ++ remove_CR text) acc).2 by by rewrite E.
    rewrite loop_fold. simpl. apply residual_clean.
    rewrite elem_of_app. intros [?|?]; [done|]. by eapply remove_CR_spec.
Qed.

Lemma frame_decoder_whole stream :
  frame_decoder stream =
  payloads (remove_CR (text_of TextDecoder.new stream) ++ separator).
Proof.
  unfold frame_decoder. rewrite pump_whole by apply not_elem_of_nil.
  by rewrite loop_snoc.
Qed.

(** Every read loop of the source is a fold over the decoded payloads. *)
Lemma pump_fold {A} (f : A → jsstring → A) stream acc :
  pump f stream TextDecoder.new [] acc = foldl f acc (frame_decoder stream).
Proof.
  rewrite pump_whole by apply not_elem_of_nil.
  by rewrite loop_fold, frame_decoder_whole.
Qed.

End ReaderFacts.

Module PayloadFacts.
Import SSE JSFacts SSEFacts Reader ReaderFacts.

Lemma elem_of_dataLines_of lines piece :
  piece ∈ dataLines_of lines →
  ∃ line, line ∈ lines ∧ startsWith marker line = true
          ∧ piece = trimStart (slice_from (length marker) line).
Proof.
  induction lines as [|line lines IH]; cbn [dataLines_of]; [by intros ?%elem_of_nil|].
  destruct (startsWith marker line) eqn:E.
  - intros [->|Hp]%elem_of_cons.
    + exists line. split; [by left|done].
    + destruct (IH Hp) as (l & Hl & Hm & ->). exists l. split; [by right|done].
  - intros Hp. destruct (IH Hp) as (l & Hl & Hm & ->). exists l. split; [by right|done].
Qed.

Lemma payload_of_elem rawEvent payload c :
  payload_of rawEvent = Some payload → c ∈ payload → c = LF ∨ c ∈ rawEvent.
Proof.
  unfold payload_of.
  destruct (dataLines_of (split LF rawEvent)) as [|piece pieces] eqn:E; [done|].
  intros Heq. assert (payload = join [LF] (piece :: pieces)) as -> by congruence.
  clear Heq. intros [Hc|(p & Hp & Hc)]%elem_of_join.
  - left. by apply list_elem_of_singleton in Hc.
  - right. rewrite <- E in Hp.
    apply elem_of_dataLines_of in Hp as (line & Hline & _ & ->).
    apply (elem_of_split LF rawEvent line); [done|].
    destruct (trimStart_suffix (slice_from (length marker) line)) as [k Hk].
    unfold slice_from in *.
    apply (subseteq_drop (length marker)). rewrite Hk. apply elem_of_app. by right.
Qed.

Lemma payloads_clean s : CR ∉ s → Forall (λ payload, CR ∉ payload) (payloads s).
Proof.
  remember (length s) as n eqn:Hn. revert s Hn.
  induction n as [n IH] using lt_wf_ind. intros s -> Hs.
  rewrite payloads_unfold.
  destruct (indexOf separator s) as [i|] eqn:Hi; [|done].
  pose proof (indexOf_bound _ _ _ Hi) as Hlen. simpl in Hlen.
  apply Forall_app. split.
  - destruct (payload_of (slice_to i s)) as [p|] eqn:Hp; simpl; [|done].
    apply Forall_singleton. intros Hc.
    destruct (payload_of_elem _ _ _ Hp Hc) as [?|Hin]; [done|].
    apply Hs. unfold slice_to in Hin. by eapply subseteq_take.
  - eapply IH; [|done|].
    + unfold slice_from. rewrite length_drop. lia.
    + intros Hin. apply Hs. unfold slice_from in Hin. by eapply subseteq_drop.
Qed.

Lemma split_clean line t :
  LF ∉ line → split LF (line ++ LF :: t) = line :: split LF t.
Proof.
  induction line as [|c line IH]; simpl; [done|].
  intros [Hc Hl]%not_elem_of_cons.
  destruct (N.eqb_spec c LF) as [->|_]; [done|]. by rewrite IH.
Qed.

Lemma split_line line : LF ∉ line → split LF line = [line].
Proof.
  induction line as [|c line IH]; simpl; [done|].
  intros [Hc Hl]%not_elem_of_cons.
  destruct (N.eqb_spec c LF) as [->|_]; [done|]. by rewrite IH.
Qed.

Lemma split_join lines :
  lines ≠ [] → Forall (λ line, LF ∉ line) lines → split LF (join [LF] lines) = lines.
Proof.
  induction lines as [|line lines IH]; [done|]. intros _ Hall.
  apply Forall_cons in Hall as [Hline Hall].
  destruct lines as [|line2 lines]; simpl.
  - by apply split_line.
  - rewrite split_clean by done. f_equal. by apply IH.
Qed.

Lemma indexOfFrom_cons searchString c s k :
  indexOfFrom searchString (c :: s) k =
  if startsWith searchString (c :: s) then Some k
  else indexOfFrom searchString s (S k).
Proof. reflexivity. Qed.

Lemma startsWith_separator_ne c s : c ≠ LF → startsWith separator (c :: s) = false.
Proof.
  intros Hc. unfold separator. cbn [startsWith].
  by destruct (N.eqb_spec LF c) as [<-|_].
Qed.

Lemma startsWith_separator_LF c s :
  c ≠ LF → startsWith separator (LF :: c :: s) = false.
Proof.
  intros Hc. unfold separator. cbn [startsWith].
  destruct (N.eqb_spec LF c) as [<-|_]; [done|]. by rewrite andb_false_r.
Qed.

Lemma indexOfFrom_skip line t k :
  LF ∉ line →
  indexOfFrom separator (line ++ t) k = indexOfFrom separator t (k + length line).
Proof.
  revert k. induction line as [|c line IH]; intros k Hl.
  - simpl. by rewrite Nat.add_0_r.
  - apply not_elem_of_cons in Hl as [Hc Hl].
    rewrite <- app_comm_cons, indexOfFrom_cons, startsWith_separator_ne by done.
    rewrite IH by done. f_equal. simpl. lia.
Qed.

Lemma indexOf_join lines k :
  lines ≠ [] → Forall (λ line, line ≠ [] ∧ (LF ∉ line)) lines →
  indexOfFrom separator (join [LF] lines ++ separator) k
  = Some (k + length (join [LF] lines))%nat.
Proof.
  revert k. induction lines as [|line lines IH]; [done|]. intros k _ Hall.
  apply Forall_cons in Hall as [[_ Hline] Hall].
  destruct lines as [|line2 lines].
  - simpl join. by rewrite indexOfFrom_skip.
  - change (join [LF] (line :: line2 :: lines))
      with (line ++ [LF] ++ join [LF] (line2 :: lines)).
    rewrite <- !app_assoc, indexOfFrom_skip by done.
    pose proof Hall as [[Hne Hl2] _]%Forall_cons.
    assert (∃ c rest, join [LF] (line2 :: lines) = c :: rest ∧ c ≠ LF)
      as (c & rest & Hj & Hc).
    { destruct line2 as [|c line2]; [done|].
      apply not_elem_of_cons in Hl2 as [Hc _].
      destruct lines; simpl; eauto. }
    specialize (IH (S (k + length line)) ltac:(done) Hall).
    rewrite Hj in *.
    change ([LF] ++ (c :: rest) ++ separator) with (LF :: c :: rest ++ separator).
    rewrite indexOfFrom_cons, startsWith_separator_LF by done.
    change ((c :: rest) ++ separator) with (c :: rest ++ separator) in IH.
    rewrite IH. f_equal. rewrite !length_app. simpl. lia.
Qed.

End PayloadFacts.

(** * The Frame Decoder: chunking, carriage returns, data lines *)

Module FrameDecoder.
Import SSE JSFacts SSEFacts Reader ReaderFacts PayloadFacts.

(** C2.  However the bytes of a stream are cut into chunks (inside a
    multi-byte character, inside the [data:] marker, inside the record
    separator), the read loop with its final flush produces the payloads
    it produces when the whole input comes as one chunk, in the same
    order. *)
Theorem chunking_invariance (stream : list chunk) :
  frame_decoder stream = frame_decoder [concat stream].
Proof.
  rewrite !frame_decoder_whole. unfold text_of. simpl. by rewrite app_nil_r.
Qed.

(** A stream cut inside the two bytes of U+00E9 and inside the separator. *)
Example cut_inside_character :
  frame_decoder [Example.bytes_of (lit "data: h" ++ [0xC3]%N);
                 Example.bytes_of [0xA9; 10]%N; Example.bytes_of [10]%N]
  = [lit "h" ++ [0xE9]%N].
Proof. vm_compute. reflexivity. Qed.

(** The same holds for every action the source runs on the payloads. *)
Lemma pump_chunking {A} (f : A → jsstring → A) stream acc :
  pump f stream TextDecoder.new [] acc = pump f [concat stream] TextDecoder.new [] acc.
Proof.
  rewrite !pump_fold, !frame_decoder_whole. unfold text_of. simpl.
  by rewrite app_nil_r.
Qed.

Lemma consumeSseEvents_payloads buffer :
  consumeSseEvents buffer =
  {| events := payloads (remove_CR buffer); buffer := residual (remove_CR buffer) |}.
Proof. unfold consumeSseEvents. by rewrite loop_snoc. Qed.

(** C10.  The payloads of a byte stream are those of its text with every
    carriage return deleted, wherever it stood, and no payload contains a
    carriage return; the same holds for [consumeSseEvents] on a buffer. *)
Theorem no_carriage_return (stream : list chunk) :
  frame_decoder stream
  = payloads (remove_CR (text_of TextDecoder.new stream) ++ separator)
  ∧ Forall (λ payload, CR ∉ payload) (frame_decoder stream)
  ∧ ∀ buffer, events (consumeSseEvents buffer) = payloads (remove_CR buffer)
              ∧ Forall (λ payload, CR ∉ payload) (events (consumeSseEvents buffer)).
Proof.
  split; [apply frame_decoder_whole|]. split.
  - rewrite frame_decoder_whole. apply payloads_clean.
    rewrite elem_of_app. intros [?|?]; [by eapply remove_CR_spec|].
    by repeat (apply elem_of_cons in H as [?|H]; [done|]); apply elem_of_nil in H.
  - intros buffer. rewrite consumeSseEvents_payloads. simpl. split; [done|].
    apply payloads_clean, remove_CR_spec.
Qed.

(** A carriage return inside the content of a payload is deleted too. *)
Example carriage_return_in_content :
  events (consumeSseEvents (lit "data: a" ++ [CR] ++ lit "b" ++ [CR; LF; CR; LF]))
  = [lit "ab"].
Proof. vm_compute. reflexivity. Qed.

Lemma trimStart_strip ws rest :
  forallb isWhiteSpace ws = true →
  (∀ c rest', rest = c :: rest' → isWhiteSpace c = false) →
  trimStart (ws ++ rest) = rest.
Proof.
  intros Hws Hrest. induction ws as [|w ws IH]; cbn [app trimStart].
  - destruct rest as [|c rest']; [done|]. cbn [trimStart]. by rewrite (Hrest c rest').
  - cbn [forallb] in Hws. apply andb_true_iff in Hws as [-> Hws]. auto.
Qed.

Lemma dataLines_of_filter lines :
  dataLines_of lines
  = map (λ line, trimStart (slice_from (length marker) line))
      (List.filter (startsWith marker) lines).
Proof.
  induction lines as [|line lines IH]; [done|].
  cbn [dataLines_of List.filter]. destruct (startsWith marker line); [|done].
  cbn [map]. by rewrite IH.
Qed.

(** C7 (amended).  A line that begins with the [data:] marker contributes
    the line with the marker and all the white space that follows it
    removed ([trimStart]); the other lines are dropped; a record of
    non-empty lines yields the contributions joined by line feeds as its
    one payload, and no event when none of its lines is a data line. *)
Theorem data_lines_trimmed (lines : list jsstring) :
  lines ≠ [] →
  Forall (λ line, line ≠ [] ∧ (LF ∉ line) ∧ (CR ∉ line)) lines →
  dataLines_of lines
  = map (λ line, trimStart (slice_from 5 line))
      (List.filter (startsWith marker) lines)
  ∧ consumeSseEvents (join [LF] lines ++ separator)
    = {| events := match dataLines_of lines with
                   | [] => []
                   | dataLines => [join [LF] dataLines]
                   end;
         buffer := [] |}
  ∧ ∀ ws rest,
      forallb isWhiteSpace ws = true →
      (∀ c rest', rest = c :: rest' → isWhiteSpace c = false) →
      dataLines_of [marker ++ ws ++ rest] = [rest].
Proof.
  intros Hne Hall. split; [apply dataLines_of_filter|]. split.
  - rewrite consumeSseEvents_payloads.
    assert (remove_CR (join [LF] lines ++ separator) = join [LF] lines ++ separator)
      as ->.
    { apply remove_CR_clean. rewrite elem_of_app.
      intros [[Hc|(line & Hline & Hc)]%elem_of_join|Hc].
      - by apply list_elem_of_singleton in Hc.
      - rewrite Forall_forall in Hall. by destruct (Hall line Hline) as (_ & _ & ?).
      - by repeat (apply elem_of_cons in Hc as [?|Hc]; [done|]); apply elem_of_nil in Hc. }
    assert (indexOf separator (join [LF] lines ++ separator)
            = Some (length (join [LF] lines))) as Hi.
    { apply (indexOf_join lines 0 Hne). eapply Forall_impl; [done|].
      by intros line (? & ? & ?). }
    rewrite payloads_unfold, residual_unfold, Hi.
    unfold slice_to, slice_from.
    rewrite take_app_length.
    rewrite drop_app_ge by lia.
    replace (length (join [LF] lines) + 2 - length (join [LF] lines))%nat
      with 2%nat by lia.
    rewrite payloads_unfold, residual_unfold. simpl.
    unfold payload_of. rewrite split_join.
    + by destruct (dataLines_of lines).
    + done.
    + eapply Forall_impl; [done|]. by intros line (? & ? & ?).
  - intros ws rest Hws Hrest. cbn [dataLines_of].
    assert (startsWith marker (marker ++ ws ++ rest) = true) as ->
      by (by apply startsWith_app).
    unfold slice_from. rewrite drop_app_length. by rewrite trimStart_strip.
Qed.

Lemma data_lines_trimmed_witness :
  events (consumeSseEvents
            (join [LF] [lit "data:   x"; lit "id: 5"; marker ++ [9; 32]%N ++ lit "y"]
             ++ separator))
  = [lit "x" ++ [LF] ++ lit "y"].
Proof.
  pose proof (data_lines_trimmed
                [lit "data:   x"; lit "id: 5"; marker ++ [9; 32]%N ++ lit "y"]) as Hw.
  destruct Hw as (_ & -> & _); [done | | reflexivity].
  repeat constructor; vm_compute; try done;
    intros Hin; repeat (apply elem_of_cons in Hin as [?|Hin]; [done|]);
    by apply elem_of_nil in Hin.
Defined.

(** C7, as stated, fails: after the marker the source removes every leading
    white space, not at most one space. *)
Lemma one_space_counterexample :
  dataLines_of [lit "data:   x"] = [lit "x"]
  ∧ Spec.data_line_payload (lit "data:   x") = lit "  x"
  ∧ dataLines_of [lit "data:   x"] ≠ [Spec.data_line_payload (lit "data:   x")].
Proof. vm_compute. repeat split; done. Qed.

End FrameDecoder.

(** * The message log *)

Module LogFacts.
Import ConversationDO.

Section log_facts.
Context `{Platform}.

Lemma fetch_GET st :
  fetch st GET_messages
  = (st, {| status := 200;
            text := Some (JSON_stringify (JArray (stored_messages st))) |}).
Proof. reflexivity. Qed.

Lemma fetch_append_empty st :
  fetch st (POST_append []) = (st, {| status := 400; text := Some (lit "Missing body") |}).
Proof. reflexivity. Qed.

Lemma fetch_append_invalid st body :
  body ≠ [] → JSON_parse body = None →
  fetch st (POST_append body) = (st, {| status := 400; text := Some (lit "Invalid JSON") |}).
Proof.
  intros Hne Hp. unfold fetch. simpl. rewrite Hp. by destruct body.
Qed.

Lemma fetch_append_parsed st body m :
  body ≠ [] → JSON_parse body = Some m →
  fetch st (POST_append body)
  = (<["messages"%string := stored_messages st ++ [m]]> st,
     {| status := 204; text := None |}).
Proof.
  intros Hne Hp. unfold fetch. simpl. rewrite Hp. by destruct body.
Qed.

Lemma stored_messages_insert st msgs :
  stored_messages (<["messages"%string := msgs]> st) = msgs.
Proof. unfold stored_messages. by rewrite lookup_insert_eq. Qed.

(** C9.  An append whose body is empty or is not JSON text is answered
    with status 400 and leaves the storage as it was; an append whose body
    parses to [m], whatever [m] is, is answered with 204, and the log read
    afterwards is the former log with [m] at its end. *)
Theorem append_contract (st : storage) (body : jsstring) :
  ((body = [] ∨ JSON_parse body = None) →
     status (fetch st (POST_append body)).2 = 400%N
     ∧ (fetch st (POST_append body)).1 = st)
  ∧ (∀ m, body ≠ [] → JSON_parse body = Some m →
       status (fetch st (POST_append body)).2 = 204%N
       ∧ stored_messages (fetch st (POST_append body)).1 = stored_messages st ++ [m]
       ∧ (fetch (fetch st (POST_append body)).1 GET_messages).2
         = {| status := 200;
              text := Some (JSON_stringify (JArray (stored_messages st ++ [m]))) |}).
Proof.
  split.
  - intros [->|Hp]; [by rewrite fetch_append_empty|].
    destruct body as [|c body]; [by rewrite fetch_append_empty|].
    by rewrite fetch_append_invalid.
  - intros m Hne Hp. rewrite (fetch_append_parsed _ _ m) by done.
    cbn [fst snd status]. by rewrite fetch_GET, stored_messages_insert.
Qed.

End log_facts.

#[local] Existing Instance Example.platform.

Lemma append_contract_witness :
  let bad := lit "{role: user}" in
  let good := json_text "{'role':'nobody','content':7}" in
  status (fetch ∅ (POST_append bad)).2 = 400%N
  ∧ (fetch ∅ (POST_append bad)).1 = ∅
  ∧ stored_messages (fetch ∅ (POST_append good)).1
    = [JObject [(lit "role", JString (lit "nobody"));
                (lit "content", JNumber (Example.number_of false 7))]].
Proof.
  intros bad good.
  destruct (append_contract ∅ bad) as [Hbad _].
  destruct (append_contract ∅ good) as [_ Hgood].
  destruct Hbad as [? ?]; [by right; vm_compute|].
  edestruct Hgood as (_ & ? & _); [done | by vm_compute |].
  done.
Defined.

End LogFacts.

(** * Delta extraction *)

Module DeltaFacts.
Import Conversion Delta.

Section delta_facts.
Context `{Platform}.

Lemma null_or_not (json : jsval) : json = JNull ∨ json ≠ JNull.
Proof. destruct json; auto. Qed.

Lemma response_of_spec json response :
  response_of json = Some response
  ↔ get json (lit "response") = Some (JString response) ∧ response ≠ [].
Proof.
  unfold response_of. split.
  - destruct (get json (lit "response")) as [[| | |[|c s]| |]|]; try done.
    by intros [= <-].
  - intros [-> Hne]. by destruct response.
Qed.

Lemma response_of_not_null json response : response_of json = Some response → json ≠ JNull.
Proof. by intros Hr ->. Qed.

Lemma content_of_response json response :
  response_of json = Some response → content_of json = Normal (JString response).
Proof.
  intros Hr. pose proof (response_of_not_null _ _ Hr).
  unfold content_of. rewrite Hr. by destruct json.
Qed.

Lemma content_of_choices json :
  json ≠ JNull → response_of json = None →
  content_of json
  = Normal (match choices_delta_content json with
            | Some v => if ToBoolean v then v else JString []
            | None => JString []
            end).
Proof.
  intros Hn Hr. unfold content_of. rewrite Hr.
  destruct json; try done; by destruct (choices_delta_content _).
Qed.

(** The two copies of the extraction, the one that only accumulates and
    the one that also sends, build the same reply. *)
Lemma accumulate_deliver text sent payload :
  accumulate text payload = (deliver (text, sent) payload).1.
Proof.
  unfold accumulate, deliver.
  destruct (decide (payload = DONE)); [done|].
  destruct (JSON_parse payload) as [json|]; [|done].
  destruct (null_or_not json) as [->|Hn]; [done|].
  destruct (response_of json) as [response|] eqn:Hr.
  - rewrite (content_of_response _ _ Hr).
    apply response_of_spec in Hr as [_ Hne].
    destruct json; try done; by destruct response.
  - rewrite (content_of_choices _ Hn Hr).
    destruct json; try done;
      (destruct (choices_delta_content _) as [v|]; [|done];
       by destruct (ToBoolean v) eqn:Hv; [rewrite Hv; destruct (throws v)|]).
Qed.

(** C5 (amended).  On a payload the extraction does, in this order: the
    sentinel gives no fragment and nothing else; it ends nothing, the
    payloads after it are treated like any other; text that does not parse
    gives no fragment; a string [response] of nonzero length is the
    fragment; else a [choices[0].delta.content] that is truthy is the
    fragment, which is dropped like text that does not parse when its
    conversion to a string throws; else there is none.  Both transports
    extract the same. *)
Theorem delta_rules (payload text : jsstring) (sent : list frame) :
  (payload = DONE → deliver (text, sent) payload = (text, sent))
  ∧ (payload ≠ DONE → JSON_parse payload = None →
       deliver (text, sent) payload = (text, sent))
  ∧ (∀ json response,
       payload ≠ DONE → JSON_parse payload = Some json →
       get json (lit "response") = Some (JString response) → response ≠ [] →
       deliver (text, sent) payload
       = (text ++ response, sent ++ [Delta (JString response)]))
  ∧ (∀ json v,
       payload ≠ DONE → JSON_parse payload = Some json →
       response_of json = None →
       choices_delta_content json = Some v → ToBoolean v = true →
       deliver (text, sent) payload
       = if throws v then (text, sent) else (text ++ ToString v, sent ++ [Delta v]))
  ∧ (∀ json,
       payload ≠ DONE → JSON_parse payload = Some json →
       response_of json = None → truthy (choices_delta_content json) = false →
       deliver (text, sent) payload = (text, sent))
  ∧ accumulate text payload = (deliver (text, sent) payload).1
  ∧ ∀ rest, foldl deliver (text, sent) (DONE :: rest) = foldl deliver (text, sent) rest.
Proof.
  split; [|split; [|split; [|split; [|split; [|split]]]]].
  - intros ->. unfold deliver. by rewrite decide_True.
  - intros Hd Hp. unfold deliver. by rewrite decide_False, Hp.
  - intros json response Hd Hp Hr Hne. unfold deliver.
    rewrite decide_False, Hp by done.
    rewrite (content_of_response json response) by by apply response_of_spec.
    by destruct response.
  - intros json v Hd Hp Hr Hc Hv. unfold deliver.
    rewrite decide_False, Hp by done.
    assert (json ≠ JNull) as Hn by (by intros ->).
    rewrite (content_of_choices _ Hn Hr), Hc, Hv, Hv. by destruct (throws v).
  - intros json Hd Hp Hr Hc. unfold deliver.
    rewrite decide_False, Hp by done.
    destruct (null_or_not json) as [->|Hn]; [done|].
    rewrite (content_of_choices _ Hn Hr).
    destruct (choices_delta_content json) as [v|]; [|done].
    simpl in Hc. by rewrite Hc.
  - apply accumulate_deliver.
  - intros rest. reflexivity.
Qed.

End delta_facts.

#[local] Existing Instance Example.platform.

Lemma delta_rules_witness :
  deliver (lit "Hel", [Delta (JString (lit "Hel"))]) (json_text "{'response':'lo'}")
  = (lit "Hello", [Delta (JString (lit "Hel")); Delta (JString (lit "lo"))])
  ∧ deliver ([], []) (json_text "{'choices':[{'delta':{'content':''}}]}") = ([], []).
Proof.
  pose proof (delta_rules (json_text "{'response':'lo'}") (lit "Hel")
                [Delta (JString (lit "Hel"))]) as (_ & _ & Hresponse & _).
  pose proof (delta_rules (json_text "{'choices':[{'delta':{'content':''}}]}") [] [])
    as (_ & _ & _ & _ & Hnone & _).
  split.
  - by eapply Hresponse; [| vm_compute | vm_compute |].
  - by eapply Hnone; [| vm_compute | vm_compute | vm_compute].
Defined.

(** C5, as stated, fails: the sentinel signals nothing, and a payload that
    follows it still yields its fragment. *)
Lemma sentinel_counterexample :
  let buffer := lit "data: [DONE]" ++ [LF; LF]
                ++ json_text "data: {'response':'x'}" ++ [LF; LF] in
  SSE.events (SSE.consumeSseEvents buffer) = [DONE; json_text "{'response':'x'}"]
  ∧ (flushBuffer buffer []).1 = (lit "x", [Delta (JString (lit "x"))])
  ∧ Spec.fragments (SSE.events (SSE.consumeSseEvents buffer)) = [].
Proof. vm_compute. repeat split; done. Qed.

(** A [content] that is present and falsy is no fragment either. *)
Example empty_content_no_delta :
  (flushBuffer (json_text "data: {'choices':[{'delta':{'content':''}}]}" ++ [LF; LF]) []).1
  = ([], []).
Proof. vm_compute. reflexivity. Qed.

End DeltaFacts.

(** * The canonical history *)

Module HistoryFacts.
Import Conversion Delta ConversationDO Worker LogFacts.

Section history_facts.
Context `{Platform} `{Inference}.

Lemma messages_of_stored st :
  messages_of st
  = {| status := 200; text := Some (JSON_stringify (JArray (stored_messages st))) |}.
Proof. reflexivity. Qed.

Lemma append_to_stored st msg :
  round_trips msg → stored_messages (append_to st msg) = stored_messages st ++ [msg].
Proof.
  intros [Hne Hp]. unfold append_to.
  rewrite (fetch_append_parsed _ _ msg) by done. apply stored_messages_insert.
Qed.

Lemma has_role_not_null role m :
  m ≠ JNull →
  has_role role m
  = Normal match get m (lit "role") with
           | Some (JString r) => bool_decide (r = role)
           | _ => false
           end.
Proof. by destruct m. Qed.

Lemma some_system_exists messages :
  JNull ∉ messages → some_system messages = Normal (existsb is_system messages).
Proof.
  induction messages as [|m messages IH]; [done|].
  intros [Hm Hrest]%not_elem_of_cons. cbn [some_system existsb].
  rewrite has_role_not_null by done. unfold bind, is_system at 1.
  destruct (get m (lit "role")) as [[| | |r| |]|]; simpl; auto.
  destruct (bool_decide (r = lit "system")); simpl; auto.
Qed.

Lemma ensure_system_prompt_spec messages :
  JNull ∉ messages →
  ensure_system_prompt messages
  = Normal (if existsb is_system messages then messages
            else system_message :: messages).
Proof. intros Hn. unfold ensure_system_prompt. by rewrite some_system_exists. Qed.

Lemma canonical_of_log st :
  round_trips (JArray (stored_messages st)) → JNull ∉ stored_messages st →
  canonical_messages (messages_of st)
  = Normal (if existsb is_system (stored_messages st) then stored_messages st
            else system_message :: stored_messages st).
Proof.
  intros [_ Hp] Hn. rewrite messages_of_stored. unfold canonical_messages, json_of.
  simpl. rewrite Hp. simpl. by apply ensure_system_prompt_spec.
Qed.

Lemma system_count_cons m messages :
  system_count (m :: messages)
  = ((if is_system m then 1 else 0) + system_count messages)%nat.
Proof. unfold system_count. simpl. by destruct (is_system m). Qed.

Lemma system_count_none messages :
  existsb is_system messages = false → system_count messages = 0%nat.
Proof.
  induction messages as [|m messages IH]; [done|]. simpl.
  intros [Hm Hrest]%orb_false_iff. rewrite system_count_cons, Hm. auto.
Qed.

Lemma system_count_some messages :
  existsb is_system messages = true → (1 ≤ system_count messages)%nat.
Proof.
  induction messages as [|m messages IH]; [done|]. simpl.
  rewrite system_count_cons. destruct (is_system m); simpl; [lia|]. intros. by apply IH.
Qed.

Lemma system_count_canonical messages :
  system_count (if existsb is_system messages then messages
                else system_message :: messages)
  = (1 `max` system_count messages)%nat.
Proof.
  destruct (existsb is_system messages) eqn:E.
  - apply system_count_some in E. lia.
  - rewrite system_count_cons, (system_count_none _ E). reflexivity.
Qed.

End history_facts.
End HistoryFacts.

(** * One run of the Turn Pipeline *)

Module TurnFacts.
Import Conversion Delta ConversationDO Worker Reader.
Import LogFacts HistoryFacts ReaderFacts DeltaFacts.

(** The fragments of a stream, in the order they are extracted. *)
Abbreviation fragments stream := (omap Delta.fragment_of (frame_decoder stream)).

Section turn_facts.
Context `{Platform} `{Inference}.

Lemma deliver_fragment text sent payload :
  deliver (text, sent) payload
  = match fragment_of payload with
    | Some content => (text ++ ToString content, sent ++ [Delta content])
    | None => (text, sent)
    end.
Proof.
  unfold deliver, fragment_of.
  destruct (decide (payload = DONE)); [done|].
  destruct (JSON_parse payload) as [json|]; [|done].
  destruct (content_of json) as [content|]; [|done].
  by destruct (ToBoolean content), (throws content).
Qed.

Lemma omap_cons {A B} (f : A → option B) x l :
  omap f (x :: l) = match f x with Some y => y :: omap f l | None => omap f l end.
Proof. reflexivity. Qed.

(** What [flushBuffer] has built and sent after a sequence of payloads. *)
Lemma deliver_all payloads text sent :
  foldl deliver (text, sent) payloads
  = (text ++ concat (map ToString (omap fragment_of payloads)),
     sent ++ map Delta (omap fragment_of payloads)).
Proof.
  revert text sent. induction payloads as [|payload payloads IH]; intros text sent.
  - simpl. by rewrite !app_nil_r.
  - cbn [foldl]. rewrite deliver_fragment, omap_cons.
    destruct (fragment_of payload) as [content|]; [|apply IH].
    rewrite IH. simpl. by rewrite <- !app_assoc.
Qed.

Lemma accumulate_all payloads text :
  foldl accumulate text payloads
  = text ++ concat (map ToString (omap fragment_of payloads)).
Proof.
  revert text. induction payloads as [|payload payloads IH]; intros text.
  - simpl. by rewrite app_nil_r.
  - cbn [foldl]. rewrite (accumulate_deliver text []), deliver_fragment, omap_cons.
    destruct (fragment_of payload) as [content|]; [|apply IH].
    rewrite IH. simpl. by rewrite <- !app_assoc.
Qed.

(** Tee fidelity on the duplex transport: the reply that is persisted is the
    concatenation of the fragments sent as [delta] frames, and [done]
    follows whether or not anything was persisted. *)
Lemma stream_reply_spec w stream :
  stream_reply w stream
  = send (persist (record w (map Sent (map Delta (fragments stream))))
            (concat (map ToString (fragments stream)))) Done.
Proof.
  unfold stream_reply. rewrite pump_fold, deliver_all. reflexivity.
Qed.

(** The background task of the pull transport would persist the same. *)
Lemma accumulateAndPersist_spec w stream :
  accumulateAndPersist w stream
  = persist w (concat (map ToString (fragments stream))).
Proof.
  unfold accumulateAndPersist. rewrite pump_fold, accumulate_all. reflexivity.
Qed.

Lemma persist_trace w text :
  trace (persist w text)
  = trace w ++ match text with
               | [] => []
               | _ => [Appended (message (lit "assistant") (Some (JString text)))]
               end.
Proof. destruct text; simpl; [by rewrite app_nil_r|done]. Qed.

Lemma persist_stored w text :
  round_trips (message (lit "assistant") (Some (JString text))) →
  stored_messages (DO (persist w text))
  = stored_messages (DO w)
    ++ match text with
       | [] => []
       | _ => [message (lit "assistant") (Some (JString text))]
       end.
Proof.
  intros Hrt. destruct text; simpl; [by rewrite app_nil_r|].
  by rewrite append_to_stored.
Qed.

Lemma stream_reply_trace w stream :
  trace (stream_reply w stream)
  = trace w ++ map Sent (map Delta (fragments stream))
    ++ match concat (map ToString (fragments stream)) with
       | [] => []
       | _ => [Appended (message (lit "assistant")
                           (Some (JString (concat (map ToString (fragments stream))))))]
       end
    ++ [Sent Done].
Proof.
  rewrite stream_reply_spec. unfold send, record. cbn [trace].
  rewrite persist_trace. cbn [trace]. by rewrite <- !app_assoc.
Qed.

(** The turn on a log that reads back as stored. *)
Lemma turn_spec w :
  let log := stored_messages (DO w) in
  let canonicalMessages :=
    if existsb is_system log then log else system_message :: log in
  round_trips (JArray log) → JNull ∉ log →
  turn w
  = match AI_run canonicalMessages with
    | Throw e => send (record w [AiRun canonicalMessages]) (Error e)
    | Normal aiStream => stream_reply (record w [AiRun canonicalMessages]) aiStream
    end.
Proof.
  intros log canonicalMessages Hrt Hn. unfold turn.
  by rewrite canonical_of_log.
Qed.

End turn_facts.
End TurnFacts.

(** * The handlers *)

Module HandlerFacts.
Import Conversion Delta ConversationDO Worker Reader.
Import LogFacts HistoryFacts ReaderFacts DeltaFacts TurnFacts.

Section handler_facts.
Context `{Platform} `{Inference}.

Lemma typed_truthy data type :
  get data (lit "type") = Some type → ToBoolean data = true.
Proof. by destruct data. Qed.

Lemma handle_user_message w s data :
  JSON_parse s = Some data →
  get data (lit "type") = Some (JString (lit "user_message")) →
  handle w (Text s)
  = {| session_of := turn (append (session_of w)
                             (message (lit "user") (get data (lit "content"))));
       audioBuffers := audioBuffers w |}.
Proof.
  intros Hp Ht. unfold handle. by rewrite Hp, (typed_truthy _ _ Ht), Ht.
Qed.

Lemma handle_audio_end w s data :
  JSON_parse s = Some data →
  get data (lit "type") = Some (JString (lit "audio_end")) →
  handle w (Text s)
  = let placeholder := placeholder_of (totalLen_of (audioBuffers w)) in
    {| session_of :=
         turn (send (append (session_of w)
                       (message (lit "user") (Some (JString placeholder))))
                 (Transcript placeholder));
       audioBuffers := [] |}.
Proof.
  intros Hp Ht. unfold handle. by rewrite Hp, (typed_truthy _ _ Ht), Ht.
Qed.

Lemma append_to_extends st msg :
  ∃ tail, stored_messages (append_to st msg) = stored_messages st ++ tail.
Proof.
  unfold append_to, fetch. simpl.
  destruct (JSON_stringify msg) as [|c body] eqn:E; simpl.
  - exists []. by rewrite app_nil_r.
  - destruct (JSON_parse (c :: body)) as [m|]; simpl.
    + exists [m]. apply stored_messages_insert.
    + exists []. by rewrite app_nil_r.
Qed.

(** A turn only adds to the trace and to the log. *)
Lemma turn_extends w :
  ∃ rest tail,
    trace (turn w) = trace w ++ rest
    ∧ stored_messages (DO (turn w)) = stored_messages (DO w) ++ tail.
Proof.
  unfold turn.
  destruct (canonical_messages _) as [canonical|e].
  2: { exists [Sent (Error e)], []. by rewrite app_nil_r. }
  destruct (AI_run canonical) as [stream|e].
  2: { exists [AiRun canonical; Sent (Error e)], []. simpl.
       by rewrite <- app_assoc, app_nil_r. }
  rewrite stream_reply_spec.
  set (text := concat _). set (sent := map Sent _).
  destruct (append_to_extends (DO w) (message (lit "assistant") (Some (JString text))))
    as [tail Htail].
  destruct text as [|c text].
  - exists ([AiRun canonical] ++ sent ++ [Sent Done]), []. simpl.
    by rewrite <- !app_assoc, app_nil_r.
  - eexists ([AiRun canonical] ++ sent ++ [Appended _; Sent Done]), tail. simpl.
    by rewrite <- !app_assoc.
Qed.

Lemma exists_system_count log :
  existsb is_system log = true ↔ system_count log ≠ 0%nat.
Proof.
  split.
  - intros E%system_count_some. lia.
  - intros Hc. destruct (existsb is_system log) eqn:E; [done|].
    by apply system_count_none in E.
Qed.

Lemma assistant_not_system text :
  is_system (message (lit "assistant") (Some (JString text))) = false.
Proof. reflexivity. Qed.

(** C4 (amended).  The history passed to the inference call is the stored
    history itself when that holds a system message, every one of them
    kept, and the default system message followed by the stored history
    when it holds none: it has max(1, k) system messages for k stored
    ones.  The turn makes this one inference call, and nothing it appends
    to the log is a system message.  The pull handler passes the same
    history. *)
Theorem canonical_history (w : session) :
  let log := stored_messages (DO w) in
  round_trips (JArray log) → JNull ∉ log →
  let canonical := if existsb is_system log then log else system_message :: log in
  (∃ rest,
     trace (turn w) = trace w ++ AiRun canonical :: rest
     ∧ Forall (λ e, is_AiRun e = false
                    ∧ ∀ m, e = Appended m → is_system m = false) rest)
  ∧ system_count canonical = (1 `max` system_count log)%nat
  ∧ (system_count log = 0%nat → canonical = system_message :: log)
  ∧ (system_count log ≠ 0%nat → canonical = log)
  ∧ (∀ requestBody w0,
       append_last_user w0 requestBody = Normal w →
       trace (handleChatRequest w0 requestBody).1 = trace w ++ [AiRun canonical]
       ∧ DO (handleChatRequest w0 requestBody).1 = DO w).
Proof.
  intros log Hrt Hn canonical. split; [|split; [|split; [|split]]].
  - rewrite turn_spec by done. fold log. fold canonical.
    destruct (AI_run canonical) as [stream|e].
    + rewrite stream_reply_trace. cbn [record trace].
      eexists. split; [by rewrite <- app_assoc|].
      rewrite !Forall_app. split; [|split].
      * rewrite Forall_map. apply Forall_true. by intros c.
      * destruct (concat _); [done|]. apply Forall_singleton. split; [done|].
        intros m [= <-]. apply assistant_not_system.
      * by apply Forall_singleton.
    + exists [Sent (Error e)]. split.
      * cbn [send record trace]. by rewrite <- app_assoc.
      * by apply Forall_singleton.
  - apply system_count_canonical.
  - intros Hc. unfold canonical.
    destruct (existsb is_system log) eqn:E; [|done].
    by apply exists_system_count in E.
  - intros Hc%exists_system_count. unfold canonical. by rewrite Hc.
  - intros requestBody w0 Hw. unfold handleChatRequest. rewrite Hw.
    rewrite canonical_of_log by done. fold log. fold canonical.
    by destruct (AI_run canonical).
Qed.

(** Tee fidelity of a whole duplex turn: the frames sent are the fragments
    of the stream, in order, then [done]; the reply appended to the log is
    their concatenation, and it is appended exactly when it is not empty. *)
Lemma duplex_turn_fidelity w s data stream :
  JSON_parse s = Some data →
  get data (lit "type") = Some (JString (lit "user_message")) →
  let msg := message (lit "user") (get data (lit "content")) in
  let log := stored_messages (DO (session_of w)) ++ [msg] in
  let canonical := if existsb is_system log then log else system_message :: log in
  let text := concat (map ToString (fragments stream)) in
  let reply := message (lit "assistant") (Some (JString text)) in
  round_trips msg → round_trips (JArray log) → JNull ∉ log → round_trips reply →
  AI_run canonical = Normal stream →
  trace (session_of (handle w (Text s)))
  = trace (session_of w) ++ [Appended msg; AiRun canonical]
    ++ map Sent (map Delta (fragments stream))
    ++ match text with [] => [] | _ => [Appended reply] end
    ++ [Sent Done]
  ∧ stored_messages (DO (session_of (handle w (Text s))))
    = log ++ match text with [] => [] | _ => [reply] end.
Proof.
  intros Hp Ht msg log canonical text reply Hmsg Hlog Hn Hreply Hrun.
  rewrite (handle_user_message _ _ data) by done. cbn [session_of]. fold msg.
  assert (stored_messages (DO (append (session_of w) msg)) = log) as Hstored
    by (by apply append_to_stored).
  rewrite turn_spec; rewrite Hstored; [|done..].
  fold canonical. rewrite Hrun. split.
  - rewrite stream_reply_trace. cbn [record append trace]. fold text. fold reply.
    by rewrite <- !app_assoc.
  - rewrite stream_reply_spec. cbn [send record DO]. fold text.
    rewrite persist_stored by done. cbn [record DO]. by rewrite Hstored.
Qed.

(** C6 (amended).  A text frame that is not JSON text is answered by one
    [error] frame carrying the parse error; the log, the audio chunks and
    the invocations in flight stay as they are, and the frames around it are
    handled as usual. *)
Theorem malformed_frame_answered (c : conn) (s : jsstring) :
  JSON_parse s = None →
  step c (Arrive (Text s))
  = {| shared := {| session_of := send (session_of (shared c)) (Error (SyntaxError s));
                    audioBuffers := audioBuffers (shared c) |};
       tasks := tasks c |}
  ∧ (∀ w, handle w (Text s)
          = {| session_of := send (session_of w) (Error (SyntaxError s));
               audioBuffers := audioBuffers w |})
  ∧ (∀ w before after,
       handle_all w (before ++ Text s :: after)
       = handle_all (handle (handle_all w before) (Text s)) after).
Proof.
  intros Hp. split; [|split].
  - unfold step, on_message. rewrite Hp. simpl. by rewrite app_nil_r.
  - intros w. unfold handle. by rewrite Hp.
  - intros w before after. unfold handle_all. by rewrite foldl_app.
Qed.

Lemma combined_of_concat buffers : combined_of buffers = concat buffers.
Proof.
  unfold combined_of.
  cut (∀ acc, foldl (λ combined b, combined ++ b) acc buffers = acc ++ concat buffers).
  { intros Hc. apply (Hc []). }
  induction buffers as [|b buffers IH]; intros acc; simpl.
  - by rewrite app_nil_r.
  - by rewrite IH, app_assoc.
Qed.

(** C8.  Three binary chunks of 4, 4 and 2 bytes and then an [audio_end]
    frame, on a connection with no chunk pending: the chunks are buffered
    and merged in arrival order into one blob of 10 bytes, the placeholder
    that mentions 10 bytes is appended to the log as a user message and
    sent as the [transcript] frame, and no chunk is left in the buffer. *)
Theorem audio_scenario (w : world) (b1 b2 b3 : list Byte.byte)
    (s : jsstring) (data : jsval) :
  audioBuffers w = [] →
  length b1 = 4%nat → length b2 = 4%nat → length b3 = 2%nat →
  JSON_parse s = Some data →
  get data (lit "type") = Some (JString (lit "audio_end")) →
  let placeholder := lit "[Audio received 10 bytes] (transcription not configured)" in
  let transcript := message (lit "user") (Some (JString placeholder)) in
  round_trips transcript →
  let w' := handle_all w [Binary b1; Binary b2; Binary b3; Text s] in
  audioBuffers (handle_all w [Binary b1; Binary b2; Binary b3]) = [b1; b2; b3]
  ∧ combined_of [b1; b2; b3] = b1 ++ b2 ++ b3
  ∧ length (combined_of [b1; b2; b3]) = 10%nat
  ∧ totalLen_of [b1; b2; b3] = 10%N
  ∧ (∃ rest,
       trace (session_of w')
       = trace (session_of w)
         ++ Appended transcript :: Sent (Transcript placeholder) :: rest)
  ∧ (∃ tail,
       stored_messages (DO (session_of w'))
       = stored_messages (DO (session_of w)) ++ transcript :: tail)
  ∧ audioBuffers w' = [].
Proof.
  intros Hempty H1 H2 H3 Hp Ht placeholder transcript Hrt w'.
  assert (totalLen_of [b1; b2; b3] = 10%N) as Hlen.
  { unfold totalLen_of. simpl. rewrite H1, H2, H3. reflexivity. }
  split; [|split; [|split; [|split; [done|]]]].
  - unfold handle_all. cbn [foldl handle audioBuffers]. by rewrite Hempty.
  - rewrite combined_of_concat. simpl. by rewrite app_nil_r.
  - rewrite combined_of_concat. simpl. rewrite !length_app, H1, H2, H3. reflexivity.
  - subst w'. unfold handle_all. cbn [foldl].
    rewrite (handle_audio_end _ s data) by done.
    cbn [handle audioBuffers session_of]. rewrite Hempty. cbn [app].
    rewrite Hlen.
    change (placeholder_of 10) with placeholder. cbv zeta. cbn [session_of audioBuffers].
    fold transcript.
    set (w1 := send (append (session_of w) transcript) (Transcript placeholder)).
    destruct (turn_extends w1) as (rest & tail & Htrace & Hlog).
    split; [|split; [|done]].
    + exists rest. rewrite Htrace. subst w1. cbn [send record append trace].
      by rewrite <- !app_assoc.
    + exists tail. rewrite Hlog. subst w1. cbn [send record append DO].
      rewrite append_to_stored by done. by rewrite <- app_assoc.
Qed.

Lemma filter_user_role messages users :
  filter_user messages = Normal users →
  Forall (λ m, has_role (lit "user") m = Normal true) users.
Proof.
  revert users. induction messages as [|m messages IH]; intros users; cbn [filter_user].
  - by intros [= <-].
  - destruct (has_role (lit "user") m) as [keep|] eqn:Hm; [|done]. cbn [bind].
    destruct (filter_user messages) as [kept|]; [|done]. cbn [bind].
    intros [= <-]. specialize (IH kept eq_refl).
    destruct keep; [by constructor|done].
Qed.

Lemma append_last_user_cases w requestBody w1 :
  append_last_user w requestBody = Normal w1 →
  w1 = w ∨ ∃ m, has_role (lit "user") m = Normal true ∧ w1 = append w m.
Proof.
  unfold append_last_user.
  destruct (request_messages requestBody) as [v|]; [|done]. cbn [bind].
  destruct (as_array v) as [messages|]; [|done]. cbn [bind].
  destruct (ensure_system_prompt messages) as [messages'|]; [|done]. cbn [bind].
  destruct (filter_user messages') as [users|] eqn:Hu; [|done]. cbn [bind].
  apply filter_user_role in Hu.
  destruct (last users) as [lastUser|] eqn:Hl; [|intros [= <-]; by left].
  intros Heq. assert (w1 = if ToBoolean lastUser then append w lastUser else w)
    as -> by congruence. clear Heq.
  destruct (ToBoolean lastUser); [|by left].
  right. exists lastUser. split; [|done].
  apply last_Some in Hl as [users' ->].
  apply Forall_app in Hu as [_ Hu]. by inversion Hu.
Qed.

(** Whatever the request and the stream, the pull handler answers with
    status 500, sends nothing, and the one message it may append is a user
    message of the request: no reply is ever persisted on this path. *)
Lemma handleChatRequest_fails w requestBody :
  (handleChatRequest w requestBody).2 = failure
  ∧ ∃ events,
      trace (handleChatRequest w requestBody).1 = trace w ++ events
      ∧ Forall (λ e, match e with
                     | Appended m => has_role (lit "user") m = Normal true
                     | AiRun _ => True
                     | Sent _ => False
                     end) events.
Proof.
  unfold handleChatRequest.
  destruct (append_last_user w requestBody) as [w1|] eqn:Hw.
  2: { split; [done|]. exists []. by rewrite app_nil_r. }
  assert (∃ events,
            trace w1 = trace w ++ events
            ∧ Forall (λ e, match e with
                           | Appended m => has_role (lit "user") m = Normal true
                           | AiRun _ => True
                           | Sent _ => False
                           end) events) as (events & Htrace & Hevents).
  { destruct (append_last_user_cases _ _ _ Hw) as [->|(m & Hm & ->)].
    - exists []. by rewrite app_nil_r.
    - exists [Appended m]. split; [done|]. by apply Forall_singleton. }
  destruct (canonical_messages _) as [canonical|]; [|by eauto].
  assert (∃ events',
            trace (record w1 [AiRun canonical]) = trace w ++ events'
            ∧ Forall (λ e, match e with
                           | Appended m => has_role (lit "user") m = Normal true
                           | AiRun _ => True
                           | Sent _ => False
                           end) events') as Hrecord.
  { exists (events ++ [AiRun canonical]). cbn [record trace].
    rewrite Htrace, <- app_assoc. split; [done|].
    apply Forall_app. split; [done|]. by apply Forall_singleton. }
  by destruct (AI_run canonical).
Qed.

Lemma step_resume c i t :
  tasks c !! i = Some t →
  step c (Resume i)
  = {| shared := (resume (shared c) t).1;
       tasks := match (resume (shared c) t).2 with
                | Some t' => <[i := t']> (tasks c)
                | None => delete i (tasks c)
                end |}.
Proof. intros Hi. unfold step. rewrite Hi. by destruct (resume (shared c) t). Qed.

(** C3 (amended).  The listener keeps no connection state: a
    [user_message] frame starts a new invocation whatever invocations are
    in flight; resumed from its append and from its read of the log, that
    invocation makes its inference call, provided the log reads back as it
    is stored and holds no [null]; a binary frame is buffered and touches
    nothing else. *)
Theorem no_turn_guard (c : conn) :
  (∀ s data,
     JSON_parse s = Some data →
     get data (lit "type") = Some (JString (lit "user_message")) →
     step c (Arrive (Text s))
     = {| shared :=
            {| session_of := append (session_of (shared c))
                               (message (lit "user") (get data (lit "content")));
               audioBuffers := audioBuffers (shared c) |};
          tasks := tasks c ++ [AwaitAppend] |})
  ∧ (∀ i,
       tasks c !! i = Some AwaitAppend →
       let log := stored_messages (DO (session_of (shared c))) in
       round_trips (JArray log) → JNull ∉ log →
       ∃ canonical,
         trace (session_of (shared (run c [Resume i; Resume i])))
         = trace (session_of (shared c)) ++ [AiRun canonical]
         ∧ tasks (run c [Resume i; Resume i])
           = <[i := AwaitRun (AI_run canonical)]> (tasks c))
  ∧ (∀ buf,
       step c (Arrive (Binary buf))
       = {| shared := {| session_of := session_of (shared c);
                         audioBuffers := audioBuffers (shared c) ++ [buf] |};
            tasks := tasks c |}).
Proof.
  split; [|split].
  - intros s data Hp Ht. unfold step, on_message.
    by rewrite Hp, (typed_truthy _ _ Ht), Ht.
  - intros i Hi log Hrt Hn.
    exists (if existsb is_system log then log else system_message :: log).
    set (canonical := if existsb is_system log then log else system_message :: log).
    unfold run. cbn [foldl].
    assert (step c (Resume i)
            = {| shared := {| session_of := session_of (shared c);
                              audioBuffers := audioBuffers (shared c) |};
                 tasks := <[i := AwaitMessages (messages_of (DO (session_of (shared c))))]>
                            (tasks c) |}) as ->.
    { by rewrite (step_resume c i AwaitAppend Hi). }
    assert (∀ a l, (i < length l)%nat →
              step {| shared := {| session_of := session_of (shared c);
                                   audioBuffers := a |};
                      tasks := <[i := AwaitMessages (messages_of (DO (session_of (shared c))))]> l |}
                (Resume i)
              = {| shared := {| session_of := record (session_of (shared c)) [AiRun canonical];
                                audioBuffers := a |};
                   tasks := <[i := AwaitRun (AI_run canonical)]> l |}) as ->.
    { intros a l Hl. erewrite step_resume; [|by apply list_lookup_insert_eq].
      unfold resume. cbn [continue shared session_of tasks].
      rewrite canonical_of_log by done. fold log. fold canonical.
      cbn [fst snd]. by rewrite list_insert_insert_eq. }
    + done.
    + by eapply lookup_lt_Some.
  - intros buf. unfold step, on_message. cbn. by rewrite app_nil_r.
Qed.

End handler_facts.

Import Example.
#[local] Existing Instance Example.platform.

(** The scenario of the specification: the log is empty, the client sends
    "Hi", the stream carries "Hel", "lo" and the sentinel. *)
Example hello_scenario :
  let w := handle (H0 := answering hello_stream) (connection fresh_session)
             (Text user_message_Hi) in
  List.filter (λ e, negb (is_AiRun e)) (trace (session_of w))
  = [Appended (user "Hi");
     Sent (Delta (JString (lit "Hel"))); Sent (Delta (JString (lit "lo")));
     Appended (assistant "Hello"); Sent Done]
  ∧ stored_messages (DO (session_of w)) = [user "Hi"; assistant "Hello"].
Proof. vm_compute. split; reflexivity. Qed.

(** C1: on the pull transport no turn persists its reply.  The request
    carries "Hi" and the stream answers "Hello": the handler appends the
    user message, calls the inference binding, and answers with status
    500; the log holds no assistant message, while the background task
    would have appended "Hello" to it. *)
Theorem pull_turn_not_persisted :
  let request := json_text "{'messages':[{'role':'user','content':'Hi'}]}" in
  let result := handleChatRequest (H0 := answering hello_stream) fresh_session request in
  status result.2 = 500%N
  ∧ trace result.1 = [Appended (user "Hi"); AiRun [system_message; user "Hi"]]
  ∧ stored_messages (DO result.1) = [user "Hi"]
  ∧ stored_messages (DO (accumulateAndPersist result.1 hello_stream))
    = [user "Hi"; assistant "Hello"].
Proof. vm_compute. repeat split; reflexivity. Qed.

Lemma canonical_history_witness :
  ∃ rest,
    trace (turn (H0 := answering hello_stream) (session_with [user "Hi"]))
    = AiRun [system_message; user "Hi"] :: rest.
Proof.
  destruct (canonical_history (H0 := answering hello_stream) (session_with [user "Hi"]))
    as [(rest & Hrest & _) _].
  - split; [done | by vm_compute].
  - intros Hin. by apply list_elem_of_singleton in Hin.
  - exists rest. exact Hrest.
Defined.

(** C4, as stated, fails: two stored system messages both reach the
    inference call. *)
Lemma two_system_messages_counterexample :
  let w := handle (H0 := answering hello_stream)
             (connection (session_with [system "A"; system "B"]))
             (Text user_message_Hi) in
  take 2 (trace (session_of w))
  = [Appended (user "Hi"); AiRun [system "A"; system "B"; user "Hi"]]
  ∧ system_count [system "A"; system "B"; user "Hi"] = 2%nat.
Proof. vm_compute. split; reflexivity. Qed.

Lemma malformed_frame_answered_witness :
  trace (session_of (handle (H0 := answering hello_stream)
                       (connection fresh_session) (Text (lit "not json"))))
  = [Sent (Error (SyntaxError (lit "not json")))].
Proof.
  destruct (malformed_frame_answered (H0 := answering hello_stream)
              {| shared := connection fresh_session; tasks := [] |} (lit "not json"))
    as (_ & Hhandle & _); [by vm_compute|].
  by rewrite Hhandle.
Defined.

(** C6, as stated, fails: a frame that is not JSON text is answered. *)
Lemma malformed_frame_counterexample :
  JSON_parse (lit "not json") = None
  ∧ trace (session_of (handle (H0 := answering hello_stream)
                         (connection fresh_session) (Text (lit "not json"))))
    = [Sent (Error (SyntaxError (lit "not json")))]
  ∧ trace (session_of (handle (H0 := answering hello_stream)
                         (connection fresh_session) (Text (lit "not json"))))
    ≠ trace (session_of (connection fresh_session)).
Proof. vm_compute. repeat split; done. Qed.

Lemma audio_scenario_witness :
  audioBuffers
    (handle_all (H0 := answering hello_stream) (connection fresh_session)
       [Binary (bytes_of (lit "RIFF")); Binary (bytes_of (lit "WAVE"));
        Binary (bytes_of (lit "fm")); Text audio_end]) = [].
Proof.
  edestruct (audio_scenario (H0 := answering hello_stream) (connection fresh_session)
               (bytes_of (lit "RIFF")) (bytes_of (lit "WAVE"))
               (bytes_of (lit "fm")) audio_end)
    as (_ & _ & _ & _ & _ & _ & Hbuffers);
    [reflexivity | reflexivity | reflexivity | reflexivity
    | vm_compute; reflexivity | vm_compute; reflexivity
    | split; [done | by vm_compute]
    | exact Hbuffers].
Defined.

Lemma no_turn_guard_witness :
  tasks (step (H0 := answering hello_stream)
           {| shared := connection fresh_session; tasks := [AwaitPersist] |}
           (Arrive (Text user_message_Hi)))
  = [AwaitPersist; AwaitAppend].
Proof.
  destruct (no_turn_guard (H0 := answering hello_stream)
              {| shared := connection fresh_session; tasks := [AwaitPersist] |})
    as (Harrive & _ & _).
  by erewrite Harrive; [| by vm_compute | by vm_compute].
Defined.

(** C3, as stated, fails: two [user_message] frames in a row start two
    invocations, and both inference calls are made before either turn has
    ended. *)
Lemma second_turn_counterexample :
  let c := run (H0 := answering hello_stream)
             {| shared := connection fresh_session; tasks := [] |}
             [Arrive (Text user_message_Hi); Arrive (Text user_message_Hi);
              Resume 0; Resume 1; Resume 0; Resume 1] in
  started (trace (session_of (shared c))) = 2%nat
  ∧ ended (trace (session_of (shared c))) = 0%nat
  ∧ length (tasks c) = 2%nat.
Proof. vm_compute. repeat split; reflexivity. Qed.

End HandlerFacts.

(** * The scheduled listener, run without interleaving, is [handle] *)

Module ScheduleFacts.
Import Conversion Delta ConversationDO Worker Reader.
Import SSEFacts ReaderFacts TurnFacts HandlerFacts.

Section schedule_facts.
Context `{Platform} `{Inference}.

Lemma run_idle w m :
  run {| shared := w; tasks := [] |} (replicate m (Resume 0))
  = {| shared := w; tasks := [] |}.
Proof. induction m as [|m IH]; [done|]. exact IH. Qed.

Lemma run_cons c l schedule : run c (l :: schedule) = run (step c l) schedule.
Proof. reflexivity. Qed.

Lemma step_only s a t :
  step {| shared := {| session_of := s; audioBuffers := a |}; tasks := [t] |} (Resume 0)
  = {| shared := {| session_of := (continue s t).1;
                    audioBuffers := match t with
                                    | AwaitTranscriptAppend _ => []
                                    | _ => a
                                    end |};
       tasks := match (continue s t).2 with Some t' => [t'] | None => [] end |}.
Proof.
  rewrite (step_resume _ 0 t) by done. unfold resume. cbn [shared session_of audioBuffers tasks].
  destruct (continue s t) as [s' [t'|]]; reflexivity.
Qed.

Lemma record_record w l1 l2 : record (record w l1) l2 = record w (l1 ++ l2).
Proof. unfold record. simpl. by rewrite app_assoc. Qed.

(** [flushBuffer] from frames already sent. *)
Lemma consume_deliver buffer text sent :
  consume deliver buffer (text, sent)
  = let '((text', sent'), buffer') := flushBuffer buffer text in
    ((text', sent ++ sent'), buffer').
Proof.
  unfold flushBuffer, consume. rewrite !(loop_fold deliver), !deliver_all. reflexivity.
Qed.

Lemma pump_deliver reader decoder buffer text sent :
  pump deliver reader decoder buffer (text, sent)
  = let '(text', sent') := pump deliver reader decoder buffer (text, []) in
    (text', sent ++ sent').
Proof.
  revert decoder buffer text sent.
  induction reader as [|value reader IH]; intros decoder buffer text sent; cbn [pump].
  - rewrite (consume_deliver _ text sent), (consume_deliver _ text []).
    by destruct (flushBuffer _ text) as [[text' sent'] buffer'].
  - destruct (TextDecoder.decode decoder value) as [decoder' decoded].
    rewrite (consume_deliver _ text sent), (consume_deliver _ text []).
    destruct (flushBuffer _ text) as [[text' sent'] buffer']. cbn [app].
    rewrite (IH _ _ text' (sent ++ sent')), (IH _ _ text' sent').
    destruct (pump deliver reader decoder' buffer' (text', [])) as [text'' sent''].
    by rewrite app_assoc.
Qed.

(** The end of a turn, from the reply and the frames the read loop built. *)
Abbreviation close s result :=
  (send (persist (record s (map Sent result.2)) result.1) Done).

Lemma drain_read reader decoder buffer text s a :
  ∃ n, ∀ m, (n ≤ m)%nat →
    run {| shared := {| session_of := s; audioBuffers := a |};
           tasks := [AwaitRead reader decoder buffer text] |}
      (replicate m (Resume 0))
    = {| shared := {| session_of := close s (pump deliver reader decoder buffer (text, []));
                      audioBuffers := a |};
         tasks := [] |}.
Proof.
  revert decoder buffer text s.
  induction reader as [|value reader IH]; intros decoder buffer text s.
  - exists 2%nat. intros [|[|m]] Hm; [lia..|].
    cbn [replicate]. rewrite run_cons, step_only. cbn [continue pump].
    rewrite (consume_deliver _ text []).
    destruct (flushBuffer (buffer ++ SSE.separator) text) as [[text' sent'] buffer'].
    cbn [fst snd app]. destruct text' as [|c text'].
    + cbn [fst snd option_list]. exact (run_idle _ (S m)).
    + cbn [fst snd option_list]. rewrite run_cons, step_only. cbn [continue fst snd option_list].
      apply run_idle.
  - cbn [pump].
    destruct (TextDecoder.decode decoder value) as [decoder' decoded] eqn:Hd.
    rewrite (consume_deliver _ text []).
    destruct (flushBuffer (buffer ++ decoded) text) as [[text' sent'] buffer'] eqn:Hf.
    destruct (IH decoder' buffer' text' (record s (map Sent sent'))) as [n Hn].
    exists (S n). intros [|m] Hm; [lia|].
    cbn [replicate]. rewrite run_cons, step_only. cbn [continue].
    rewrite Hd, Hf. cbn [fst snd option_list app]. rewrite Hn by lia.
    rewrite (pump_deliver _ _ _ text' sent').
    destruct (pump deliver reader decoder' buffer' (text', [])) as [text'' sent''].
    cbn [fst snd]. by rewrite map_app, record_record.
Qed.

Lemma stream_reply_close w stream :
  stream_reply w stream = close w (pump deliver stream TextDecoder.new [] ([], [])).
Proof. unfold stream_reply. by destruct (pump _ _ _ _ _). Qed.

Lemma drain_messages messagesRes s a :
  ∃ n, ∀ m, (n ≤ m)%nat →
    run {| shared := {| session_of := s; audioBuffers := a |};
           tasks := [AwaitMessages messagesRes] |}
      (replicate m (Resume 0))
    = {| shared :=
           {| session_of :=
                match canonical_messages messagesRes with
                | Throw e => send s (Error e)
                | Normal canonicalMessages =>
                    match AI_run canonicalMessages with
                    | Throw e => send (record s [AiRun canonicalMessages]) (Error e)
                    | Normal aiStream =>
                        stream_reply (record s [AiRun canonicalMessages]) aiStream
                    end
                end;
              audioBuffers := a |};
         tasks := [] |}.
Proof.
  destruct (canonical_messages messagesRes) as [canonical|e] eqn:Hc.
  2: { exists 1%nat. intros [|m] Hm; [lia|]. cbn [replicate].
       rewrite run_cons, step_only. cbn [continue]. rewrite Hc. apply run_idle. }
  destruct (AI_run canonical) as [stream|e] eqn:Hr.
  2: { exists 2%nat. intros [|[|m]] Hm; [lia..|]. cbn [replicate].
       rewrite run_cons, step_only. cbn [continue]. rewrite Hc. cbn [fst snd].
       rewrite run_cons, step_only. rewrite Hr. apply run_idle. }
  destruct (drain_read stream TextDecoder.new [] [] (record s [AiRun canonical]) a)
    as [n Hn].
  exists (S (S n)). intros [|[|m]] Hm; [lia..|]. cbn [replicate].
  rewrite run_cons, step_only. cbn [continue]. rewrite Hc. cbn [fst snd].
  rewrite run_cons, step_only. rewrite Hr. cbn [continue fst snd].
  rewrite Hn by lia. by rewrite stream_reply_close.
Qed.

Lemma drain_turn s a :
  ∃ n, ∀ m, (n ≤ m)%nat →
    run {| shared := {| session_of := s; audioBuffers := a |}; tasks := [AwaitAppend] |}
      (replicate m (Resume 0))
    = {| shared := {| session_of := turn s; audioBuffers := a |}; tasks := [] |}.
Proof.
  destruct (drain_messages (messages_of (DO s)) s a) as [n Hn].
  exists (S n). intros [|m] Hm; [lia|]. cbn [replicate].
  rewrite run_cons, step_only. cbn [continue fst snd]. by rewrite Hn by lia.
Qed.

Lemma drain_transcript placeholder s a :
  ∃ n, ∀ m, (n ≤ m)%nat →
    run {| shared := {| session_of := s; audioBuffers := a |};
           tasks := [AwaitTranscriptAppend placeholder] |}
      (replicate m (Resume 0))
    = {| shared := {| session_of := turn (send s (Transcript placeholder));
                      audioBuffers := [] |};
         tasks := [] |}.
Proof.
  destruct (drain_messages (messages_of (DO s)) (send s (Transcript placeholder)) [])
    as [n Hn].
  exists (S n). intros [|m] Hm; [lia|]. cbn [replicate].
  rewrite run_cons, step_only. cbn [continue fst snd]. by rewrite Hn by lia.
Qed.

Lemma on_message_cases w d :
  on_message w d = (handle w d, None)
  ∨ (∃ msg,
       on_message w d
       = ({| session_of := append (session_of w) msg; audioBuffers := audioBuffers w |},
          Some AwaitAppend)
       ∧ handle w d
         = {| session_of := turn (append (session_of w) msg);
              audioBuffers := audioBuffers w |})
  ∨ (∃ msg placeholder,
       on_message w d
       = ({| session_of := append (session_of w) msg; audioBuffers := audioBuffers w |},
          Some (AwaitTranscriptAppend placeholder))
       ∧ handle w d
         = {| session_of := turn (send (append (session_of w) msg) (Transcript placeholder));
              audioBuffers := [] |}).
Proof.
  unfold handle, on_message. destruct d as [buf|s]; [by left|].
  destruct (JSON_parse s) as [data|]; [|by left].
  destruct (ToBoolean data); cbn [negb]; [|by left].
  destruct (get data (lit "type")) as [[| | |type| |]|]; try by left.
  destruct (decide (type = lit "user_message")); [right; left; eauto|].
  destruct (decide (type = lit "audio_end")); [right; right; eauto|by left].
Qed.

(** When no other frame is dispatched before the invocation has returned,
    the scheduled listener does on a frame what [handle] does. *)
Theorem handle_uninterrupted (w : world) (d : data) :
  ∃ n, ∀ m, (n ≤ m)%nat →
    run {| shared := w; tasks := [] |} (Arrive d :: replicate m (Resume 0))
    = {| shared := handle w d; tasks := [] |}.
Proof.
  destruct (on_message_cases w d)
    as [Ho|[(msg & Ho & Hh)|(msg & placeholder & Ho & Hh)]].
  - exists 0%nat. intros m _. rewrite run_cons. unfold step.
    cbn [shared tasks]. rewrite Ho. apply run_idle.
  - destruct (drain_turn (append (session_of w) msg) (audioBuffers w)) as [n Hn].
    exists n. intros m Hm. rewrite run_cons. unfold step.
    cbn [shared tasks]. rewrite Ho, Hh. by apply Hn.
  - destruct (drain_transcript placeholder (append (session_of w) msg) (audioBuffers w))
      as [n Hn].
    exists n. intros m Hm. rewrite run_cons. unfold step.
    cbn [shared tasks]. rewrite Ho, Hh. by apply Hn.
Qed.

End schedule_facts.
End ScheduleFacts.

(** * The message log: clearing, rejections, sequences of requests *)

Module LogLaws.
Import ConversationDO LogFacts.

Section log_laws.
Context `{Platform}.

Lemma stored_messages_delete st : stored_messages (delete "messages"%string st) = [].
Proof. unfold stored_messages. by rewrite lookup_delete_eq. Qed.

Lemma fetch_clear st :
  fetch st DELETE_clear
  = (delete "messages"%string st, {| status := 204; text := None |}).
Proof. reflexivity. Qed.

(** What a request does to the log: nothing, one more element, or none left. *)
Lemma fetch_stored st request :
  stored_messages (fetch st request).1 = stored_messages st
  ∨ (∃ m, stored_messages (fetch st request).1 = stored_messages st ++ [m])
  ∨ (method request = "DELETE"%string ∧ pathname request = "/clear"%string).
Proof.
  unfold fetch.
  destruct (bool_decide (method request = "GET"%string)
            && bool_decide (pathname request = "/messages"%string)); [by left|].
  destruct (bool_decide (method request = "POST"%string)
            && bool_decide (pathname request = "/append"%string)).
  { destruct (body request) as [|c body]; [by left|].
    destruct (JSON_parse (c :: body)) as [m|]; [|by left].
    right. left. exists m. apply stored_messages_insert. }
  destruct (bool_decide (method request = "DELETE"%string)
            && bool_decide (pathname request = "/clear"%string)) eqn:E; [|by left].
  apply andb_true_iff in E as [?%bool_decide_eq_true ?%bool_decide_eq_true]. by right; right.
Qed.

(** X1.  [DELETE /clear] is answered with status 204 whatever the storage
    holds; the log read afterwards is empty, [GET /messages] then answers
    with the JSON text of the empty array, and clearing a second time
    changes nothing more. *)
Theorem clear_resets_log (st : storage) :
  let cleared := (fetch st DELETE_clear).1 in
  status (fetch st DELETE_clear).2 = 204%N
  ∧ stored_messages cleared = []
  ∧ (fetch cleared GET_messages).2
    = {| status := 200; text := Some (JSON_stringify (JArray [])) |}
  ∧ fetch cleared DELETE_clear = fetch st DELETE_clear.
Proof.
  intros cleared. subst cleared. rewrite !fetch_clear. cbn [fst snd status].
  split; [done|]. split; [apply stored_messages_delete|]. split.
  - by rewrite fetch_GET, stored_messages_delete.
  - by rewrite delete_delete_eq.
Qed.

(** X2.  The Durable Object touches no key of its storage but [messages];
    a request that is not answered with status 204 leaves the storage as
    it was; and a request that is none of [GET /messages], [POST /append],
    [DELETE /clear] (a known path with another method included) is
    answered with status 404 and the text "Not found". *)
Theorem rejections_change_nothing (st : storage) (request : Request) :
  (∀ key, key ≠ "messages"%string → (fetch st request).1 !! key = st !! key)
  ∧ (status (fetch st request).2 ≠ 204%N → (fetch st request).1 = st)
  ∧ ((method request, pathname request)
       ∉ [("GET", "/messages"); ("POST", "/append"); ("DELETE", "/clear")]%string →
     fetch st request = (st, {| status := 404; text := Some (lit "Not found") |})).
Proof.
  split; [|split].
  - intros key Hkey. unfold fetch.
    repeat match goal with
           | |- context [if ?b then _ else _] => destruct b
           | |- context [match ?x with _ => _ end] => destruct x
           end; cbn [fst]; try done.
    + by rewrite lookup_insert_ne.
    + by rewrite lookup_delete_ne.
  - unfold fetch.
    repeat match goal with
           | |- context [if ?b then _ else _] => destruct b
           | |- context [match ?x with _ => _ end] => destruct x
           end; cbn [fst snd status]; done.
  - intros Hroute. unfold fetch.
    destruct (bool_decide (method request = "GET"%string)
              && bool_decide (pathname request = "/messages"%string)) eqn:E1.
    { apply andb_true_iff in E1 as [E1%bool_decide_eq_true E2%bool_decide_eq_true].
      destruct Hroute. rewrite E1, E2. by left. }
    destruct (bool_decide (method request = "POST"%string)
              && bool_decide (pathname request = "/append"%string)) eqn:E2.
    { apply andb_true_iff in E2 as [E2%bool_decide_eq_true E3%bool_decide_eq_true].
      destruct Hroute. rewrite E2, E3. right. by left. }
    destruct (bool_decide (method request = "DELETE"%string)
              && bool_decide (pathname request = "/clear"%string)) eqn:E3; [|done].
    apply andb_true_iff in E3 as [E3%bool_decide_eq_true E4%bool_decide_eq_true].
    destruct Hroute. rewrite E3, E4. right. right. by left.
Qed.

(** X3.  A sequence of appends: the log afterwards is the former log
    followed by the values of the bodies that were accepted (not empty,
    JSON text), in the order the requests were made; a rejected body
    leaves no trace in it. *)
Theorem appends_in_order (st : storage) (bodies : list jsstring) :
  stored_messages (foldl (λ st body, (fetch st (POST_append body)).1) st bodies)
  = stored_messages st
    ++ omap (λ body, match body with [] => None | _ => JSON_parse body end) bodies.
Proof.
  revert st. induction bodies as [|body bodies IH]; intros st; cbn [foldl].
  - by rewrite app_nil_r.
  - rewrite IH. destruct body as [|c body].
    + by rewrite fetch_append_empty.
    + rewrite TurnFacts.omap_cons.
      destruct (JSON_parse (c :: body)) as [m|] eqn:Hp.
      * rewrite (fetch_append_parsed _ _ m) by done. cbn [fst].
        by rewrite stored_messages_insert, <- app_assoc.
      * by rewrite fetch_append_invalid.
Qed.

(** X4.  The log only grows: after any sequence of requests none of which
    is [DELETE /clear], the log begins with the log as it was. *)
Theorem log_grows_unless_cleared (st : storage) (requests : list Request) :
  Forall (λ request, ¬ (method request = "DELETE"%string
                        ∧ pathname request = "/clear"%string)) requests →
  stored_messages st
    `prefix_of` stored_messages (foldl (λ st request, (fetch st request).1) st requests).
Proof.
  revert st. induction requests as [|request requests IH]; intros st Hall; cbn [foldl].
  - done.
  - apply Forall_cons in Hall as [Hrequest Hall].
    etrans; [|by apply IH].
    destruct (fetch_stored st request) as [->|[[m ->]|?]]; [done| |done].
    by apply prefix_app_r.
Qed.

End log_laws.

#[local] Existing Instance Example.platform.

Lemma rejections_change_nothing_witness :
  let request := {| method := "GET"; pathname := "/append";
                    body := json_text "{'role':'user'}" |} in
  fetch {["messages"%string := [JNull]]} request
  = ({["messages"%string := [JNull]]},
     {| status := 404; text := Some (lit "Not found") |}).
Proof.
  intros request.
  apply (rejections_change_nothing {["messages"%string := [JNull]]} request).
  cbn [method pathname request]. intros Hin.
  repeat (apply elem_of_cons in Hin as [[=]|Hin]). by apply elem_of_nil in Hin.
Defined.

Lemma log_grows_unless_cleared_witness :
  stored_messages {["messages"%string := [JNull]]}
    `prefix_of` stored_messages
                  (foldl (λ st request, (fetch st request).1)
                     {["messages"%string := [JNull]]}
                     [POST_append (lit "7"); GET_messages; POST_append (lit "{")]).
Proof.
  apply (log_grows_unless_cleared {["messages"%string := [JNull]]}
           [POST_append (lit "7"); GET_messages; POST_append (lit "{")]).
  repeat constructor; cbn [method pathname POST_append GET_messages]; by intros [[=] _].
Defined.

End LogLaws.

(** * The decoder: resuming from the returned buffer, the final flush *)

Module DecoderLaws.
Import SSE JSFacts SSEFacts Reader ReaderFacts PayloadFacts FrameDecoder.

Lemma payloads_none s : indexOf separator s = None → payloads s = [].
Proof. intros Hs. by rewrite payloads_unfold, Hs. Qed.

Lemma residual_none s : indexOf separator s = None → residual s = s.
Proof. intros Hs. by rewrite residual_unfold, Hs. Qed.

Lemma residual_exhausts s : indexOf separator (residual s) = None.
Proof. apply (loop_exhausts snoc). Qed.

Lemma split_nonempty c s : split c s ≠ [].
Proof.
  destruct s as [|x s]; simpl; [done|].
  destruct (x =? c)%N; [done|]. by destruct (split c s).
Qed.

Lemma split_trailing_LF raw : split LF (raw ++ [LF]) = split LF raw ++ [[]].
Proof.
  induction raw as [|c raw IH]; [done|]. cbn [app split].
  destruct (c =? LF)%N; [by rewrite IH|]. rewrite IH.
  pose proof (split_nonempty LF raw). by destruct (split LF raw).
Qed.

(** A line feed at the end of a record adds an empty line, which is no
    data line. *)
Lemma payload_of_trailing_LF raw : payload_of (raw ++ [LF]) = payload_of raw.
Proof.
  unfold payload_of. rewrite split_trailing_LF, !dataLines_of_filter.
  by rewrite List.filter_app, map_app, app_nil_r.
Qed.

(** Where the appended separator is found in a text that holds none. *)
Lemma indexOfFrom_flush r k :
  indexOfFrom separator r k = None →
  ∃ raw, (raw = r ∨ raw ++ [LF] = r)
         ∧ indexOfFrom separator (r ++ separator) k = Some (k + length raw)%nat.
Proof.
  revert k. induction r as [|c r IH]; intros k.
  - intros _. exists []. split; [by left|]. simpl. f_equal. lia.
  - rewrite indexOfFrom_cons.
    destruct (startsWith separator (c :: r)) eqn:E; [done|]. intros Hr.
    rewrite <- app_comm_cons, indexOfFrom_cons.
    destruct (decide (c = LF)) as [->|Hc].
    + destruct r as [|c' r].
      * exists []. split; [by right|]. simpl. f_equal. lia.
      * assert (c' ≠ LF) as Hc'.
        { intros ->. by vm_compute in E. }
        assert (startsWith separator (LF :: (c' :: r) ++ separator) = false) as ->
          by exact (startsWith_separator_LF c' (r ++ separator) Hc').
        destruct (IH _ Hr) as (raw & Hraw & ->).
        exists (LF :: raw). split.
        -- destruct Hraw as [->| <-]; [by left | by right].
        -- f_equal. simpl. lia.
    + rewrite startsWith_separator_ne by done.
      destruct (IH _ Hr) as (raw & Hraw & ->).
      exists (c :: raw). split.
      * destruct Hraw as [->| <-]; [by left | by right].
      * f_equal. simpl. lia.
Qed.

(** The flush of a buffer that holds no complete record decodes the buffer
    as one record. *)
Lemma payloads_flush r :
  indexOf separator r = None → payloads (r ++ separator) = option_list (payload_of r).
Proof.
  intros Hr. destruct (indexOfFrom_flush r 0 Hr) as (raw & Hraw & Hi).
  rewrite payloads_unfold. unfold indexOf. rewrite Hi. cbn [Nat.add].
  unfold slice_to, slice_from.
  destruct Hraw as [->| <-].
  - rewrite take_app_length, drop_app_ge by lia.
    replace (length r + 2 - length r)%nat with 2%nat by lia.
    cbn [drop separator]. by rewrite payloads_none, app_nil_r.
  - rewrite <- !app_assoc, take_app_length, drop_app_ge by lia.
    replace (length raw + 2 - length raw)%nat with 2%nat by lia.
    rewrite payload_of_trailing_LF.
    change (drop 2 ([LF] ++ separator)) with [LF].
    by rewrite payloads_none, app_nil_r.
Qed.

(** X5.  [consumeSseEvents] can be resumed: decoding a text in two steps,
    the second on the buffer returned by the first followed by the rest of
    the text, gives the events and the buffer that decoding the whole text
    gives. *)
Theorem consume_resumable (a b : jsstring) :
  let first := consumeSseEvents a in
  let second := consumeSseEvents (buffer first ++ b) in
  events (consumeSseEvents (a ++ b)) = events first ++ events second
  ∧ buffer (consumeSseEvents (a ++ b)) = buffer second.
Proof.
  intros first second. subst first second.
  rewrite !consumeSseEvents_payloads. cbn [events buffer].
  rewrite !remove_CR_app.
  rewrite (remove_CR_clean (residual (remove_CR a)))
    by apply residual_clean, remove_CR_spec.
  split; [apply payloads_app | apply residual_app].
Qed.

(** X6.  The buffer [consumeSseEvents] returns holds no complete record:
    it contains no blank line and no carriage return, it is the end of the
    normalised input, and decoding it again yields no event and the same
    buffer. *)
Theorem consume_leaves_no_record (s : jsstring) :
  let rest := buffer (consumeSseEvents s) in
  indexOf separator rest = None
  ∧ (CR ∉ rest)
  ∧ rest `suffix_of` remove_CR s
  ∧ consumeSseEvents rest = {| events := []; buffer := rest |}.
Proof.
  intros rest. subst rest. rewrite consumeSseEvents_payloads. cbn [buffer].
  pose proof (residual_exhausts (remove_CR s)) as Hnone.
  pose proof (residual_clean (remove_CR s) (remove_CR_spec s)) as Hclean.
  split; [done|]. split; [done|]. split; [apply residual_suffix|].
  rewrite consumeSseEvents_payloads, remove_CR_clean by done.
  by rewrite payloads_none, residual_none.
Qed.

(** X7.  The end of a stream: the read loop yields the payloads of the
    complete records of the text and then decodes what is left, a record
    that no blank line ended, as one last record; a reply whose last event
    is not terminated loses nothing. *)
Theorem flush_decodes_tail (stream : list chunk) :
  let text := remove_CR (text_of TextDecoder.new stream) in
  frame_decoder stream = payloads text ++ option_list (payload_of (residual text)).
Proof.
  intros text. rewrite frame_decoder_whole. fold text.
  rewrite payloads_app. f_equal. apply payloads_flush, residual_exhausts.
Qed.

(** A reply whose only event is cut off before its blank line. *)
Example unterminated_event :
  frame_decoder [Example.bytes_of (json_text "data: {'response':'Hi'}")]
  = [json_text "{'response':'Hi'}"].
Proof. vm_compute. reflexivity. Qed.

End DecoderLaws.

(** * Turns: their shape, their failures, frames without effect, audio *)

Module TurnLaws.
Import Conversion Delta ConversationDO Worker Reader.
Import LogFacts HistoryFacts ReaderFacts DeltaFacts TurnFacts HandlerFacts.

(** The log and the trace of [s'] begin with those of [s]. *)
Abbreviation grows s s' :=
  (stored_messages (Worker.DO s) `prefix_of` stored_messages (Worker.DO s')
   ∧ Worker.trace s `prefix_of` Worker.trace s').

Section turn_laws.
Context `{Platform} `{Inference}.

Lemma fragment_of_truthy payload content :
  fragment_of payload = Some content → ToBoolean content = true.
Proof.
  unfold fragment_of. destruct (decide (payload = DONE)); [done|].
  destruct (JSON_parse payload) as [json|]; [|done].
  destruct (content_of json) as [c|]; [|done].
  destruct (ToBoolean c) eqn:E; [|done]. cbn [andb].
  destruct (throws c); [done|]. by intros [= <-].
Qed.

(** A fragment is a value whose conversion to a string does not throw. *)
Lemma fragment_of_converts payload content :
  fragment_of payload = Some content → throws content = false.
Proof.
  unfold fragment_of. destruct (decide (payload = DONE)); [done|].
  destruct (JSON_parse payload) as [json|]; [|done].
  destruct (content_of json) as [c|]; [|done].
  destruct (ToBoolean c); [|done]. cbn [andb].
  destruct (throws c) eqn:E; [done|]. by intros [= <-].
Qed.

Lemma fragments_convert payloads :
  Forall (λ content, throws content = false) (omap fragment_of payloads).
Proof.
  induction payloads as [|payload payloads IH]; [done|]. rewrite omap_cons.
  destruct (fragment_of payload) as [content|] eqn:E; [|done].
  constructor; [by eapply fragment_of_converts|done].
Qed.

Lemma fragments_truthy payloads :
  Forall (λ content, ToBoolean content = true) (omap fragment_of payloads).
Proof.
  induction payloads as [|payload payloads IH]; [done|]. rewrite omap_cons.
  destruct (fragment_of payload) as [content|] eqn:E; [|done].
  constructor; [by eapply fragment_of_truthy|done].
Qed.

Lemma persist_DO w events text : DO (persist (record w events) text) = DO (persist w text).
Proof. by destruct text. Qed.

Lemma no_call_in_sent frames : List.filter is_AiRun (map Sent frames) = [].
Proof. by induction frames. Qed.

Lemma no_end_in_deltas contents :
  Forall (λ ev, is_end ev = false) (map Sent (map Delta contents)).
Proof. rewrite !Forall_map. by apply Forall_true. Qed.

(** X8.  Both transports extract the same reply from a stream: the text
    the background task of the pull transport persists and the text the
    duplex transport persists are the concatenation of the fragments of the
    stream, the fragments are what the duplex transport sends as [delta]
    frames, in order, and every one of them is truthy (no empty [delta]
    is sent). *)
Theorem transports_extract_the_same (w : session) (stream : list chunk) :
  let contents := fragments stream in
  let text := concat (map ToString contents) in
  accumulateAndPersist w stream = persist w text
  ∧ stream_reply w stream
    = send (persist (record w (map Sent (map Delta contents))) text) Done
  ∧ DO (accumulateAndPersist w stream) = DO (stream_reply w stream)
  ∧ Forall (λ content, ToBoolean content = true) contents.
Proof.
  intros contents text. subst contents text.
  rewrite accumulateAndPersist_spec, stream_reply_spec.
  split; [done|]. split; [done|]. split.
  - cbn [send record DO]. by rewrite persist_DO.
  - apply fragments_truthy.
Qed.

(** X9.  The shape of a turn: whatever the log and whatever the inference
    binding answers, a turn adds to the trace at most one inference call
    and ends it with exactly one closing frame, [done] or [error], sent
    last; every [delta] frame before it carries a truthy content. *)
Theorem turn_ends_once (w : session) :
  ∃ events e,
    trace (turn w) = trace w ++ events ++ [Sent e]
    ∧ (e = Done ∨ ∃ x, e = Error x)
    ∧ Forall (λ ev, is_end ev = false) events
    ∧ (started events ≤ 1)%nat
    ∧ Forall (λ ev, ∀ content, ev = Sent (Delta content) → ToBoolean content = true)
        events.
Proof.
  unfold turn. destruct (canonical_messages _) as [canonical|x].
  2: { exists [], (Error x). split; [done|]. split; [eauto|].
       split; [constructor|]. split; [cbn; lia|constructor]. }
  destruct (AI_run canonical) as [stream|x].
  2: { exists [AiRun canonical], (Error x). cbn [send record trace].
       split; [by rewrite <- app_assoc|]. split; [eauto|].
       split; [by apply Forall_singleton|]. split; [cbn; lia|].
       by apply Forall_singleton. }
  rewrite stream_reply_trace. cbn [record trace].
  set (text := concat _).
  set (persisted := match text with
                    | [] => []
                    | _ => [Appended (message (lit "assistant") (Some (JString text)))]
                    end).
  exists ([AiRun canonical] ++ map Sent (map Delta (fragments stream)) ++ persisted), Done.
  split; [by rewrite <- !app_assoc|]. split; [by left|].
  split; [|split].
  - rewrite !Forall_app. split; [by apply Forall_singleton|].
    split; [apply no_end_in_deltas|]. subst persisted.
    destruct text; [done|]. by apply Forall_singleton.
  - unfold started. rewrite !List.filter_app, no_call_in_sent.
    subst persisted. destruct text; cbn; lia.
  - rewrite !Forall_app. split; [by apply Forall_singleton|]. split.
    + rewrite !Forall_map. eapply Forall_impl; [apply fragments_truthy|].
      intros content Ht c. cbn. by intros [= <-].
    + subst persisted. destruct text; [done|]. by apply Forall_singleton.
Qed.

(** X10.  When the inference binding rejects the call of a [user_message]
    turn, the user message has been appended and stays in the log, one
    [error] frame carrying the rejection is sent, and nothing else: no
    [delta], no [done], no assistant message. *)
Theorem inference_failure_reported (w : world) (s : jsstring) (data : jsval) (e : exn) :
  JSON_parse s = Some data →
  get data (lit "type") = Some (JString (lit "user_message")) →
  let msg := message (lit "user") (get data (lit "content")) in
  let log := stored_messages (DO (session_of w)) ++ [msg] in
  let canonical := if existsb is_system log then log else system_message :: log in
  round_trips msg → round_trips (JArray log) → JNull ∉ log →
  AI_run canonical = Throw e →
  trace (session_of (handle w (Text s)))
  = trace (session_of w) ++ [Appended msg; AiRun canonical; Sent (Error e)]
  ∧ stored_messages (DO (session_of (handle w (Text s)))) = log
  ∧ audioBuffers (handle w (Text s)) = audioBuffers w.
Proof.
  intros Hp Ht msg log canonical Hmsg Hlog Hn Hrun.
  rewrite (handle_user_message _ _ data) by done. cbn [session_of audioBuffers]. fold msg.
  assert (stored_messages (DO (append (session_of w) msg)) = log) as Hstored
    by (by apply append_to_stored).
  rewrite turn_spec; rewrite Hstored; [|done..].
  fold canonical. rewrite Hrun. cbn [send record append trace DO].
  split; [by rewrite <- !app_assoc|]. split; [exact Hstored|done].
Qed.

(** X11.  A text frame whose JSON value is falsy ([null], [false], [0], the
    empty string) or whose [type] is neither [user_message] nor
    [audio_end] has no effect at all: nothing is sent, nothing is
    appended, the audio chunks and the invocations in flight stay as they
    are. *)
Theorem unknown_frames_ignored (c : conn) (s : jsstring) (data : jsval) :
  JSON_parse s = Some data →
  ToBoolean data = false
  ∨ (∀ type, get data (lit "type") = Some (JString type) →
             type ≠ lit "user_message" ∧ type ≠ lit "audio_end") →
  handle (shared c) (Text s) = shared c
  ∧ step c (Arrive (Text s)) = c.
Proof.
  intros Hp Hdata.
  assert (on_message (shared c) (Text s) = (shared c, None)
          ∧ handle (shared c) (Text s) = shared c) as [Ho Hh].
  { unfold on_message, handle. rewrite Hp.
    destruct (ToBoolean data) eqn:Hb; cbn [negb]; [|done].
    destruct Hdata as [?|Htype]; [done|].
    destruct (get data (lit "type")) as [[| | |type| |]|]; try done.
    destruct (Htype type eq_refl) as [Hu Ha].
    by rewrite !decide_False by done. }
  split; [done|]. unfold step. rewrite Ho. cbn [option_list].
  rewrite app_nil_r. by destruct c.
Qed.

Lemma append_grows s msg : grows s (append s msg).
Proof.
  split.
  - destruct (append_to_extends (DO s) msg) as [tail Htail]. by exists tail.
  - by apply prefix_app_r.
Qed.

Lemma record_grows s events : grows s (record s events).
Proof. split; [done|]. by apply prefix_app_r. Qed.

Lemma persist_grows s text : grows s (persist s text).
Proof. destruct text; [done|]. apply append_grows. Qed.

Lemma turn_grows s : grows s (turn s).
Proof.
  destruct (turn_extends s) as (rest & tail & Htrace & Hlog).
  split; [by exists tail | by exists rest].
Qed.

Lemma grows_trans s1 s2 s3 : grows s1 s2 → grows s2 s3 → grows s1 s3.
Proof. intros [? ?] [? ?]. split; by etrans. Qed.

Lemma handle_grows w d : grows (session_of w) (session_of (handle w d)).
Proof.
  unfold handle. destruct d as [buf|s]; [done|].
  destruct (JSON_parse s) as [data|]; [|apply record_grows].
  destruct (ToBoolean data); cbn [negb]; [|done].
  destruct (get data (lit "type")) as [[| | |type| |]|]; try done.
  destruct (decide (type = lit "user_message")).
  { eapply grows_trans; [apply append_grows|apply turn_grows]. }
  destruct (decide (type = lit "audio_end")); [|done]. cbn [session_of].
  eapply grows_trans; [apply append_grows|].
  eapply grows_trans; [apply record_grows|apply turn_grows].
Qed.

Lemma on_message_grows w d : grows (session_of w) (session_of (on_message w d).1).
Proof.
  unfold on_message. destruct d as [buf|s]; [done|].
  destruct (JSON_parse s) as [data|]; [|apply record_grows].
  destruct (ToBoolean data); cbn [negb]; [|done].
  destruct (get data (lit "type")) as [[| | |type| |]|]; try done.
  destruct (decide (type = lit "user_message")); [apply append_grows|].
  destruct (decide (type = lit "audio_end")); [apply append_grows|done].
Qed.

Lemma continue_grows s t : grows s (continue s t).1.
Proof.
  destruct t as [|placeholder|messagesRes|[aiStream|e]|[|value reader] decoder buffer text|];
    cbn [continue fst]; try done; try apply record_grows.
  - destruct (canonical_messages messagesRes); apply record_grows.
  - destruct (flushBuffer (buffer ++ SSE.separator) text) as [[text' sent] buffer'].
    destruct text' as [|c text'].
    + eapply grows_trans; apply record_grows.
    + eapply grows_trans; [apply record_grows|apply persist_grows].
  - destruct (TextDecoder.decode decoder value) as [decoder' decoded].
    destruct (flushBuffer (buffer ++ decoded) text) as [[text' sent] buffer'].
    apply record_grows.
Qed.

Lemma step_grows c l : grows (session_of (shared c)) (session_of (shared (step c l))).
Proof.
  destruct l as [d|i]; cbn [step].
  - pose proof (on_message_grows (shared c) d) as Hg.
    by destruct (on_message (shared c) d).
  - destruct (tasks c !! i) as [t|]; [|done].
    unfold resume. pose proof (continue_grows (session_of (shared c)) t) as Hg.
    by destruct (continue (session_of (shared c)) t).
Qed.

(** X12.  The worker never removes or rewrites history: whatever frames
    arrive on a connection and however the invocations of the listener
    are interleaved, the log afterwards begins with the log as it was and
    the trace with the trace as it was. *)
Theorem history_append_only (c : conn) :
  (∀ frames,
     grows (session_of (shared c)) (session_of (handle_all (shared c) frames)))
  ∧ (∀ schedule,
       grows (session_of (shared c)) (session_of (shared (run c schedule)))).
Proof.
  split.
  - intros frames. generalize (shared c). clear c. intros w. revert w.
    induction frames as [|d frames IH]; intros w; [done|].
    eapply grows_trans; [apply (handle_grows w d)|apply IH].
  - intros schedule. revert c.
    induction schedule as [|l schedule IH]; intros c; [done|].
    eapply grows_trans; [apply (step_grows c l)|apply IH].
Qed.

Lemma totalLen_of_from chunks (n : N) :
  foldl (λ totalLen (b : list Byte.byte), totalLen + N.of_nat (length b))%N n chunks
  = (n + N.of_nat (length (concat chunks)))%N.
Proof.
  revert n. induction chunks as [|b chunks IH]; intros n; simpl.
  - lia.
  - rewrite IH, length_app. lia.
Qed.

Lemma totalLen_of_concat chunks : totalLen_of chunks = N.of_nat (length (concat chunks)).
Proof. unfold totalLen_of. by rewrite totalLen_of_from. Qed.

Lemma handle_all_binary w chunks :
  handle_all w (map Binary chunks)
  = {| session_of := session_of w; audioBuffers := audioBuffers w ++ chunks |}.
Proof.
  revert w. induction chunks as [|b chunks IH]; intros w.
  - simpl. rewrite app_nil_r. by destruct w.
  - unfold handle_all in *. cbn [map foldl handle]. rewrite IH.
    cbn [session_of audioBuffers]. by rewrite <- app_assoc.
Qed.

Lemma run_binary c chunks :
  run c (map (λ buf, Arrive (Binary buf)) chunks)
  = {| shared := {| session_of := session_of (shared c);
                    audioBuffers := audioBuffers (shared c) ++ chunks |};
       tasks := tasks c |}.
Proof.
  revert c. induction chunks as [|b chunks IH]; intros c.
  - cbn. rewrite app_nil_r. by destruct c as [[] ?].
  - cbn [map]. rewrite ScheduleFacts.run_cons, IH. unfold step, on_message.
    cbn [shared tasks session_of audioBuffers option_list].
    by rewrite app_nil_r, <- app_assoc.
Qed.

Lemma step_audio_end c s data :
  JSON_parse s = Some data →
  get data (lit "type") = Some (JString (lit "audio_end")) →
  step c (Arrive (Text s))
  = let placeholder := placeholder_of (totalLen_of (audioBuffers (shared c))) in
    {| shared :=
         {| session_of := append (session_of (shared c))
                            (message (lit "user") (Some (JString placeholder)));
            audioBuffers := audioBuffers (shared c) |};
       tasks := tasks c ++ [AwaitTranscriptAppend placeholder] |}.
Proof.
  intros Hp Ht. unfold step, on_message.
  by rewrite Hp, (typed_truthy _ _ Ht), Ht.
Qed.

(** An invocation of [audio_end] resumed from the append of its
    transcript: it sends the placeholder it computed when it was
    dispatched and empties the buffer. *)
Lemma step_transcript_appended c i placeholder :
  tasks c !! i = Some (AwaitTranscriptAppend placeholder) →
  step c (Resume i)
  = {| shared := {| session_of := send (session_of (shared c)) (Transcript placeholder);
                    audioBuffers := [] |};
       tasks := <[i := AwaitMessages
                         (messages_of (DO (send (session_of (shared c))
                                             (Transcript placeholder))))]> (tasks c) |}.
Proof. intros Hi. by rewrite (step_resume c i _ Hi). Qed.

(** X13.  Audio: binary frames are buffered in arrival order and touch
    nothing else.  An [audio_end] frame counts, when it is dispatched, the
    bytes of all the chunks then in the buffer and appends the placeholder
    that gives the count; the placeholder is sent as the transcript, and
    the buffer emptied, only when that append has settled.  So an
    [audio_end] frame dispatched after that reports 0 bytes, and one
    dispatched before it reports the same count a second time. *)
Theorem audio_end_counts_buffered (c : conn) (chunks : list (list Byte.byte))
    (s : jsstring) (data : jsval) :
  JSON_parse s = Some data →
  get data (lit "type") = Some (JString (lit "audio_end")) →
  let i := length (tasks c) in
  let placeholder :=
    placeholder_of (N.of_nat (length (concat (audioBuffers (shared c) ++ chunks)))) in
  let transcript := message (lit "user") (Some (JString placeholder)) in
  let nothing := message (lit "user") (Some (JString (placeholder_of 0))) in
  let c1 := run c (map (λ buf, Arrive (Binary buf)) chunks) in
  let c2 := step c1 (Arrive (Text s)) in
  let c3 := step c2 (Resume i) in
  c1 = {| shared := {| session_of := session_of (shared c);
                       audioBuffers := audioBuffers (shared c) ++ chunks |};
          tasks := tasks c |}
  ∧ c2 = {| shared := {| session_of := append (session_of (shared c)) transcript;
                         audioBuffers := audioBuffers (shared c) ++ chunks |};
            tasks := tasks c ++ [AwaitTranscriptAppend placeholder] |}
  ∧ audioBuffers (shared c3) = []
  ∧ trace (session_of (shared c3))
    = trace (session_of (shared c)) ++ [Appended transcript; Sent (Transcript placeholder)]
  ∧ step c3 (Arrive (Text s))
    = {| shared := {| session_of := append (session_of (shared c3)) nothing;
                      audioBuffers := [] |};
         tasks := tasks c3 ++ [AwaitTranscriptAppend (placeholder_of 0)] |}
  ∧ trace (session_of (shared (run c2 [Arrive (Text s); Resume i; Resume (S i)])))
    = trace (session_of (shared c))
      ++ [Appended transcript; Appended transcript;
          Sent (Transcript placeholder); Sent (Transcript placeholder)].
Proof.
  intros Hp Ht i placeholder transcript nothing c1 c2 c3.
  assert (c1 = {| shared := {| session_of := session_of (shared c);
                               audioBuffers := audioBuffers (shared c) ++ chunks |};
                  tasks := tasks c |}) as Hc1 by apply run_binary.
  assert (c2 = {| shared := {| session_of := append (session_of (shared c)) transcript;
                               audioBuffers := audioBuffers (shared c) ++ chunks |};
                  tasks := tasks c ++ [AwaitTranscriptAppend placeholder] |}) as Hc2.
  { subst c2. rewrite (step_audio_end _ s data) by done. rewrite Hc1. cbv zeta.
    cbn [shared tasks session_of audioBuffers]. by rewrite totalLen_of_concat. }
  assert (c3 = {| shared := {| session_of := send (append (session_of (shared c)) transcript)
                                               (Transcript placeholder);
                               audioBuffers := [] |};
                  tasks := tasks c
                           ++ [AwaitMessages
                                 (messages_of
                                    (DO (send (append (session_of (shared c)) transcript)
                                           (Transcript placeholder))))] |}) as Hc3.
  { subst c3. rewrite (step_transcript_appended c2 i placeholder).
    - rewrite Hc2. cbn [shared tasks session_of]. subst i.
      by rewrite insert_app_r_alt, Nat.sub_diag by done.
    - rewrite Hc2. cbn [tasks]. by apply list_lookup_middle. }
  split; [done|]. split; [done|]. split; [by rewrite Hc3|]. split; [|split].
  - rewrite Hc3. cbn [shared session_of send record append trace].
    by rewrite <- app_assoc.
  - rewrite (step_audio_end _ s data) by done. cbv zeta. by rewrite Hc3.
  - rewrite !ScheduleFacts.run_cons. unfold run. cbn [foldl].
    rewrite (step_audio_end _ s data) by done. cbv zeta. rewrite Hc2.
    cbn [shared tasks session_of audioBuffers]. rewrite totalLen_of_concat.
    fold placeholder transcript.
    rewrite (step_transcript_appended _ i placeholder)
      by (cbn [tasks]; rewrite <- app_assoc; by apply list_lookup_middle).
    cbn [shared tasks session_of].
    rewrite (step_transcript_appended _ (S i) placeholder).
    + cbn [shared session_of send record append trace]. by rewrite <- !app_assoc.
    + cbn [tasks]. rewrite list_lookup_insert_ne by lia.
      rewrite lookup_app_r by (rewrite length_app; cbn; lia).
      rewrite length_app. cbn [length]. subst i.
      by replace (S (length (tasks c)) - (length (tasks c) + 1))%nat with 0%nat by lia.
Qed.

(** X14.  A chunk that arrives while the append of a transcript is awaited
    is lost: it is buffered, the invocation of the [audio_end] frame then
    empties the buffer when it is resumed, and the placeholder it sends
    counts only the chunks that were there when [audio_end] arrived. *)
Theorem late_chunk_is_dropped (c : conn) (s : jsstring) (data : jsval)
    (late : list Byte.byte) :
  JSON_parse s = Some data →
  get data (lit "type") = Some (JString (lit "audio_end")) →
  let placeholder := placeholder_of (totalLen_of (audioBuffers (shared c))) in
  let i := length (tasks c) in
  let c2 := run c [Arrive (Text s); Arrive (Binary late)] in
  let c3 := run c [Arrive (Text s); Arrive (Binary late); Resume i] in
  audioBuffers (shared c2) = audioBuffers (shared c) ++ [late]
  ∧ audioBuffers (shared c3) = []
  ∧ trace (session_of (shared c3))
    = trace (session_of (shared c))
      ++ [Appended (message (lit "user") (Some (JString placeholder)));
          Sent (Transcript placeholder)]
  ∧ ∃ messagesRes, tasks c3 = tasks c ++ [AwaitMessages messagesRes].
Proof.
  intros Hp Ht placeholder i c2 c3.
  assert (c2 = {| shared :=
                    {| session_of := append (session_of (shared c))
                                       (message (lit "user") (Some (JString placeholder)));
                       audioBuffers := audioBuffers (shared c) ++ [late] |};
                  tasks := tasks c ++ [AwaitTranscriptAppend placeholder] |}) as Hc2.
  { subst c2. unfold run. cbn [foldl]. rewrite (step_audio_end _ s data) by done.
    cbv zeta. fold placeholder. unfold step, on_message.
    cbn [shared tasks session_of audioBuffers option_list]. by rewrite app_nil_r. }
  assert (c3 = step c2 (Resume i)) as -> by reflexivity.
  rewrite Hc2.
  rewrite (step_resume _ i (AwaitTranscriptAppend placeholder))
    by (cbn [tasks]; apply list_lookup_middle; done).
  unfold resume. cbn [continue shared session_of audioBuffers tasks fst snd].
  split; [done|]. split; [done|]. split.
  - cbn [send record append trace]. by rewrite <- app_assoc.
  - eexists. subst i. rewrite insert_app_r_alt by done.
    by rewrite Nat.sub_diag.
Qed.

Lemma some_system_null before after :
  JNull ∉ before → existsb is_system before = false →
  some_system (before ++ JNull :: after) = Throw TypeError.
Proof.
  induction before as [|m before IH]; [done|].
  intros [Hm Hbefore]%not_elem_of_cons. cbn [existsb].
  intros [Hsys Hrest]%orb_false_iff. cbn [app some_system].
  rewrite has_role_not_null by done. unfold is_system in Hsys.
  destruct (get m (lit "role")) as [[| | |r| |]|]; cbn [bind]; auto.
  rewrite Hsys. auto.
Qed.

(** X15.  A [null] entry in the log that no system message precedes makes
    every turn fail before the inference call: testing the entries for the
    role [system] throws on it, and the turn only sends an [error] frame
    ([POST /append] accepts the body [null] like any other JSON text). *)
Theorem null_entry_blocks_turns (w : session) (before after : list jsval) :
  stored_messages (DO w) = before ++ JNull :: after →
  round_trips (JArray (stored_messages (DO w))) →
  JNull ∉ before → existsb is_system before = false →
  turn w = send w (Error TypeError).
Proof.
  intros Hlog [_ Hrt] Hbefore Hsys.
  unfold turn. rewrite messages_of_stored. rewrite Hlog in *.
  unfold canonical_messages, json_of. simpl. rewrite Hrt. simpl.
  unfold ensure_system_prompt. by rewrite some_system_null.
Qed.

End turn_laws.

Import Example Scenario.
#[local] Existing Instance Example.platform.

Lemma inference_failure_reported_witness :
  trace (session_of (handle (H0 := rejecting (lit "overloaded"))
                       (connection fresh_session) (Text user_message_Hi)))
  = [Appended (user "Hi"); AiRun [system_message; user "Hi"];
     Sent (Error (Rejected (lit "overloaded")))].
Proof.
  edestruct (inference_failure_reported (H0 := rejecting (lit "overloaded"))
               (connection fresh_session) user_message_Hi) as (Htrace & _ & _);
    [by vm_compute | by vm_compute
    | split; [done | by vm_compute]
    | split; [done | by vm_compute]
    | intros Hin; by apply list_elem_of_singleton in Hin
    | reflexivity
    | exact Htrace].
Defined.

Lemma unknown_frames_ignored_witness :
  let c := {| shared := connection fresh_session; tasks := [AwaitPersist] |} in
  step (H0 := answering hello_stream) c (Arrive (Text ping)) = c
  ∧ step (H0 := answering hello_stream) c (Arrive (Text (lit "null"))) = c.
Proof.
  intros c. split.
  - eapply (unknown_frames_ignored (H0 := answering hello_stream) c ping);
      [by vm_compute|].
    right. intros type. vm_compute. by intros [= <-].
  - eapply (unknown_frames_ignored (H0 := answering hello_stream) c (lit "null"));
      [by vm_compute|]. by left.
Defined.

Lemma audio_end_counts_buffered_witness :
  let c := {| shared := connection fresh_session; tasks := [] |} in
  let chunks := [bytes_of (lit "RIFF"); bytes_of (lit "WAVE")] in
  let placeholder :=
    placeholder_of (N.of_nat (length (concat (audioBuffers (shared c) ++ chunks)))) in
  let transcript := message (lit "user") (Some (JString placeholder)) in
  let c1 := run (H0 := answering hello_stream) c (map (λ buf, Arrive (Binary buf)) chunks) in
  let c2 := step (H0 := answering hello_stream) c1 (Arrive (Text audio_end)) in
  placeholder = lit "[Audio received 8 bytes] (transcription not configured)"
  ∧ trace (session_of (shared (run (H0 := answering hello_stream) c2
                                 [Arrive (Text audio_end); Resume 0; Resume 1])))
    = trace (session_of (shared c))
      ++ [Appended transcript; Appended transcript;
          Sent (Transcript placeholder); Sent (Transcript placeholder)].
Proof.
  intros c chunks placeholder transcript c1 c2.
  split; [by vm_compute|].
  destruct (audio_end_counts_buffered (H0 := answering hello_stream) c chunks audio_end
              (JObject [(lit "type", JString (lit "audio_end"))]))
    as (_ & _ & _ & _ & _ & Htwice); [by vm_compute | by vm_compute |].
  exact Htwice.
Defined.

Lemma late_chunk_is_dropped_witness :
  let c := {| shared := {| session_of := fresh_session;
                           audioBuffers := [bytes_of (lit "RIFF")] |};
              tasks := [] |} in
  audioBuffers
    (shared (run (H0 := answering hello_stream) c
               [Arrive (Text audio_end); Arrive (Binary (bytes_of (lit "WAVE")));
                Resume 0])) = [].
Proof.
  intros c.
  edestruct (late_chunk_is_dropped (H0 := answering hello_stream) c audio_end)
    as (_ & Hbuffers & _);
    [by vm_compute | by vm_compute | exact Hbuffers].
Defined.

Lemma null_entry_blocks_turns_witness :
  turn (H0 := answering hello_stream) (session_with [user "Hi"; JNull])
  = send (session_with [user "Hi"; JNull]) (Error TypeError).
Proof.
  apply (null_entry_blocks_turns (H0 := answering hello_stream)
           (session_with [user "Hi"; JNull]) [user "Hi"] []);
    [reflexivity
    | split; [done | by vm_compute]
    | intros Hin; by apply list_elem_of_singleton in Hin
    | reflexivity].
Defined.

End TurnLaws.

(** * The pull transport: what a request leaves in the log *)

Module PullLaws.
Import Conversion Delta ConversationDO Worker Reader Pull.
Import LogFacts HistoryFacts TurnFacts HandlerFacts.

Section pull_laws.
Context `{Platform} `{Inference}.

Lemma has_role_user m : m ≠ JNull → has_role (lit "user") m = Normal (is_user m).
Proof. intros Hm. by rewrite has_role_not_null. Qed.

Lemma filter_user_filter messages :
  JNull ∉ messages → filter_user messages = Normal (List.filter is_user messages).
Proof.
  induction messages as [|m messages IH]; [done|].
  intros [Hm Hrest]%not_elem_of_cons. cbn [filter_user List.filter].
  rewrite has_role_user, IH by done. cbn [bind]. by destruct (is_user m).
Qed.

Lemma is_user_truthy m : is_user m = true → ToBoolean m = true.
Proof. by destruct m. Qed.

Lemma last_filter {A} (f : A → bool) l x :
  last (List.filter f l) = Some x → f x = true.
Proof.
  intros Hl. apply last_Some in Hl as [l' Hl].
  assert (In x (List.filter f l)) as Hin.
  { rewrite Hl. apply in_or_app. right. by left. }
  by apply filter_In in Hin as [_ ?].
Qed.

Lemma append_last_user_spec w requestBody v messages :
  JSON_parse requestBody = Some v → v ≠ JNull →
  default (JArray []) (get v (lit "messages")) = JArray messages →
  JNull ∉ messages →
  append_last_user w requestBody
  = Normal match lastUser_of messages with
           | Some lastUser => append w lastUser
           | None => w
           end.
Proof.
  intros Hp Hv Hm Hn. unfold append_last_user, request_messages. rewrite Hp.
  assert (match v with
          | JNull => Throw TypeError
          | _ => Normal (default (JArray []) (get v (lit "messages")))
          end = Normal (JArray messages)) as -> by (rewrite Hm; by destruct v).
  cbn [bind as_array]. rewrite ensure_system_prompt_spec by done. cbn [bind].
  assert (filter_user (if existsb is_system messages then messages
                       else system_message :: messages)
          = Normal (List.filter is_user messages)) as ->.
  { destruct (existsb is_system messages); [by apply filter_user_filter|].
    rewrite filter_user_filter; [done|].
    apply not_elem_of_cons. by split. }
  cbn [bind]. unfold lastUser_of.
  destruct (last (List.filter is_user messages)) as [lastUser|] eqn:Hl; [|done].
  by rewrite (is_user_truthy _ (last_filter _ _ _ Hl)).
Qed.

(** X16.  What a [POST /api/chat] request leaves behind: of the messages
    it carries, only the last one with role [user] is appended to the log
    (none when there is none); the inference call is made on the history
    read back from the log, not on the history of the request, whose other
    messages reach neither the log nor the inference binding; and the
    answer is the failure response. *)
Theorem pull_persists_last_user (w : session) (requestBody : jsstring)
    (v : jsval) (messages : list jsval) :
  JSON_parse requestBody = Some v → v ≠ JNull →
  default (JArray []) (get v (lit "messages")) = JArray messages →
  JNull ∉ messages →
  let w1 := match lastUser_of messages with
            | Some lastUser => append w lastUser
            | None => w
            end in
  let log := stored_messages (DO w1) in
  round_trips (JArray log) → JNull ∉ log →
  handleChatRequest w requestBody
  = (record w1 [AiRun (if existsb is_system log then log else system_message :: log)],
     failure).
Proof.
  intros Hp Hv Hm Hn w1 log Hrt Hlog. unfold handleChatRequest.
  rewrite (append_last_user_spec _ _ v messages) by done. fold w1.
  rewrite canonical_of_log by done. fold log.
  by destruct (AI_run _).
Qed.

(** X17.  A request whose body is not JSON text, is [null], or carries a
    [messages] that is not an array is answered with the failure response
    of status 500 before anything is done: nothing is appended and no
    inference call is made. *)
Theorem pull_rejects_malformed (w : session) (requestBody : jsstring) :
  JSON_parse requestBody = None
  ∨ JSON_parse requestBody = Some JNull
  ∨ (∃ v m, JSON_parse requestBody = Some v
            ∧ get v (lit "messages") = Some m ∧ ∀ elements, m ≠ JArray elements) →
  handleChatRequest w requestBody = (w, failure)
  ∧ status failure = 500%N.
Proof.
  intros Hbody. split; [|done].
  unfold handleChatRequest, append_last_user, request_messages.
  destruct Hbody as [->|[->|(v & m & -> & Hm & Harray)]]; [done..|].
  assert (v ≠ JNull) as Hv by (by intros ->).
  assert (match v with
          | JNull => Throw TypeError
          | _ => Normal (default (JArray []) (get v (lit "messages")))
          end = Normal m) as -> by (rewrite Hm; by destruct v).
  cbn [bind]. destruct m; try done. by destruct (Harray elements).
Qed.

End pull_laws.

Import Example Scenario.
#[local] Existing Instance Example.platform.

Lemma pull_persists_last_user_witness :
  let request :=
    json_text "{'messages':[{'role':'user','content':'one'},{'role':'system','content':'Be rude.'},{'role':'user','content':'two'},{'role':'assistant','content':'three'}]}" in
  trace (handleChatRequest (H0 := answering hello_stream) fresh_session request).1
  = [Appended (user "two"); AiRun [system_message; user "two"]].
Proof.
  intros request.
  rewrite (pull_persists_last_user (H0 := answering hello_stream) fresh_session request
             (JObject [(lit "messages",
                        JArray [user "one"; system "Be rude."; user "two";
                                assistant "three"])])
             [user "one"; system "Be rude."; user "two"; assistant "three"]);
    [reflexivity
    | by vm_compute
    | done
    | reflexivity
    | intros Hin; repeat (apply elem_of_cons in Hin as [[=]|Hin]); by apply elem_of_nil in Hin
    | split; [done | by vm_compute]
    | intros Hin; vm_compute in Hin;
      repeat (apply elem_of_cons in Hin as [[=]|Hin]); by apply elem_of_nil in Hin].
Defined.

Lemma pull_rejects_malformed_witness :
  handleChatRequest (H0 := answering hello_stream) fresh_session
    (json_text "{'messages':'Hi'}")
  = (fresh_session, failure).
Proof.
  apply (pull_rejects_malformed (H0 := answering hello_stream)).
  right. right. eexists _, _. split; [by vm_compute|]. split; [by vm_compute|done].
Defined.

End PullLaws.

(** * The entry point: routes, sessions, what a request can change *)

Module RouterFacts.
Import Conversion Delta Worker Reader Router.
Import LogFacts HistoryFacts TurnFacts HandlerFacts TurnLaws.

Section router_facts.
Context `{Platform} `{Inference}.

Lemma stub_insert_eq env sessionId st : stub (<[sessionId := st]> env) sessionId = st.
Proof. unfold stub. by rewrite lookup_insert_eq. Qed.

Lemma stub_insert_ne env sessionId other st :
  other ≠ sessionId → stub (<[sessionId := st]> env) other = stub env other.
Proof. intros Hne. unfold stub. by rewrite lookup_insert_ne. Qed.

Lemma handleChatRequest_grows w requestBody :
  grows w (handleChatRequest w requestBody).1.
Proof.
  unfold handleChatRequest.
  destruct (append_last_user w requestBody) as [w1|] eqn:Hw; [|done].
  assert (grows w w1) as Hg.
  { destruct (append_last_user_cases _ _ _ Hw) as [->|(m & _ & ->)];
      [done | apply append_grows]. }
  destruct (canonical_messages _) as [canonical|]; [|done].
  destruct (AI_run canonical); cbn [fst];
    (eapply grows_trans; [exact Hg | apply record_grows]).
Qed.

Lemma fetch_chat env request :
  pathname request = lit "/api/chat" → method request = lit "POST" →
  fetch env request
  = let sessionId := chat_sessionId_of request in
    let r := handleChatRequest {| DO := stub env sessionId; trace := [] |} (body request) in
    {| sessions := <[sessionId := DO r.1]> env; answer := Respond r.2; calls := trace r.1 |}.
Proof.
  intros Hp Hm. unfold fetch. rewrite Hp, Hm. cbn.
  by destruct (handleChatRequest _ _).
Qed.

Lemma fetch_pure env request :
  pathname request ≠ lit "/api/chat" ∨ method request ≠ lit "POST" →
  sessions (fetch env request) = env ∧ calls (fetch env request) = [].
Proof.
  intros Hroute. unfold fetch.
  destruct (bool_decide (pathname request = lit "/")
            || negb (startsWith (lit "/api/") (pathname request))); [done|].
  destruct (bool_decide (pathname request = lit "/api/messages")).
  { destruct (bool_decide (method request = lit "GET")); [|done].
    destruct (negb _); [done|]. by destruct (json_of _). }
  destruct (bool_decide (pathname request = lit "/api/chat")) eqn:Hp.
  { destruct (bool_decide (method request = lit "POST")) eqn:Hm; [|done].
    apply bool_decide_eq_true in Hp, Hm. by destruct Hroute. }
  destruct (bool_decide (pathname request = lit "/api/realtime")); [|done].
  by destruct (negb _).
Qed.

(** X18.  What a request to the worker can change: at most the Durable
    Object of one session, the one named by the [x-session-id] header of
    the request ("anonymous" when there is none), and that one only by
    appending to its log; a request that is not [POST /api/chat] (a read
    of the messages, an upgrade, a rejected request, a static asset)
    changes no Durable Object and makes no inference call; and [fetch]
    itself never sends a frame. *)
Theorem requests_touch_one_session (env : namespace) (request : Request) :
  let r := fetch env request in
  let sessionId := chat_sessionId_of request in
  (∀ other, other ≠ sessionId → stub (sessions r) other = stub env other)
  ∧ ConversationDO.stored_messages (stub env sessionId)
      `prefix_of` ConversationDO.stored_messages (stub (sessions r) sessionId)
  ∧ (pathname request ≠ lit "/api/chat" ∨ method request ≠ lit "POST" →
     sessions r = env ∧ calls r = [])
  ∧ Forall (λ e, ∀ f, e ≠ Sent f) (calls r).
Proof.
  intros r sessionId. subst r.
  destruct (decide (pathname request = lit "/api/chat")) as [Hp|Hp];
    [destruct (decide (method request = lit "POST")) as [Hm|Hm]|].
  - rewrite fetch_chat by done. cbv zeta. cbn [sessions calls]. fold sessionId.
    split; [intros other Hne; by apply stub_insert_ne|].
    rewrite stub_insert_eq.
    pose proof (handleChatRequest_grows
                  {| DO := stub env sessionId; trace := [] |} (body request)) as [Hlog _].
    split; [exact Hlog|]. split; [by intros [?|?]|].
    destruct (handleChatRequest_fails
                {| DO := stub env sessionId; trace := [] |} (body request))
      as (_ & events & -> & Hevents).
    cbn [trace app]. eapply Forall_impl; [exact Hevents|].
    intros [f| |] He f'; by try done.
  - destruct (fetch_pure env request) as [-> ->]; [by right|]. by repeat split.
  - destruct (fetch_pure env request) as [-> ->]; [by left|]. by repeat split.
Qed.

Lemma sessionId_of_cases request :
  sessionId_of request
  = match sessionId_param request, x_session_id request with
    | Some (c :: s), _ => c :: s
    | _, Some (c :: s) => c :: s
    | _, _ => lit "anonymous"
    end.
Proof.
  unfold sessionId_of, or_else.
  by destruct (sessionId_param request) as [[|? ?]|],
              (x_session_id request) as [[|? ?]|].
Qed.

Lemma fetch_messages env request :
  pathname request = lit "/api/messages" → method request = lit "GET" →
  let log := ConversationDO.stored_messages (stub env (sessionId_of request)) in
  round_trips (JArray log) →
  fetch env request
  = {| sessions := env;
       answer := Respond {| ConversationDO.status := 200;
                            ConversationDO.text := Some (JSON_stringify (JArray log)) |};
       calls := [] |}.
Proof.
  intros Hp Hm log [_ Hrt]. unfold fetch. rewrite Hp, Hm. cbn.
  rewrite messages_of_stored. fold log. unfold json_of. cbn. by rewrite Hrt.
Qed.

(** X19.  [GET /api/messages] answers with status 200 and the JSON text
    of the log of the session it names, and changes nothing; the session
    is the [sessionId] query parameter when that is present and not empty,
    else the [x-session-id] header when that is present and not empty,
    else "anonymous". *)
Theorem messages_reads_log (env : namespace) (request : Request) :
  pathname request = lit "/api/messages" → method request = lit "GET" →
  let sessionId :=
    match sessionId_param request, x_session_id request with
    | Some (c :: s), _ => c :: s
    | _, Some (c :: s) => c :: s
    | _, _ => lit "anonymous"
    end in
  let log := ConversationDO.stored_messages (stub env sessionId) in
  round_trips (JArray log) →
  fetch env request
  = {| sessions := env;
       answer := Respond {| ConversationDO.status := 200;
                            ConversationDO.text := Some (JSON_stringify (JArray log)) |};
       calls := [] |}.
Proof.
  intros Hp Hm sessionId log Hrt. subst log sessionId.
  rewrite <- sessionId_of_cases in *. by apply fetch_messages.
Qed.

(** X20.  [POST /api/chat] is answered with the failure response of
    status 500 whatever the request carries, and it takes its session from
    the [x-session-id] header alone: the [sessionId] query parameter,
    which names the session for [/api/messages] and [/api/realtime], has
    no influence on what it does. *)
Theorem chat_ignores_query_session (env : namespace) (request : Request)
    (param : option jsstring) :
  pathname request = lit "/api/chat" → method request = lit "POST" →
  answer (fetch env request) = Respond failure
  ∧ fetch env {| method := method request; pathname := pathname request;
                 sessionId_param := param; x_session_id := x_session_id request;
                 upgrade := upgrade request; body := body request |}
    = fetch env request.
Proof.
  intros Hp Hm. split.
  - rewrite fetch_chat by done. cbv zeta. cbn [answer].
    by destruct (handleChatRequest_fails
                   {| DO := stub env (chat_sessionId_of request); trace := [] |}
                   (body request)) as [-> _].
  - by rewrite !fetch_chat.
Qed.

(** X21.  What a connection wrote is what a reload reads: after an upgrade
    of [/api/realtime] for a session and a [user_message] frame whose turn
    streams a reply, [GET /api/messages] for the same session answers with
    the former log followed by the user message and, when the reply is not
    empty, by the assistant message that holds the concatenation of the
    fragments sent. *)
Theorem realtime_log_is_served (env : namespace) (connect read : Request)
    (s : jsstring) (data : jsval) (stream : list chunk) :
  pathname connect = lit "/api/realtime" → upgrade connect = Some (lit "websocket") →
  pathname read = lit "/api/messages" → method read = lit "GET" →
  sessionId_of read = sessionId_of connect →
  JSON_parse s = Some data →
  get data (lit "type") = Some (JString (lit "user_message")) →
  let sessionId := sessionId_of connect in
  let msg := message (lit "user") (get data (lit "content")) in
  let log := ConversationDO.stored_messages (stub env sessionId) ++ [msg] in
  let canonical := if existsb is_system log then log else system_message :: log in
  let text := concat (map ToString (fragments stream)) in
  let reply := message (lit "assistant") (Some (JString text)) in
  let served := log ++ match text with [] => [] | _ => [reply] end in
  round_trips msg → round_trips (JArray log) → JNull ∉ log → round_trips reply →
  round_trips (JArray served) →
  AI_run canonical = Normal stream →
  answer (fetch env connect) = Upgraded sessionId
  ∧ answer (fetch (settle env sessionId (handle (handleRealtime env sessionId) (Text s)))
              read)
    = Respond {| ConversationDO.status := 200;
                 ConversationDO.text := Some (JSON_stringify (JArray served)) |}.
Proof.
  intros Hpc Hu Hpr Hm Hsame Hp Ht sessionId msg log canonical text reply served
    Hmsg Hlog Hn Hreply Hserved Hrun.
  split.
  - unfold fetch. rewrite Hpc, Hu. by cbn.
  - destruct (duplex_turn_fidelity (handleRealtime env sessionId) s data stream Hp Ht)
      as [_ Hstored]; try done.
    cbn [handleRealtime session_of DO] in Hstored. fold msg log text reply served in Hstored.
    pose proof (fetch_messages
                  (settle env sessionId (handle (handleRealtime env sessionId) (Text s)))
                  read Hpr Hm) as Hread.
    rewrite Hsame in Hread. fold sessionId in Hread.
    cbv zeta in Hread.
    assert (ConversationDO.stored_messages
              (stub (settle env sessionId (handle (handleRealtime env sessionId) (Text s)))
                 sessionId) = served) as Hsettled
      by (unfold settle; by rewrite stub_insert_eq).
    rewrite Hsettled in Hread. by rewrite (Hread Hserved).
Qed.

End router_facts.

Import Example Scenario.
#[local] Existing Instance Example.platform.

(** A read of the messages of session "s1", the query parameter empty and
    the session named by the header. *)
Lemma messages_reads_log_witness :
  let env : namespace := {[ lit "s1" := {["messages"%string := [user "Hi"]]} ]} in
  let request := {| method := lit "GET"; pathname := lit "/api/messages";
                    sessionId_param := Some []; x_session_id := Some (lit "s1");
                    upgrade := None; body := [] |} in
  answer (fetch (H0 := answering hello_stream) env request)
  = Respond {| ConversationDO.status := 200;
               ConversationDO.text := Some (json_text "[{'role':'user','content':'Hi'}]") |}.
Proof.
  intros env request.
  rewrite (messages_reads_log (H0 := answering hello_stream) env request);
    [reflexivity | reflexivity | reflexivity | split; [done | by vm_compute]].
Defined.

Lemma requests_touch_one_session_witness :
  let env : namespace := {[ lit "s1" := {["messages"%string := [user "Hi"]]} ]} in
  let request := {| method := lit "DELETE"; pathname := lit "/api/chat";
                    sessionId_param := None; x_session_id := Some (lit "s1");
                    upgrade := None; body := [] |} in
  sessions (fetch (H0 := answering hello_stream) env request) = env.
Proof.
  intros env request.
  destruct (requests_touch_one_session (H0 := answering hello_stream) env request)
    as (_ & _ & Hpure & _).
  destruct Hpure as [Hsessions _]; [by right|]. exact Hsessions.
Defined.

Lemma chat_ignores_query_session_witness :
  let request := {| method := lit "POST"; pathname := lit "/api/chat";
                    sessionId_param := Some (lit "s1"); x_session_id := None;
                    upgrade := None;
                    body := json_text "{'messages':[{'role':'user','content':'Hi'}]}" |} in
  answer (fetch (H0 := answering hello_stream) ∅ request) = Respond failure.
Proof.
  intros request.
  by destruct (chat_ignores_query_session (H0 := answering hello_stream) ∅ request None)
    as [-> _].
Defined.

(** The message of that request goes to the session "anonymous", not to
    the session "s1" its query parameter names. *)
Example chat_writes_to_anonymous :
  let request := {| method := lit "POST"; pathname := lit "/api/chat";
                    sessionId_param := Some (lit "s1"); x_session_id := None;
                    upgrade := None;
                    body := json_text "{'messages':[{'role':'user','content':'Hi'}]}" |} in
  let env := sessions (fetch (H0 := answering hello_stream) ∅ request) in
  ConversationDO.stored_messages (stub env (lit "anonymous")) = [user "Hi"]
  ∧ ConversationDO.stored_messages (stub env (lit "s1")) = [].
Proof. vm_compute. split; reflexivity. Qed.

Lemma realtime_log_is_served_witness :
  let connect := {| method := lit "GET"; pathname := lit "/api/realtime";
                    sessionId_param := Some (lit "s1"); x_session_id := None;
                    upgrade := Some (lit "websocket"); body := [] |} in
  let read := {| method := lit "GET"; pathname := lit "/api/messages";
                 sessionId_param := Some (lit "s1"); x_session_id := None;
                 upgrade := None; body := [] |} in
  answer (fetch (H0 := answering hello_stream)
            (settle ∅ (lit "s1")
               (handle (H0 := answering hello_stream) (handleRealtime ∅ (lit "s1"))
                  (Text user_message_Hi)))
            read)
  = Respond {| ConversationDO.status := 200;
               ConversationDO.text :=
                 Some (JSON_stringify (JArray [user "Hi"; assistant "Hello"])) |}.
Proof.
  intros connect read.
  edestruct (realtime_log_is_served (H0 := answering hello_stream) ∅ connect read
               user_message_Hi
               (JObject [(lit "type", JString (lit "user_message"));
                         (lit "content", JString (lit "Hi"))])
               hello_stream) as [_ Hread];
    [reflexivity | reflexivity | reflexivity | reflexivity | reflexivity
    | by vm_compute | by vm_compute
    | split; [done | by vm_compute]
    | split; [done | by vm_compute]
    | intros Hin; by apply list_elem_of_singleton in Hin
    | split; [done | by vm_compute]
    | split; [done | by vm_compute]
    | reflexivity
    | exact Hread].
Defined.

End RouterFacts.

(** * The page: the wait for a reply, the controls, the reply shown *)

Module ClientFacts.
Import Conversion Delta Worker Reader Wire Client.
Import LogFacts HistoryFacts TurnFacts HandlerFacts TurnLaws.

(** Two string literals of the script differ. *)
Ltac distinct :=
  repeat match goal with
         | |- context [decide (lit ?a = lit ?b)] =>
             let Heq := fresh in
             destruct (decide (lit a = lit b)) as [Heq|_]; [by vm_compute in Heq|]
         end.

Section client_facts.
Context `{Platform} `{Browser} `{Inference}.

Lemma dispatch_cases data p :
  dispatch data p
  = match get data (lit "type") with
    | Some (JString t) =>
        if decide (t = lit "delta") then on_delta (get data (lit "content")) p
        else if decide (t = lit "done") then on_done p
        else if decide (t = lit "transcript")
             then on_transcript (get data (lit "content")) p
        else if decide (t = lit "error") then on_error (get data (lit "message")) p
        else Some p
    | _ => Some p
    end.
Proof.
  unfold dispatch, when.
  destruct (get data (lit "type")) as [[| | |t| |]|]; try done.
  destruct (decide (t = lit "delta")) as [->|Hdelta].
  { destruct (on_delta _ p) as [p'|]; [|done]. cbn [mbind option_bind]. by distinct. }
  cbn [mbind option_bind]. destruct (decide (t = lit "done")) as [->|Hdone].
  { destruct (on_done p) as [p'|]; [|done]. cbn [mbind option_bind]. by distinct. }
  cbn [mbind option_bind]. destruct (decide (t = lit "transcript")) as [->|Htranscript].
  { destruct (on_transcript _ p) as [p'|]; [|done]. cbn [mbind option_bind]. by distinct. }
  cbn [mbind option_bind]. by destruct (decide (t = lit "error")).
Qed.

(** What the listener does on a frame, by the branch it takes. *)
Lemma listener_cases ev_data p :
  on_socket_message ev_data p = p
  ∨ (closes ev_data = false
     ∧ ∃ content, on_delta content p = Some (on_socket_message ev_data p))
  ∨ (closes ev_data = false
     ∧ ∃ content, on_transcript content p = Some (on_socket_message ev_data p))
  ∨ (closes ev_data = true ∧ on_done p = Some (on_socket_message ev_data p))
  ∨ (closes ev_data = true
     ∧ ∃ message, on_error message p = Some (on_socket_message ev_data p)).
Proof.
  unfold on_socket_message, closes.
  destruct (JSON_parse ev_data) as [data|]; [|by left].
  set (closing := match get data (lit "type") with
                  | Some (JString t) =>
                      bool_decide (t = lit "done") || bool_decide (t = lit "error")
                  | _ => false
                  end).
  assert (default p (dispatch data p) = p
          ∨ (closing = false
             ∧ ∃ content, on_delta content p = Some (default p (dispatch data p)))
          ∨ (closing = false
             ∧ ∃ content, on_transcript content p = Some (default p (dispatch data p)))
          ∨ (closing = true ∧ on_done p = Some (default p (dispatch data p)))
          ∨ (closing = true
             ∧ ∃ message, on_error message p = Some (default p (dispatch data p))))
    as Hcases.
  { subst closing. rewrite dispatch_cases.
    destruct (get data (lit "type")) as [[| | |t| |]|]; try by left.
    destruct (decide (t = lit "delta")) as [->|Hdelta].
    { destruct (on_delta (get data (lit "content")) p) as [p'|] eqn:E; [|by left].
      right. left. split; [done|]. by exists (get data (lit "content")). }
    destruct (decide (t = lit "done")) as [->|Hdone].
    { destruct (on_done p) as [p'|] eqn:E; [|by left]. by right; right; right; left. }
    destruct (decide (t = lit "transcript")) as [->|Htranscript].
    { destruct (on_transcript (get data (lit "content")) p) as [p'|] eqn:E; [|by left].
      right. right. left. split; [done|]. by exists (get data (lit "content")). }
    destruct (decide (t = lit "error")) as [->|Herror]; [|by left].
    destruct (on_error (get data (lit "message")) p) as [p'|] eqn:E; [|by left].
    right. right. right. right. split; [done|]. by exists (get data (lit "message")). }
  by destruct data.
Qed.

(** A page and the page a handler made of it agree on what the handler
    does not touch. *)
Lemma on_delta_keeps content p p' :
  on_delta content p = Some p' →
  isProcessing p' = isProcessing p ∧ sent p' = sent p
  ∧ userInput_disabled p' = userInput_disabled p
  ∧ sendButton_disabled p' = sendButton_disabled p
  ∧ typingIndicator_visible p' = typingIndicator_visible p
  ∧ chatHistory p' = chatHistory p ∧ socket p' = socket p
  ∧ userInput_value p' = userInput_value p.
Proof.
  unfold on_delta, last_assistant, set_last_text.
  destruct (last (chatMessages p)) as [el|]; [|by intros [= <-]].
  destruct (contains _ el); [|by intros [= <-]].
  destruct (querySelector_p el); [|done].
  destruct (String_throws content); [done|]. by intros [= <-].
Qed.

Lemma on_transcript_sets content p p' :
  on_transcript content p = Some p' →
  isProcessing p' = true ∧ sent p' = sent p ∧ coherent p' ∧ socket p' = socket p
  ∧ transcriptTimeout p' = true.
Proof.
  unfold on_transcript. destruct (String_throws content); [done|]. by intros [= <-].
Qed.

Lemma on_done_sets p p' :
  on_done p = Some p' →
  isProcessing p' = false ∧ sent p' = sent p ∧ coherent p' ∧ socket p' = socket p
  ∧ transcriptTimeout p' = transcriptTimeout p
  ∧ chatMessages p' = chatMessages p.
Proof.
  unfold on_done, last_assistant.
  destruct (last (chatMessages p)) as [el|]; [|by intros [= <-]].
  destruct (contains _ el); [|by intros [= <-]].
  destruct (querySelector_p el); [|done]. by intros [= <-].
Qed.

Lemma on_error_sets message p p' :
  on_error message p = Some p' →
  isProcessing p' = false ∧ sent p' = sent p ∧ coherent p' ∧ socket p' = socket p.
Proof.
  unfold on_error. destruct (String_throws message); [done|]. by intros [= <-].
Qed.

Lemma sendMessage_busy p :
  isProcessing p = true → sendMessage p = p.
Proof. intros Hp. unfold sendMessage. rewrite Hp. by rewrite orb_true_r. Qed.

Lemma render_cons m msgs p :
  render (m :: msgs) p = p
  ∨ render (m :: msgs) p
    = render msgs (addMessageToChat (get m (lit "role")) (get m (lit "content")) p).
Proof. destruct m; cbn [render]; auto; destruct (_ || _); auto. Qed.

Lemma render_keeps msgs p :
  isProcessing (render msgs p) = isProcessing p ∧ sent (render msgs p) = sent p
  ∧ userInput_disabled (render msgs p) = userInput_disabled p
  ∧ sendButton_disabled (render msgs p) = sendButton_disabled p
  ∧ typingIndicator_visible (render msgs p) = typingIndicator_visible p
  ∧ socket (render msgs p) = socket p.
Proof.
  revert p. induction msgs as [|m msgs IH]; intros p; [done|].
  destruct (render_cons m msgs p) as [-> | ->]; [done|].
  by destruct (IH (addMessageToChat (get m (lit "role")) (get m (lit "content")) p))
    as (-> & -> & -> & -> & -> & ->).
Qed.

Lemma loadSessionMessages_keeps res p :
  isProcessing (loadSessionMessages res p) = isProcessing p
  ∧ sent (loadSessionMessages res p) = sent p
  ∧ userInput_disabled (loadSessionMessages res p) = userInput_disabled p
  ∧ sendButton_disabled (loadSessionMessages res p) = sendButton_disabled p
  ∧ typingIndicator_visible (loadSessionMessages res p) = typingIndicator_visible p
  ∧ socket (loadSessionMessages res p) = socket p.
Proof.
  unfold loadSessionMessages. destruct res as [res|]; [|done].
  destruct (negb _); [done|].
  destruct (JSON_parse _) as [[| | | |[|m rest]|]|]; try done.
  by destruct (render_keeps (m :: rest) (with_children [] (with_history (m :: rest) p)))
    as (-> & -> & -> & -> & -> & ->).
Qed.

(** What a handler of the recorder does: it hands its frame to the
    socket and touches nothing else. *)
Lemma socket_send_recorded frame p :
  isProcessing (default p (socket_send frame p)) = isProcessing p
  ∧ sent (default p (socket_send frame p))
    = sent p ++ match socket p with OPEN => [frame] | _ => [] end
  ∧ socket (default p (socket_send frame p)) = socket p
  ∧ userInput_disabled (default p (socket_send frame p)) = userInput_disabled p
  ∧ sendButton_disabled (default p (socket_send frame p)) = sendButton_disabled p
  ∧ typingIndicator_visible (default p (socket_send frame p)) = typingIndicator_visible p.
Proof.
  unfold socket_send. destruct (socket p) eqn:Hs; cbn; rewrite ?app_nil_r; by rewrite ?Hs.
Qed.

Lemma on_voice_click_keeps getUserMedia p :
  isProcessing (on_voice_click getUserMedia p) = isProcessing p
  ∧ sent (on_voice_click getUserMedia p) = sent p
  ∧ socket (on_voice_click getUserMedia p) = socket p
  ∧ userInput_disabled (on_voice_click getUserMedia p) = userInput_disabled p
  ∧ sendButton_disabled (on_voice_click getUserMedia p) = sendButton_disabled p
  ∧ typingIndicator_visible (on_voice_click getUserMedia p) = typingIndicator_visible p.
Proof.
  unfold on_voice_click. destruct (negb getUserMedia); [done|].
  destruct (socket p) eqn:Hs; try done. destruct (isRecording p); [|done].
  cbn. by rewrite Hs.
Qed.

(** What one occurrence sends while a reply is awaited, and that the
    page goes on waiting. *)
Lemma react_waiting p e :
  isProcessing p = true →
  match e with
  | Message ev_data => closes ev_data = false
  | TimerFires => False
  | _ => True
  end →
  isProcessing (react p e) = true
  ∧ sent (react p e)
    = sent p ++ match socket p with OPEN => option_list (recorded e) | _ => [] end
  ∧ socket (react p e) = readyState_after (socket p) e.
Proof.
  intros Hp He.
  assert (sent p ++ match socket p with OPEN => [] | _ => [] end = sent p) as Hnil
    by (rewrite <- (app_nil_r (sent p)) at 2; by destruct (socket p)).
  destruct e as [value| |ev_data| |res|getUserMedia|started|ev_data| | | |];
    cbn [react recorded readyState_after]; unfold option_list; rewrite ?Hnil; try done.
  - by rewrite sendMessage_busy.
  - destruct (listener_cases ev_data p)
      as [->|[(_ & content & Hd)|[(_ & content & Ht)|[[Hc _]|[Hc _]]]]].
    + done.
    + by destruct (on_delta_keeps _ _ _ Hd) as (-> & -> & _ & _ & _ & _ & -> & _).
    + by destruct (on_transcript_sets _ _ _ Ht) as (-> & -> & _ & -> & _).
    + by rewrite Hc in He.
    + by rewrite Hc in He.
  - by destruct (loadSessionMessages_keeps res p) as (-> & -> & _ & _ & _ & ->).
  - by destruct (on_voice_click_keeps getUserMedia p) as (-> & -> & -> & _).
  - by destruct started.
  - destruct ev_data as [|b ev_data]; cbn [ondataavailable]; rewrite ?Hnil; [done|].
    by destruct (socket_send_recorded (Binary (b :: ev_data)) p) as (-> & -> & -> & _).
  - unfold onstop.
    by destruct (socket_send_recorded (Text (JSON_stringify Wire.audio_end)) p)
      as (-> & -> & -> & _).
Qed.

(** While the socket stays open, what is handed to it is what the
    recorder produced. *)
Lemma handed_open events :
  Forall (λ e, readyState_after OPEN e = OPEN) events →
  handed OPEN events = omap recorded events.
Proof.
  induction events as [|e events IH]; [done|].
  intros [He Hall]%Forall_cons. cbn [handed]. rewrite He, IH, omap_cons by done.
  by destruct (recorded e).
Qed.

(** X22.  One typed request at a time, and no more than that: while a
    reply is awaited ([isProcessing] is set), whatever the user types or
    clicks (the send button, the voice button), whatever happens to the
    socket and whatever frames arrive that are neither [done] nor [error],
    as long as the timer does not fire, the page goes on waiting and sends
    no [user_message].  What it sends is what the callbacks of the
    recorder hand to the socket, which do not look at [isProcessing]:
    while the socket is open every chunk that is not empty, as a binary
    frame, and an [audio_end] frame when the recorder stops, in the order
    of the events; nothing while the socket is not open. *)
Theorem one_request_in_flight (p : page) (events : list occurrence) :
  isProcessing p = true →
  Forall (λ e, match e with
               | Message ev_data => closes ev_data = false
               | TimerFires => False
               | _ => True
               end) events →
  isProcessing (play p events) = true
  ∧ sent (play p events) = sent p ++ handed (socket p) events
  ∧ (socket p = OPEN → Forall (λ e, readyState_after OPEN e = OPEN) events →
     sent (play p events) = sent p ++ omap recorded events).
Proof.
  intros Hp Hall.
  assert (isProcessing (play p events) = true
          ∧ sent (play p events) = sent p ++ handed (socket p) events) as [Hwaits Hsent].
  { revert p Hp Hall. induction events as [|e events IH]; intros p Hp Hall.
    { split; [done|]. cbn. by rewrite app_nil_r. }
    apply Forall_cons in Hall as [He Hall]. unfold play in *. cbn [foldl handed].
    destruct (react_waiting p e Hp He) as (Hp' & Hsent & Hsocket).
    destruct (IH (react p e) Hp' Hall) as [-> ->]. split; [done|].
    by rewrite Hsent, Hsocket, <- app_assoc. }
  split; [done|]. split; [done|].
  intros Hopen Hstays. by rewrite Hsent, Hopen, handed_open.
Qed.

Lemma sendMessage_coherent p : coherent (sendMessage p) ∨ sendMessage p = p.
Proof.
  unfold sendMessage.
  destruct (bool_decide (trim (userInput_value p) = []) || isProcessing p); [by right|].
  left. unfold socket_send. cbn [socket appendChild with_history with_input addMessageToChat processing].
  by destruct (socket p).
Qed.

Lemma step_coherent p e : coherent p → coherent (react p e).
Proof.
  intros Hp.
  destruct e as [value| |ev_data| |res|getUserMedia|started|ev_data| | | |]; cbn [react].
  - done.
  - by destruct (sendMessage_coherent p) as [?| ->].
  - destruct (listener_cases ev_data p)
      as [->|[(_ & content & Hd)|[(_ & content & Ht)|[[_ Hd]|(_ & message & He)]]]].
    + done.
    + unfold coherent in *.
      by destruct (on_delta_keeps _ _ _ Hd) as (-> & _ & -> & -> & -> & _).
    + by destruct (on_transcript_sets _ _ _ Ht) as (_ & _ & ? & _).
    + by destruct (on_done_sets _ _ Hd) as (_ & _ & ? & _).
    + by destruct (on_error_sets _ _ _ He) as (_ & _ & ? & _).
  - unfold on_timeout. by destruct (transcriptTimeout p).
  - unfold coherent in *.
    by destruct (loadSessionMessages_keeps res p) as (-> & _ & -> & -> & -> & _).
  - unfold coherent in *.
    by destruct (on_voice_click_keeps getUserMedia p) as (-> & _ & _ & -> & -> & ->).
  - by destruct started.
  - unfold coherent in *. destruct ev_data as [|b ev_data]; [done|].
    cbn [ondataavailable].
    by destruct (socket_send_recorded (Binary (b :: ev_data)) p)
      as (-> & _ & _ & -> & -> & ->).
  - unfold coherent in *. unfold onstop.
    by destruct (socket_send_recorded (Text (JSON_stringify Wire.audio_end)) p)
      as (-> & _ & _ & -> & -> & ->).
  - done.
  - done.
  - done.
Qed.

(** X23.  The controls follow the wait for a reply: on a page where the
    input and the send button are disabled and the typing indicator shows
    exactly while [isProcessing] is set, this stays so whatever happens
    (input, clicks, frames of any kind, the timer, a reload of the
    history). *)
Theorem controls_follow_processing (p : page) (events : list occurrence) :
  coherent p → coherent (play p events).
Proof.
  revert p. induction events as [|e events IH]; intros p Hp; [done|].
  apply (IH (react p e)). by apply step_coherent.
Qed.

Lemma page_run_cons p e events : play p (e :: events) = play (react p e) events.
Proof. reflexivity. Qed.

Lemma page_run_app p events1 events2 :
  play p (events1 ++ events2) = play (play p events1) events2.
Proof. apply foldl_app. Qed.

Lemma on_message_typed s data t p :
  JSON_parse s = Some data → get data (lit "type") = Some (JString t) →
  on_socket_message s p
  = default p
      (if decide (t = lit "delta") then on_delta (get data (lit "content")) p
       else if decide (t = lit "done") then on_done p
       else if decide (t = lit "transcript")
            then on_transcript (get data (lit "content")) p
       else if decide (t = lit "error") then on_error (get data (lit "message")) p
       else Some p).
Proof.
  intros Hp Ht. unfold on_socket_message. rewrite Hp, dispatch_cases, Ht. by destruct data.
Qed.

Lemma user_element message :
  element_of (Worker.message (lit "user") (Some (JString message)))
  = {| className := lit "message user-message";
       querySelector_p := Some (Markup message) |}.
Proof. reflexivity. Qed.

(** What [sendMessage] does when it sends. *)
Lemma sendMessage_sends p :
  socket p = OPEN → isProcessing p = false → trim (userInput_value p) ≠ [] →
  let message := trim (userInput_value p) in
  sendMessage p
  = {| chatMessages :=
         chatMessages p
         ++ [element_of (Worker.message (lit "user") (Some (JString message)));
             placeholder];
       userInput_value := [];
       userInput_disabled := true;
       sendButton_disabled := true;
       typingIndicator_visible := true;
       chatHistory :=
         chatHistory p ++ [Worker.message (lit "user") (Some (JString message))];
       isProcessing := true;
       isRecording := isRecording p;
       transcriptTimeout := transcriptTimeout p;
       socket := OPEN;
       sent := sent p ++ [Text (JSON_stringify (Wire.user_message message))] |}.
Proof.
  intros Hsocket Hidle Hmessage message. unfold sendMessage. fold message.
  rewrite Hidle, bool_decide_eq_false_2 by done. cbn [orb].
  unfold socket_send.
  cbn [socket appendChild with_history with_input addMessageToChat processing
       chatMessages userInput_value userInput_disabled sendButton_disabled
       typingIndicator_visible chatHistory isProcessing isRecording transcriptTimeout
       sent].
  rewrite Hsocket, user_element, <- app_assoc. reflexivity.
Qed.

Lemma contains_placeholder : contains (lit "assistant-message") placeholder = true.
Proof. by vm_compute. Qed.

Lemma on_delta_last children cls para content p :
  chatMessages p = children ++ [{| className := cls; querySelector_p := Some para |}] →
  contains (lit "assistant-message") {| className := cls; querySelector_p := Some para |}
  = true →
  String_throws content = false →
  on_delta content p
  = Some (with_timer false
            (with_children
               (children
                ++ [{| className := cls;
                       querySelector_p :=
                         Some (PlainText (textContent para ++ String content)) |}])
               p)).
Proof.
  intros Hc Hcontains Hcontent. unfold on_delta, last_assistant, set_last_text.
  by rewrite Hc, last_snoc, Hcontains, Hcontent, removelast_last.
Qed.

Lemma on_done_last children cls para p :
  chatMessages p = children ++ [{| className := cls; querySelector_p := Some para |}] →
  contains (lit "assistant-message") {| className := cls; querySelector_p := Some para |}
  = true →
  on_done p
  = Some (processing false
            (with_history
               (chatHistory p ++ [entry "assistant" (Some (JString (textContent para)))])
               p)).
Proof.
  intros Hc Hcontains. unfold on_done, last_assistant.
  by rewrite Hc, last_snoc, Hcontains.
Qed.

Section frames.
Context (String_of_error : exn → jsstring).

(** A frame as the page receives it. *)
Abbreviation arrival f := (Message (JSON_stringify (object_of String_of_error f))).

(** The frame survives the way from the worker to the page. *)
Abbreviation arrives f :=
  (JSON_parse (JSON_stringify (object_of String_of_error f))
   = Some (object_of String_of_error f)).

Lemma on_message_Delta content p :
  arrives (Delta content) →
  on_socket_message (JSON_stringify (object_of String_of_error (Delta content))) p
  = default p (on_delta (Some content) p).
Proof. intros Hp. by rewrite (on_message_typed _ _ (lit "delta") _ Hp eq_refl). Qed.

Lemma on_message_Done p :
  arrives Done →
  on_socket_message (JSON_stringify (object_of String_of_error Done)) p = default p (on_done p).
Proof. intros Hp. by rewrite (on_message_typed _ _ (lit "done") _ Hp eq_refl). Qed.

Lemma on_message_Transcript content p :
  arrives (Transcript content) →
  on_socket_message (JSON_stringify (object_of String_of_error (Transcript content))) p
  = default p (on_transcript (Some (JString content)) p).
Proof. intros Hp. by rewrite (on_message_typed _ _ (lit "transcript") _ Hp eq_refl). Qed.

(** The [delta] frames of a reply, appended to the text of the last
    message. *)
Lemma deltas_shown contents children cls text p :
  Forall (λ content, throws content = false) contents →
  Forall (λ f, arrives f) (map Delta contents) →
  chatMessages p
  = children ++ [{| className := cls; querySelector_p := Some (PlainText text) |}] →
  contains (lit "assistant-message")
    {| className := cls; querySelector_p := Some (PlainText text) |} = true →
  let q := play p (map (λ f, arrival f) (map Delta contents)) in
  chatMessages q
  = children
    ++ [{| className := cls;
           querySelector_p :=
             Some (PlainText (text ++ concat (map ToString contents))) |}]
  ∧ chatHistory q = chatHistory p ∧ isProcessing q = isProcessing p
  ∧ sent q = sent p ∧ socket q = socket p
  ∧ userInput_value q = userInput_value p.
Proof.
  revert text p.
  induction contents as [|content contents IH]; intros text p Hconvert Hall Hc Hcls q.
  - subst q. cbn. by rewrite app_nil_r.
  - cbn [map] in Hall. apply Forall_cons in Hall as [Hcontent Hall].
    apply Forall_cons in Hconvert as [Hconverts Hconvert].
    subst q. cbn [map]. rewrite page_run_cons. cbn [react].
    rewrite on_message_Delta by done.
    rewrite (on_delta_last children cls (PlainText text)) by done.
    cbn [default from_option id textContent String].
    set (p' := with_timer false _).
    destruct (IH (text ++ ToString content) p' Hconvert Hall)
      as (Hq & -> & -> & -> & -> & ->);
      [done| exact Hcls |].
    split; [|done]. rewrite Hq. cbn [concat map].
    by rewrite app_assoc.
Qed.

Lemma frames_of_sent frames : frames_of (map Sent frames) = frames.
Proof. induction frames as [|f frames IH]; [done|]. cbn. by f_equal. Qed.

(** X24.  A turn as the page shows it and as the log keeps it.  The user
    types a message and sends it while no reply is awaited; the worker
    handles the frame and its turn streams a reply; the page receives the
    frames the worker sent.  Then the frame carried the trimmed input; the
    page shows the user message and, in the assistant message below it,
    the concatenation of the fragments; the history of the page gained the
    user message and that reply, the log the same user message and, when
    the reply is not empty, the same reply; and the page no longer
    waits. *)
Theorem turn_shown_is_turn_stored (p : page) (w : world) (stream : list chunk) :
  socket p = OPEN → isProcessing p = false →
  let message := trim (userInput_value p) in
  message ≠ [] →
  let frame := JSON_stringify (Wire.user_message message) in
  JSON_parse frame = Some (Wire.user_message message) →
  let msg := Worker.message (lit "user") (Some (JString message)) in
  let log := ConversationDO.stored_messages (DO (session_of w)) ++ [msg] in
  let canonical := if existsb is_system log then log else system_message :: log in
  let contents := fragments stream in
  let text := concat (map ToString contents) in
  let reply := Worker.message (lit "assistant") (Some (JString text)) in
  round_trips msg → round_trips (JArray log) → JNull ∉ log → round_trips reply →
  AI_run canonical = Normal stream →
  Forall (λ f, arrives f) (map Delta contents ++ [Done]) →
  let p1 := sendMessage p in
  let w1 := handle w (Text frame) in
  let served :=
    frames_of (drop (length (trace (session_of w))) (trace (session_of w1))) in
  let p2 := play p1 (map (λ f, arrival f) served) in
  sent p1 = sent p ++ [Text frame]
  ∧ served = map Delta contents ++ [Done]
  ∧ chatMessages p2
    = chatMessages p
      ++ [element_of msg;
          {| className := lit "message assistant-message";
             querySelector_p := Some (PlainText text) |}]
  ∧ chatHistory p2 = chatHistory p ++ [msg; reply]
  ∧ ConversationDO.stored_messages (DO (session_of w1))
    = log ++ match text with [] => [] | _ => [reply] end
  ∧ isProcessing p2 = false
  ∧ sent p2 = sent p1.
Proof.
  intros Hsocket Hidle message Hmessage frame Hframe msg log canonical contents text
    reply Hmsg Hlog Hn Hreply Hrun Hwire p1 w1 served p2.
  assert (sent p1 = sent p ++ [Text frame]
          ∧ chatMessages p1 = (chatMessages p ++ [element_of msg]) ++ [placeholder]
          ∧ chatHistory p1 = chatHistory p ++ [msg]) as (Hsent & Hchildren & Hhistory).
  { subst p1. rewrite sendMessage_sends by done. cbn [sent chatMessages chatHistory].
    split; [done|]. split; [by rewrite <- app_assoc|done]. }
  destruct (duplex_turn_fidelity w frame (Wire.user_message message) stream Hframe eq_refl)
    as [Htrace Hstored]; try done.
  change (get (Wire.user_message message) (lit "content"))
    with (Some (JString message)) in Htrace, Hstored.
  fold w1 msg log canonical contents text reply in Htrace, Hstored.
  assert (served = map Delta contents ++ [Done]) as Hserved.
  { subst served. rewrite Htrace, drop_app_length.
    unfold frames_of. rewrite !omap_app. fold (frames_of (map Sent (map Delta contents))).
    rewrite frames_of_sent. cbn [omap app]. by destruct text. }
  apply Forall_app in Hwire as [Hdeltas Hdone]. apply Forall_cons in Hdone as [Hdone _].
  destruct (deltas_shown contents (chatMessages p ++ [element_of msg])
              (lit "message assistant-message") [] p1
              (fragments_convert (frame_decoder stream)) Hdeltas Hchildren
              contains_placeholder) as (Hq & Hqh & Hqp & Hqs & _).
  set (q := play p1 (map (λ f, arrival f) (map Delta contents))) in *.
  assert (p2 = default q (on_done q)) as Hp2.
  { subst p2. rewrite Hserved, map_app, page_run_app. fold q.
    cbn [map]. rewrite page_run_cons. cbn [react play foldl]. exact (on_message_Done q Hdone). }
  rewrite (on_done_last _ _ _ _ Hq contains_placeholder) in Hp2.
  cbn [default from_option id] in Hp2.
  rewrite Hp2.
  cbn [processing with_history chatMessages chatHistory isProcessing sent textContent app].
  rewrite Hq, Hqh, Hhistory, Hqs, <- !app_assoc. by repeat split.
Qed.

(** The element the timer's callback adds. *)
Abbreviation timed_out :=
  {| className := lit "message assistant-message";
     querySelector_p :=
       Some (Markup (lit "Error: response timed out. Please try again.")) |}.

(** X25.  A [done] frame does not cancel the timer that a [transcript]
    frame started.  When no [delta] arrives between the two, the timer is
    still pending after the turn has ended; when it fires, the page shows
    the time-out error and stops waiting, whatever it is waiting for: a
    message sent in between is then followed by a second one before the
    first was answered. *)
Theorem done_leaves_timer_pending (p : page) (content first second : jsstring) :
  arrives (Transcript content) → arrives Done →
  socket p = OPEN → trim first ≠ [] → trim second ≠ [] →
  let p1 := play p [arrival (Transcript content); arrival Done] in
  let p2 := play p1 [Input first; Send] in
  let p3 := play p2 [TimerFires] in
  let p4 := play p3 [Input second; Send] in
  isProcessing p1 = false ∧ transcriptTimeout p1 = true
  ∧ isProcessing p2 = true
  ∧ isProcessing p3 = false ∧ last (chatMessages p3) = Some timed_out
  ∧ sent p4
    = sent p ++ [Text (JSON_stringify (Wire.user_message (trim first)));
                 Text (JSON_stringify (Wire.user_message (trim second)))].
Proof.
  intros Htranscript Hdone Hsocket Hfirst Hsecond p1 p2 p3 p4.
  set (q := addMessageToChat (Some (JString (lit "user"))) (Some (JString content)) p).
  assert (p1 = processing false
                 (with_history
                    ((chatHistory p ++ [entry "user" (Some (JString content))])
                     ++ [entry "assistant" (Some (JString []))])
                    (with_timer true
                       (processing true
                          (appendChild placeholder
                             (with_history
                                (chatHistory p ++ [entry "user" (Some (JString content))])
                                q)))))) as Hp1.
  { subst p1. unfold play. cbn [foldl react].
    rewrite on_message_Transcript by done. unfold on_transcript at 1.
    cbn [default from_option id]. fold q.
    rewrite on_message_Done by done.
    rewrite (on_done_last (chatMessages q) (lit "message assistant-message")
               (PlainText []));
      [reflexivity | reflexivity | exact contains_placeholder]. }
  assert (isProcessing p1 = false ∧ transcriptTimeout p1 = true
          ∧ socket p1 = OPEN ∧ sent p1 = sent p) as (Hidle1 & Htimer1 & Hsocket1 & Hsent1).
  { rewrite Hp1. cbn. by rewrite Hsocket. }
  assert (p2 = sendMessage (with_input first p1)) as Hp2 by reflexivity.
  rewrite sendMessage_sends in Hp2 by done.
  cbv zeta in Hp2.
  cbn [with_input userInput_value chatMessages chatHistory transcriptTimeout sent] in Hp2.
  assert (p3 = on_timeout p2) as Hp3 by reflexivity.
  unfold on_timeout in Hp3. rewrite Hp2 in Hp3 at 1. cbn [transcriptTimeout] in Hp3.
  rewrite Htimer1 in Hp3.
  assert (isProcessing p3 = false ∧ socket p3 = OPEN ∧ sent p3 = sent p2
          ∧ last (chatMessages p3) = Some timed_out) as (Hidle3 & Hsocket3 & Hsent3 & Hlast3).
  { rewrite Hp3. cbn [with_timer processing addMessageToChat appendChild isProcessing
                      socket sent chatMessages].
    split; [done|]. split; [by rewrite Hp2|]. split; [done|]. by rewrite last_snoc. }
  assert (p4 = sendMessage (with_input second p3)) as Hp4 by reflexivity.
  rewrite sendMessage_sends in Hp4 by done.
  cbv zeta in Hp4. cbn [with_input userInput_value sent] in Hp4.
  split; [done|]. split; [done|]. split; [by rewrite Hp2|].
  split; [done|]. split; [done|].
  rewrite Hp4. cbn [sent]. rewrite Hsent3, Hp2. cbn [sent].
  by rewrite Hsent1, <- app_assoc.
Qed.

End frames.

Lemma render_rendered msgs p :
  render msgs p = with_children (chatMessages p ++ map element_of (rendered msgs)) p.
Proof.
  revert p. induction msgs as [|m msgs IH]; intros p.
  - cbn. rewrite app_nil_r. by destruct p.
  - assert ((render (m :: msgs) p = p ∧ rendered (m :: msgs) = [])
            ∨ (render (m :: msgs) p
               = render msgs
                   (addMessageToChat (get m (lit "role")) (get m (lit "content")) p)
               ∧ rendered (m :: msgs) = m :: rendered msgs)) as [[-> ->]|[-> ->]].
    { destruct m; cbn [render rendered]; auto; destruct (_ || _); auto. }
    + cbn. rewrite app_nil_r. by destruct p.
    + rewrite IH. cbn [addMessageToChat appendChild chatMessages map].
      by rewrite <- app_assoc.
Qed.

(** The loop renders every entry of a log that holds no [null] and no
    role or content whose conversion throws. *)
Lemma rendered_all msgs :
  JNull ∉ msgs →
  Forall (λ m, String_throws (get m (lit "role")) = false
               ∧ String_throws (get m (lit "content")) = false) msgs →
  rendered msgs = msgs.
Proof.
  induction msgs as [|m msgs IH]; [done|].
  intros [Hm Hn]%not_elem_of_cons [[Hrole Hcontent] Hall]%Forall_cons.
  assert (rendered (m :: msgs) = m :: rendered msgs) as ->.
  { destruct m; cbn [rendered]; try done; by rewrite Hrole, Hcontent. }
  by rewrite IH.
Qed.

(** X26.  A reload shows the log: on the answer of [GET /api/messages]
    for a session whose log is not empty, [loadSessionMessages] makes the
    log the history of the page and renders one element for each entry, in
    order, with the class made of the entry's role and the entry's content
    as markup, up to the first entry on which it throws: a [null] entry,
    or a role or a content whose conversion to a string throws.  A log in
    which there is none is rendered whole.  On an empty log it renders the
    greeting alone. *)
Theorem reload_renders_log (env : Router.namespace) (request : Router.Request) (p : page) :
  Router.pathname request = lit "/api/messages" → Router.method request = lit "GET" →
  let log := ConversationDO.stored_messages
               (Router.stub env (Router.sessionId_of request)) in
  round_trips (JArray log) →
  (∃ res,
     Router.answer (Router.fetch env request) = Router.Respond res
     ∧ loadSessionMessages (Some res) p
       = match log with
         | [] =>
             with_history
               [entry "assistant" (Some (JString (parsed_textContent GREETING)))]
               (with_children
                  [{| className := lit "message assistant-message";
                      querySelector_p := Some (Markup GREETING) |}] p)
         | _ => with_children (map element_of (rendered log)) (with_history log p)
         end)
  ∧ (JNull ∉ log →
     Forall (λ m, String_throws (get m (lit "role")) = false
                  ∧ String_throws (get m (lit "content")) = false) log →
     rendered log = log).
Proof.
  intros Hp Hm log Hrt. split; [|apply rendered_all]. eexists. split.
  - by rewrite RouterFacts.fetch_messages.
  - fold log. destruct Hrt as [_ Hrt]. unfold loadSessionMessages.
    cbn [ConversationDO.ok ConversationDO.status ConversationDO.text default from_option id
         negb].
    change ((200 <=? 200)%N && (200 <=? 299)%N) with true. cbn [negb].
    rewrite Hrt. destruct log as [|m rest]; [reflexivity|].
    by rewrite render_rendered.
Qed.

(** The element [sendMessage] adds when [socket.send] throws. *)
Abbreviation sorry :=
  {| className := lit "message assistant-message";
     querySelector_p :=
       Some (Markup (lit "Sorry, there was an error processing your request.")) |}.

(** X27.  Sending without an open socket.  While the socket is not there
    yet or still connecting, [socket.send] throws: the page shows the user
    message, the empty assistant message and an error message, keeps the
    user message in its history, sends nothing and stops waiting.  On a
    socket that is closing or closed nothing is thrown and nothing is
    sent: the page waits for a reply, and [sendMessage] starts no timer
    that would end the wait. *)
Theorem send_without_open_socket (p : page) :
  isProcessing p = false → trim (userInput_value p) ≠ [] →
  let msg := Worker.message (lit "user") (Some (JString (trim (userInput_value p)))) in
  (socket p = Unset ∨ socket p = CONNECTING →
   chatMessages (sendMessage p) = chatMessages p ++ [element_of msg; placeholder; sorry]
   ∧ chatHistory (sendMessage p) = chatHistory p ++ [msg]
   ∧ isProcessing (sendMessage p) = false
   ∧ sent (sendMessage p) = sent p)
  ∧ (socket p = CLOSED →
     chatMessages (sendMessage p) = chatMessages p ++ [element_of msg; placeholder]
     ∧ isProcessing (sendMessage p) = true
     ∧ sent (sendMessage p) = sent p
     ∧ transcriptTimeout (sendMessage p) = transcriptTimeout p).
Proof.
  intros Hidle Hmessage msg.
  assert (∀ state, socket p = state → state ≠ OPEN →
            sendMessage p
            = let q := appendChild placeholder
                         (with_history (chatHistory p ++ [msg])
                            (with_input []
                               (addMessageToChat (Some (JString (lit "user")))
                                  (Some (JString (trim (userInput_value p))))
                                  (processing true p)))) in
              match state with
              | Unset | CONNECTING =>
                  processing false
                    (addMessageToChat (Some (JString (lit "assistant")))
                       (Some (JString
                               (lit "Sorry, there was an error processing your request.")))
                       q)
              | CLOSED | OPEN => q
              end) as Hsend.
  { intros state Hstate Hopen. unfold sendMessage.
    rewrite Hidle, bool_decide_eq_false_2 by done. cbn [orb]. unfold socket_send.
    cbn [socket appendChild with_history with_input addMessageToChat processing].
    rewrite Hstate. by destruct state. }
  split.
  - intros [Hs|Hs]; rewrite (Hsend _ Hs) by done; cbn; by rewrite <- !app_assoc.
  - intros Hs. rewrite (Hsend _ Hs) by done. cbn. by rewrite <- !app_assoc.
Qed.

(** X28.  The page ignores what it does not understand: a frame that is
    not JSON text, that is [null], or whose [type] is none of [delta],
    [done], [transcript] and [error] leaves the page exactly as it was. *)
Theorem page_ignores_unknown_frames (p : page) (ev_data : jsstring) :
  JSON_parse ev_data = None
  ∨ JSON_parse ev_data = Some JNull
  ∨ (∃ data, JSON_parse ev_data = Some data
             ∧ ∀ t, get data (lit "type") = Some (JString t) →
                    t ∉ [lit "delta"; lit "done"; lit "transcript"; lit "error"]) →
  on_socket_message ev_data p = p.
Proof.
  intros [Hp|[Hp|(data & Hp & Htype)]]; unfold on_socket_message; rewrite Hp; [done..|].
  rewrite dispatch_cases.
  destruct (get data (lit "type")) as [[| | |t| |]|]; try by destruct data.
  specialize (Htype t eq_refl).
  rewrite !not_elem_of_cons in Htype. destruct Htype as (? & ? & ? & ? & _).
  rewrite !decide_False by done. by destruct data.
Qed.

End client_facts.

Import Example Scenario.
#[local] Existing Instance Example.platform.
#[local] Existing Instance Scenario.text_browser.

Lemma one_request_in_flight_witness :
  let p := sendMessage (page_with "  Hi ") in
  let events := [Input (lit "again"); Send; VoiceClick true; Microphone true;
                 Message (json_text "{'type':'delta','content':'Hel'}");
                 DataAvailable (bytes_of (lit "RIFF")); Send; VoiceClick true;
                 RecorderStops; Message (lit "not json"); SocketCloses;
                 DataAvailable (bytes_of (lit "WAVE")); Send] in
  (isProcessing (play p events) = true
   ∧ sent (play p events) = sent p ++ handed (socket p) events
   ∧ (socket p = OPEN → Forall (λ e, readyState_after OPEN e = OPEN) events →
      sent (play p events) = sent p ++ omap recorded events))
  ∧ handed (socket p) events
    = [Binary (bytes_of (lit "RIFF")); Text (JSON_stringify Wire.audio_end)].
Proof.
  intros p events. split; [|reflexivity].
  apply (one_request_in_flight p events); [by vm_compute|].
  repeat constructor; by vm_compute.
Defined.

(** The wait of the page does not hold back the recorder.  The page waits
    for the reply to a typed message when the recorder stops; the worker,
    which is given both frames, makes two inference calls before either
    turn has ended. *)
Example voice_starts_second_turn :
  let p := play (page_with "Hi") [Send; RecorderStops] in
  let c := run (H0 := answering hello_stream)
             {| shared := connection fresh_session; tasks := [] |}
             (map Arrive (sent p) ++ [Resume 0; Resume 1; Resume 0; Resume 1]) in
  isProcessing p = true
  ∧ sent p = [Text (JSON_stringify (Wire.user_message (lit "Hi")));
              Text (JSON_stringify Wire.audio_end)]
  ∧ started (trace (session_of (shared c))) = 2%nat
  ∧ ended (trace (session_of (shared c))) = 0%nat.
Proof. vm_compute. repeat split; reflexivity. Qed.

Lemma controls_follow_processing_witness :
  coherent (play (page_with "Hi")
              [Send; Message (json_text "{'type':'error','message':'no'}"); TimerFires]).
Proof.
  apply (controls_follow_processing (page_with "Hi")). by vm_compute.
Defined.

Lemma turn_shown_is_turn_stored_witness :
  let p := page_with "  Hi " in
  let w := connection fresh_session in
  let frame := JSON_stringify (Wire.user_message (trim (userInput_value p))) in
  let w1 := handle (H0 := answering hello_stream) w (Text frame) in
  let served :=
    frames_of (drop (length (trace (session_of w))) (trace (session_of w1))) in
  chatHistory
    (play (sendMessage p)
       (map (λ f, Message (JSON_stringify (object_of String_of_error f))) served))
  = chatHistory p ++ [user "Hi"; assistant "Hello"].
Proof.
  intros p w frame w1 served.
  assert (fragments hello_stream = [JString (lit "Hel"); JString (lit "lo")]) as Hfragments
    by (by vm_compute).
  pose proof (turn_shown_is_turn_stored (H1 := answering hello_stream) String_of_error
                p w hello_stream) as Hturn.
  cbv zeta in Hturn. rewrite Hfragments in Hturn.
  destruct Hturn as (_ & _ & _ & Hhistory & _);
    [reflexivity | reflexivity | by vm_compute | by vm_compute
    | split; [done | by vm_compute]
    | split; [done | by vm_compute]
    | intros Hin; by apply list_elem_of_singleton in Hin
    | split; [done | by vm_compute]
    | reflexivity
    | repeat constructor; by vm_compute
    |].
  vm_compute in Hhistory. vm_compute. exact Hhistory.
Defined.

Lemma done_leaves_timer_pending_witness :
  let p := page_with "" in
  let transcript :=
    Message (JSON_stringify (object_of String_of_error (Transcript (lit "[Audio]")))) in
  let done := Message (JSON_stringify (object_of String_of_error Done)) in
  let p1 := play p [transcript; done] in
  let p2 := play p1 [Input (lit "one"); Send] in
  let p3 := play p2 [TimerFires] in
  let p4 := play p3 [Input (lit "two"); Send] in
  isProcessing p2 = true
  ∧ isProcessing p3 = false
  ∧ sent p4
    = sent p ++ [Text (JSON_stringify (Wire.user_message (trim (lit "one"))));
                 Text (JSON_stringify (Wire.user_message (trim (lit "two"))))].
Proof.
  intros p transcript done p1 p2 p3 p4.
  destruct (done_leaves_timer_pending String_of_error p (lit "[Audio]")
              (lit "one") (lit "two")) as (_ & _ & Hbusy & Hidle & _ & Hsent);
    [by vm_compute | by vm_compute | reflexivity | by vm_compute | by vm_compute |].
  split; [exact Hbusy|]. split; [exact Hidle | exact Hsent].
Defined.

Lemma reload_renders_log_witness :
  let env : Router.namespace :=
    {[ lit "s1" := {["messages"%string := [user "Hi"; assistant "Hello"]]} ]} in
  let request := {| Router.method := lit "GET"; Router.pathname := lit "/api/messages";
                    Router.sessionId_param := Some (lit "s1");
                    Router.x_session_id := None;
                    Router.upgrade := None; Router.body := [] |} in
  ∃ res,
    Router.answer (Router.fetch (H0 := answering hello_stream) env request)
    = Router.Respond res
    ∧ chatMessages (loadSessionMessages (Some res) (page_with ""))
      = [element_of (user "Hi"); element_of (assistant "Hello")].
Proof.
  intros env request.
  destruct (reload_renders_log (H1 := answering hello_stream) env request (page_with ""))
    as [(res & Hanswer & Hload) _];
    [reflexivity | reflexivity | split; [done | by vm_compute] |].
  exists res. split; [exact Hanswer|]. rewrite Hload. by vm_compute.
Defined.

Lemma send_without_open_socket_witness :
  isProcessing (sendMessage (page_on CLOSED "Hi")) = true
  ∧ sent (sendMessage (page_on CLOSED "Hi")) = []
  ∧ isProcessing (sendMessage (page_on CONNECTING "Hi")) = false.
Proof.
  destruct (send_without_open_socket (page_on CLOSED "Hi")) as [_ Hclosed];
    [reflexivity | by vm_compute |].
  destruct (send_without_open_socket (page_on CONNECTING "Hi")) as [Hconnecting _];
    [reflexivity | by vm_compute |].
  destruct Hclosed as (_ & Hp & Hs & _); [reflexivity|].
  destruct Hconnecting as (_ & _ & Hp' & _); [by right|].
  split; [exact Hp|]. split; [exact Hs | exact Hp'].
Defined.

Lemma page_ignores_unknown_frames_witness :
  on_socket_message ping (page_with "Hi") = page_with "Hi".
Proof.
  apply page_ignores_unknown_frames. right. right. eexists.
  split; [by vm_compute|]. intros t. vm_compute. intros [= <-].
  intros Hin. repeat (apply elem_of_cons in Hin as [[=]|Hin]). by apply elem_of_nil in Hin.
Defined.

End ClientFacts.
